(** * SUEF: a shallow embedding of the transform engine, the fusion models
      and the distributed-training utilities, with the properties proved
      about them.

    Sources embedded here:
    - [data/data_augmentations.py]  (class [DataAugmentations])
    - [models/multi_stream.py]      (classes [MultiStream], [MultiStreamShared])
    - [utils/ddp_utils.py]          (classes [AverageMeterDDP],
                                     [DistributedWeightedSampler])

    Conventions.  Python exceptions are values of [exn] carried by the
    [result] monad.  Python floats and numpy float64 scalars are Rocq's
    primitive binary64 floats.  A numpy array is a shape together with its
    elements in row-major (C) order.  Random draws are extra arguments of
    the operation that makes them. *)

From Stdlib Require Import ZArith Floats Uint63 Lia Bool.
From stdpp Require Import gmap strings list.

Local Open Scope Z_scope.

(** ** Python runtime: exceptions and results *)

(** The [ValueError]s that the embedded code can meet, told apart by origin. *)
Inductive value_error : Type :=
| FinalShapeMismatch   (* transform_size: "Final video after transformation is not correct shape" *)
| CannotExtendCrop     (* t_crop_rwave: "Cannot extend crop into correct shape" *)
| CropWidthLength      (* skimage.util.crop: crop_width has an invalid length *)
| PadWidthRank         (* numpy.pad: pad_width does not broadcast to the rank *)
| ConcatShapes         (* numpy.append: trailing dimensions differ *)
| NanToInteger         (* int(nan), math.ceil(nan) *)
| InvalidRank          (* DistributedSampler: rank outside [0, num_replicas) *)
| BroadcastShapes      (* numpy: could not broadcast input array into shape *)
| InvalidRange         (* numpy.random.randint: low >= high *)
| TransposeAxes        (* ndarray.transpose: axes don't match array *)
| NegativePad          (* numpy.pad: negative pad width *)
| NegativeScale.       (* numpy.random.normal: scale < 0 *)

Inductive exn : Type :=
| AssertionError
| ValueError (why : value_error)
| IndexError
| UnboundLocalError (name : string)
| ZeroDivisionError
| OverflowError
| AttributeError (name : string)
| KeyError
| RuntimeError
| TypeError
| AxisError            (* numpy.AxisError: the axis does not exist *)
| LibraryError         (* an error raised inside a third-party routine *)
| NoSuchArray          (* not an exception: the reference denotes no array *)
| Hang.                (* not an exception: the call never returns *)

Inductive result (A : Type) : Type :=
| Ok (a : A)
| Raise (e : exn).
Arguments Ok {A} a.
Arguments Raise {A} e.

#[global] Instance result_ret : MRet result := fun A a => Ok a.
#[global] Instance result_bind : MBind result :=
  fun A B f m => match m with Ok a => f a | Raise e => Raise e end.

Definition py_assert (b : bool) : result unit :=
  if b then Ok tt else Raise AssertionError.

(** The calls of a loop body over a list, in order, up to the first
    exception. *)
Fixpoint for_each {X Y} (f : X -> result Y) (xs : list X) : result (list Y) :=
  match xs with
  | [] => Ok []
  | x :: xs' => y ← f x; ys ← for_each f xs'; Ok (y :: ys)
  end.

(** [enumerate(xs)] *)
Definition enumerate {X} (xs : list X) : list (nat * X) := zip (seq 0 (length xs)) xs.

(** ** Python numbers *)

Module PyFloat.

(** [float(z)] for a Python int below 2^63 in magnitude. *)
Definition of_int (z : Z) : float :=
  if z <? 0 then PrimFloat.opp (PrimFloat.of_uint63 (Uint63.of_Z (- z)))
  else PrimFloat.of_uint63 (Uint63.of_Z z).

(** True division [a / b] of Python floats. *)
Definition truediv (a b : float) : result float :=
  if PrimFloat.eqb b 0%float then Raise ZeroDivisionError
  else Ok (PrimFloat.div a b).

(** Magnitude of a finite float rounded towards zero, and whether a
    fractional part was dropped. *)
Definition magnitude (m : positive) (e : Z) : Z * bool :=
  if 0 <=? e then (Z.pos m * 2 ^ e, false)
  else (Z.pos m / 2 ^ (- e), negb (Z.pos m mod 2 ^ (- e) =? 0)).

(** [int(x)]: truncation towards zero. *)
Definition to_int (x : float) : result Z :=
  match Prim2SF x with
  | S754_zero _ => Ok 0
  | S754_infinity _ => Raise OverflowError
  | S754_nan => Raise (ValueError NanToInteger)
  | S754_finite s m e =>
      let '(q, _) := magnitude m e in Ok (if s then - q else q)
  end.

(** [math.ceil(x)]. *)
Definition ceil (x : float) : result Z :=
  match Prim2SF x with
  | S754_zero _ => Ok 0
  | S754_infinity _ => Raise OverflowError
  | S754_nan => Raise (ValueError NanToInteger)
  | S754_finite s m e =>
      let '(q, frac) := magnitude m e in
      Ok (if s then - q else if frac then q + 1 else q)
  end.

End PyFloat.

(** ** numpy arrays *)

Record ndarray (A : Type) : Type := mk_ndarray {
  shape : list Z;      (* [a.shape] *)
  data : list A        (* the elements, row-major *)
}.
Arguments mk_ndarray {A} shape data.
Arguments shape {A} _.
Arguments data {A} _.

Module Np.
Section Arrays.
Context {A : Type}.

(** Number of elements of an array of shape [sh]. *)
Definition size_of (sh : list Z) : Z := foldr Z.mul 1 sh.

(** The invariant of an array value: non-negative extents and as many
    elements as the shape says. *)
Definition wf (a : ndarray A) : Prop :=
  Forall (fun n => 0 <= n) (shape a) /\
  length (data a) = Z.to_nat (size_of (shape a)).

(** [a.shape[i]] *)
Definition shape_at (a : ndarray A) (i : nat) : result Z :=
  match shape a !! i with
  | Some n => Ok n
  | None => Raise IndexError
  end.

(** [len(a)] *)
Definition len (a : ndarray A) : result Z :=
  match shape a with
  | n :: _ => Ok n
  | [] => Raise TypeError
  end.

(** Where index [i] of a slice bound lands in a sequence of [n] items:
    negative bounds count from the end, then the bound is clipped. *)
Definition slice_index (n i : Z) : Z :=
  Z.max 0 (Z.min n (if i <? 0 then i + n else i)).

(** [slice(a, b).indices(n)]: first item and number of items. *)
Definition slice_bounds (n a b : Z) : Z * Z :=
  let lo := slice_index n a in
  (lo, Z.max 0 (slice_index n b - lo)).

(** The [n] consecutive blocks of [k] elements of a buffer. *)
Fixpoint rows (k n : nat) (d : list A) : list (list A) :=
  match n with
  | O => []
  | S n' => take k d :: rows k n' (drop k d)
  end.

(** Basic slicing [a[s0, s1, ...]] with one [slice(lo, hi)] per leading
    axis; axes without a slice are kept whole. *)
Fixpoint getitem (sh : list Z) (sl : list (Z * Z)) (d : list A) : list A :=
  match sh, sl with
  | n :: sh', (a, b) :: sl' =>
      let '(lo, cnt) := slice_bounds n a b in
      let rs := rows (Z.to_nat (size_of sh')) (Z.to_nat n) d in
      concat (getitem sh' sl' <$> take (Z.to_nat cnt) (drop (Z.to_nat lo) rs))
  | _, _ => d
  end.

Fixpoint getitem_shape (sh : list Z) (sl : list (Z * Z)) : list Z :=
  match sh, sl with
  | n :: sh', (a, b) :: sl' => snd (slice_bounds n a b) :: getitem_shape sh' sl'
  | _, _ => sh
  end.

(** The slices that keep every axis whole. *)
Definition whole (sh : list Z) : list (Z * Z) := (fun n => (0, n)) <$> sh.

Definition slices (a : ndarray A) (sl : list (Z * Z)) : result (ndarray A) :=
  if decide (length sl <= length (shape a))%nat
  then Ok (mk_ndarray (getitem_shape (shape a) sl) (getitem (shape a) sl (data a)))
  else Raise IndexError.

(** [a[lo:hi]]: the items [lo, hi) of the leading axis. *)
Definition slice0 (a : ndarray A) (lo hi : Z) : result (ndarray A) :=
  match shape a with
  | n :: sh' =>
      let '(s, cnt) := slice_bounds n lo hi in
      let k := Z.to_nat (size_of sh') in
      Ok (mk_ndarray (cnt :: sh')
                     (take (Z.to_nat cnt * k) (drop (Z.to_nat s * k) (data a))))
  | [] => Raise IndexError
  end.

(** [np.append(a, b, axis=0)] for arrays that agree on the trailing axes. *)
Definition append0 (a b : ndarray A) : result (ndarray A) :=
  match shape a, shape b with
  | n :: sa, m :: sb =>
      if decide (sa = sb) then Ok (mk_ndarray (n + m :: sa) (data a ++ data b))
      else Raise (ValueError ConcatShapes)
  | _, _ => Raise (ValueError ConcatShapes)
  end.

(** [np.pad(a, ((0, k), (0, 0), (0, 0), (0, 0)), constant_values=c)]:
    [k] blocks of [c] after the last item of the leading axis; the four
    pairs fit arrays of rank four only. *)
Definition pad0_rank4 (a : ndarray A) (k : Z) (c : A) : result (ndarray A) :=
  match shape a with
  | [l; h; w; ch] =>
      Ok (mk_ndarray [l + k; h; w; ch]
                     (data a ++ replicate (Z.to_nat (k * size_of [h; w; ch])) c))
  | _ => Raise (ValueError PadWidthRank)
  end.

(** A value shape lined up with a target shape of rank [k] for an
    assignment: leading axes of extent one are dropped from a value of
    higher rank, and added to one of lower rank. *)
Fixpoint strip_ones (extra : nat) (vsh : list Z) : list Z :=
  match extra, vsh with
  | S extra', 1 :: vsh' => strip_ones extra' vsh'
  | _, _ => vsh
  end.

Definition align (vsh tsh : list Z) : list Z :=
  let vsh := strip_ones (length vsh - length tsh) vsh in
  replicate (length tsh - length vsh) 1 ++ vsh.

(** The items of a value of shape [vsh] repeated to fill the shape [tsh]
    of the same rank: an axis must agree with the target or have extent
    one. *)
Fixpoint broadcast (vsh tsh : list Z) (d : list A) : option (list A) :=
  match vsh, tsh with
  | [], [] => Some d
  | n :: vsh', m :: tsh' =>
      if n =? m
      then (fun bs => concat bs) <$> mapM (broadcast vsh' tsh')
                        (rows (Z.to_nat (size_of vsh')) (Z.to_nat n) d)
      else if n =? 1
      then (fun b => concat (replicate (Z.to_nat m) b)) <$> broadcast vsh' tsh' d
      else None
  | _, _ => None
  end.

(** The items that [target[...] = value] stores into a target of shape
    [tsh]. *)
Definition broadcast_to (value : ndarray A) (tsh : list Z) : result (list A) :=
  match broadcast (align (shape value) tsh) tsh (data value) with
  | Some d => Ok d
  | None => Raise (ValueError BroadcastShapes)
  end.

(** [a[i]] for [0 <= i < len(a)], as the iteration over [a] yields it. *)
Definition frame (a : ndarray A) (i : nat) : result (ndarray A) :=
  match shape a with
  | n :: sh' =>
      if (Z.of_nat i <? n)
      then let k := Z.to_nat (size_of sh') in
           Ok (mk_ndarray sh' (take k (drop (i * k) (data a))))
      else Raise IndexError
  | [] => Raise IndexError
  end.

(** [a[i] = value] for [0 <= i < len(a)]. *)
Definition set_frame (a : ndarray A) (i : nat) (value : ndarray A) : result (ndarray A) :=
  match shape a with
  | n :: sh' =>
      if (Z.of_nat i <? n)
      then d ← broadcast_to value sh';
           let k := Z.to_nat (size_of sh') in
           Ok (mk_ndarray (shape a) (take (i * k) (data a) ++ d ++ drop (S i * k) (data a)))
      else Raise IndexError
  | [] => Raise IndexError
  end.

(** The items of the rectangle [y0:y1, x0:x1, :] of a frame of shape
    [(h, w, c)] replaced by the items [d] of a value of the rectangle's
    shape. *)
Definition set_rect_data (h w c : Z) (ys xs : Z * Z) (d : list A) (frame_data : list A)
  : list A :=
  let '(y0, ny) := ys in
  let '(x0, nx) := xs in
  let row := Z.to_nat (w * c) in
  let patch := rows (Z.to_nat (nx * c)) (Z.to_nat ny) d in
  concat (imap (fun y r =>
                  match patch !! (y - Z.to_nat y0)%nat with
                  | Some p =>
                      if (Z.to_nat y0 <=? y)%nat
                      then take (Z.to_nat (x0 * c)) r ++ p ++ drop (Z.to_nat ((x0 + nx) * c)) r
                      else r
                  | None => r
                  end)
               (rows row (Z.to_nat h) frame_data)).

(** [a[i, y0:y1, x0:x1, :] = value] on a video [a] of rank four. *)
Definition set_frame_rect (a : ndarray A) (i : nat) (y0 y1 x0 x1 : Z) (value : ndarray A)
  : result (ndarray A) :=
  match shape a with
  | [l; h; w; c] =>
      if (Z.of_nat i <? l)
      then let ys := slice_bounds h y0 y1 in
           let xs := slice_bounds w x0 x1 in
           d ← broadcast_to value [snd ys; snd xs; c];
           let k := Z.to_nat (size_of [h; w; c]) in
           Ok (mk_ndarray (shape a)
                 (take (i * k) (data a)
                  ++ set_rect_data h w c ys xs d (take k (drop (i * k) (data a)))
                  ++ drop (S i * k) (data a)))
      else Raise IndexError
  | _ => Raise IndexError
  end.

(** The items of the rectangle of a frame sent through [f]. *)
Definition map_rect_data (h w c : Z) (ys xs : Z * Z) (f : A -> A) (frame_data : list A)
  : list A :=
  let '(y0, ny) := ys in
  let '(x0, nx) := xs in
  concat (imap (fun y r =>
                  if (Z.to_nat y0 <=? y)%nat && (y <? Z.to_nat (y0 + ny))%nat
                  then take (Z.to_nat (x0 * c)) r
                       ++ (f <$> take (Z.to_nat (nx * c)) (drop (Z.to_nat (x0 * c)) r))
                       ++ drop (Z.to_nat ((x0 + nx) * c)) r
                  else r)
               (rows (Z.to_nat (w * c)) (Z.to_nat h) frame_data)).

(** The rectangle [y0:y1, x0:x1] of every frame and channel of a video of
    shape [(l, h, w, c)] sent through [f]. *)
Definition map_rect (a : ndarray A) (y0 y1 x0 x1 : Z) (f : A -> A) : result (ndarray A) :=
  match shape a with
  | [l; h; w; c] =>
      let ys := slice_bounds h y0 y1 in
      let xs := slice_bounds w x0 x1 in
      Ok (mk_ndarray (shape a)
            (concat (map_rect_data h w c ys xs f
                       <$> rows (Z.to_nat (size_of [h; w; c])) (Z.to_nat l) (data a))))
  | _ => Raise (ValueError TransposeAxes)
  end.

(** [np.pad(a, ((0, 0), (ph, ph), (pw, pw), (0, 0)), constant_values=v)] *)
Definition pad_hw (a : ndarray A) (ph pw : Z) (v : A) : result (ndarray A) :=
  if (ph <? 0) || (pw <? 0) then Raise (ValueError NegativePad) else
  match shape a with
  | [l; h; w; c] =>
        let side := replicate (Z.to_nat (pw * c)) v in
        let blank := replicate (Z.to_nat (ph * ((w + 2 * pw) * c))) v in
        let pad_frame fd :=
          blank ++ concat ((fun r => side ++ r ++ side)
                             <$> rows (Z.to_nat (w * c)) (Z.to_nat h) fd) ++ blank in
        Ok (mk_ndarray [l; h + 2 * ph; w + 2 * pw; c]
              (concat (pad_frame <$> rows (Z.to_nat (size_of [h; w; c])) (Z.to_nat l) (data a))))
  | _ => Raise (ValueError PadWidthRank)
  end.

(** [np.full_like(a, c)] *)
Definition full_like (a : ndarray A) (c : A) : ndarray A :=
  mk_ndarray (shape a) (replicate (length (data a)) c).

(** [n] blocks of [unit] items moved by [t] blocks towards the end
    ([t > 0]) or the start ([t < 0]), the blocks that come free filled
    with [fill]. *)
Definition shift (t : Z) (unit : nat) (n : Z) (fill : A) (d : list A) : list A :=
  let k := Z.to_nat (Z.min (Z.abs t) n) in
  if t <? 0 then drop (k * unit) d ++ replicate (k * unit) fill
  else if 0 <? t then replicate (k * unit) fill ++ take ((Z.to_nat n - k) * unit) d
  else d.

(** The items of a channel-last video by channel: one list per channel. *)
Definition channels (c : nat) (d : list A) : list (list A) :=
  (fun i => flat_map (fun p => take 1 (drop i p)) (rows c (length d / c) d)) <$> seq 0 c.

(** The reverse: [n] pixels put together from one list per channel. *)
Fixpoint interleave (n : nat) (chs : list (list A)) : list A :=
  match n with
  | O => []
  | S n' => flat_map (take 1) chs ++ interleave n' (drop 1 <$> chs)
  end.

(** [seq[i]] on a Python list. *)
Definition item {B} (l : list B) (i : nat) : result B :=
  match l !! i with
  | Some x => Ok x
  | None => Raise IndexError
  end.

(** Element-wise conversion, as in [a.astype(t)]. *)
Definition astype (f : A -> A) (a : ndarray A) : ndarray A :=
  mk_ndarray (shape a) (f <$> data a).

End Arrays.
End Np.

(** ** skimage.util.crop *)

(** [crop(ar, crop_width)] for [crop_width] a sequence of [(before, after)]
    pairs: one pair is used for every axis, one pair per axis is used as
    given, any other number of pairs is a [ValueError].  Axis [i] keeps
    [slice(before, ar.shape[i] - after)]. *)
Definition crop {A} (ar : ndarray A) (crop_width : list (Z * Z)) : result (ndarray A) :=
  let per_axis :=
    match crop_width with
    | [c] => Some (replicate (length (shape ar)) c)
    | _ => if decide (length crop_width = length (shape ar))
           then Some crop_width else None
    end in
  match per_axis with
  | Some crops =>
      Np.slices ar (zip_with (fun n '(a, b) => (a, n - b)) (shape ar) crops)
  | None => Raise (ValueError CropWidthLength)
  end.

(** ** data/data_augmentations.py *)

(** The transform settings read by the code ([self.transforms]). *)
Record transforms : Type := mk_transforms {
  normalize_input : bool;
  grayscale : bool;
  rwave_data_only : bool;
  rescale_fps : bool;
  target_fps : Z;
  rescale_fphb : bool;
  target_fphb : Z;
  resize_frames : bool;
  target_height : Z;
  target_width : Z;
  crop_sides : bool;
  crop_length : bool;
  loop_length : bool;
  pad_length : bool;
  target_length : Z
}.

(** Reading a local variable that an earlier branch may not have bound. *)
Definition local {A} (name : string) (v : option A) : result A :=
  match v with
  | Some a => Ok a
  | None => Raise (UnboundLocalError name)
  end.

Section SizeTransforms.

(** The element type of the video array and what numpy and skimage do
    with elements. *)
Context {px : Type}.
(** [astype(np.uint8)] on one element. *)
Variable uint8 : px -> px.
(** [np.average] of the elements along the last axis. *)
Variable average : list px -> px.
(** A Python float stored into the array. *)
Variable of_float : float -> px.
(** [skimage.transform.resize(img, output_shape, mode='constant', cval=c,
    preserve_range=True, anti_aliasing=True)], with [c] first. *)
Variable resize : float -> ndarray px -> list Z -> result (ndarray px).

Variable tr : transforms.

(** [__init__]: the black and white values. *)
Definition black_val : float := if normalize_input tr then (-1)%float else 0%float.
Definition white_val : float := if normalize_input tr then 1%float else 255%float.

Definition t_grayscale_mean (img : ndarray px) : result (ndarray px) :=
  match reverse (shape img) with
  | c :: rsh =>
      let sh := reverse rsh in
      let means := average <$> Np.rows (Z.to_nat c) (Z.to_nat (Np.size_of sh)) (data img) in
      Ok (Np.astype uint8 (mk_ndarray sh means))
  | [] => Raise AxisError
  end.

Definition t_resize (img : ndarray px) (target_length' target_height' target_width' : Z)
  : result (ndarray px) :=
  r ← resize black_val img [target_length'; target_height'; target_width'];
  Ok (Np.astype uint8 r).

Definition calc_fphb (hr fps : float) : result float :=
  hbs ← PyFloat.truediv hr 60%float;
  PyFloat.truediv fps hbs.

Definition calc_rwave_fphb (rwave_diff fps : float) : result float :=
  hbs ← PyFloat.truediv 1%float rwave_diff;
  PyFloat.truediv fps hbs.

Definition t_pad_length (img : ndarray px) : result (ndarray px) :=
  n ← Np.shape_at img 0;
  let diff := target_length tr - n in
  if 0 <? diff then Np.pad0_rank4 img diff (of_float black_val) else Ok img.

(** The [while] loop of [t_loop_length], at most [fuel] rounds. *)
Fixpoint loop_rounds (fuel : nat) (org_img img : ndarray px) : result (ndarray px) :=
  n ← Np.len img;
  if n <? target_length tr then
    match fuel with
    | O => Raise Hang
    | S fuel' =>
        m ← Np.len org_img;
        ext ← (if m <=? target_length tr - n then Ok org_img
               else Np.slice0 org_img 0 (target_length tr - n));
        img' ← Np.append0 img ext;
        loop_rounds fuel' org_img img'
    end
  else Ok img.

(** Every round but a round on an empty video adds a frame, so
    [target_length] rounds are enough whenever the loop ends at all. *)
Definition t_loop_length (img : ndarray px) : result (ndarray px) :=
  r ← loop_rounds (Z.to_nat (target_length tr)) img img;
  Ok (Np.astype uint8 r).

Definition t_crop (img : ndarray px) : result (ndarray px) :=
  shorten ← (if crop_length tr
             then n ← Np.shape_at img 0; Ok (target_length tr <? n)
             else Ok false);
  crop_sequence ← (if shorten : bool
                   then n ← Np.shape_at img 0;
                        let diff := n - target_length tr in
                        Ok [(0, diff); (0, 0); (0, 0); (0, 0)]
                   else Ok [(0, 0); (0, 0); (0, 0); (0, 0)]);
  r ← crop img crop_sequence;
  Ok (Np.astype uint8 r).

(** The frame window of [t_crop_rwave] for a video of [n] frames: the two
    frame numbers computed from the timestamps, then the corrections. *)
Definition rwave_window (n : Z) (rwaves : list float) (rwave_indexes : nat * nat)
    (fps : float) : result (Z * Z) :=
  r0 ← Np.item rwaves (fst rwave_indexes);
  start_frame ← PyFloat.to_int (PrimFloat.mul (PrimFloat.div r0 1000%float) fps);
  r1 ← Np.item rwaves (snd rwave_indexes);
  end_frame ← PyFloat.to_int (PrimFloat.mul (PrimFloat.div r1 1000%float) fps);
  let '(start_frame, end_frame) :=
    if n <? end_frame then (start_frame - 1, end_frame - 1)
    else (start_frame, end_frame) in
  if end_frame - start_frame <? target_fphb tr then
    if end_frame <? n then Ok (start_frame, end_frame + 1)
    else if 0 <? start_frame then Ok (start_frame - 1, end_frame)
    else Raise (ValueError CannotExtendCrop)
  else if target_fphb tr <? end_frame - start_frame then
    if start_frame <? end_frame - 1 then Ok (start_frame + 1, end_frame)
    else if start_frame + 1 <? end_frame then Ok (start_frame, end_frame - 1)
    else Raise (ValueError CannotExtendCrop)
  else Ok (start_frame, end_frame).

Definition t_crop_rwave (video : ndarray px) (rwaves : list float)
    (rwave_indexes : nat * nat) (fps : float) : result (ndarray px) :=
  n ← Np.shape_at video 0;
  if n =? target_fphb tr then Ok video else
  '(start_frame, end_frame) ← rwave_window n rwaves rwave_indexes fps;
  Np.slice0 video start_frame end_frame.

(** One round of the scan in [calc_rwave_data]; [prev] is [rwaves[i - 1]]. *)
Fixpoint rwave_scan (i : nat) (prev : float) (rest : list float)
    (best : float * (nat * nat)) : float * (nat * nat) :=
  match rest with
  | [] => best
  | r :: rest' =>
      let diff := PrimFloat.div (PrimFloat.sub r prev) 1000%float in
      rwave_scan (S i) r rest'
        (if PrimFloat.ltb (fst best) diff then (diff, (Nat.pred i, i)) else best)
  end.

Definition calc_rwave_data (rwaves : list float) : float * (nat * nat) :=
  match rwaves with
  | [] => (0%float, (0%nat, 0%nat))
  | r :: rest => rwave_scan 1 r rest (0%float, (0%nat, 0%nat))
  end.

(** [transform_size], in the order of the source.  The body is cut at
    its second assertion and at the final check:
    [rescale_stages] is the source up to the rescale ([grayscale],
    [calc_rwave_data], the first assertion, [t_resize]) and yields the
    locals that later lines read; [length_stages] is the crop, r-wave
    crop, loop and pad lines; [shape_check] is the final test. *)
Definition rescale_stages (img : ndarray px) (fps hr : float) (rwaves : list float)
  : result (ndarray px * option float * option (float * (nat * nat))) :=
  img ← (if grayscale tr then t_grayscale_mean img else Ok img);
  let rwave_data := if rwave_data_only tr then Some (calc_rwave_data rwaves) else None in
  '(img, curr_fphb) ←
    (if rescale_fps tr || resize_frames tr || rescale_fphb tr then
       _ ← py_assert (negb (rescale_fps tr && rescale_fphb tr));
       '(new_length, curr_fphb) ←
         (if rescale_fps tr && negb (PrimFloat.eqb (PyFloat.of_int (target_fps tr)) fps) then
            n ← Np.shape_at img 0;
            q ← PyFloat.truediv (PyFloat.of_int (target_fps tr)) fps;
            l ← PyFloat.to_int (PrimFloat.mul (PyFloat.of_int n) q);
            Ok (l, None)
          else if rescale_fphb tr then
            c ← (if rwave_data_only tr
                 then d ← local "rwave_diff" rwave_data; calc_rwave_fphb (fst d) fps
                 else calc_fphb hr fps);
            n ← Np.shape_at img 0;
            q ← PyFloat.truediv (PyFloat.of_int (target_fphb tr)) c;
            l ← PyFloat.ceil (PrimFloat.mul (PyFloat.of_int n) q);
            Ok (if l <? target_fphb tr then target_fphb tr else l, Some c)
          else
            n ← Np.shape_at img 0; Ok (n, None));
       '(new_height, new_width) ←
         (same ← (if resize_frames tr
                  then h ← Np.shape_at img 1;
                       if h =? target_height tr
                       then w ← Np.shape_at img 2; Ok (w =? target_width tr)
                       else Ok false
                  else Ok true);
          if same : bool
          then h ← Np.shape_at img 1; w ← Np.shape_at img 2; Ok (h, w)
          else Ok (target_height tr, target_width tr));
       img ← t_resize img new_length new_height new_width;
       Ok (img, curr_fphb)
     else Ok (img, None));
  Ok (img, curr_fphb, rwave_data).

Definition length_stages (img : ndarray px) (curr_fphb : option float)
    (rwave_data : option (float * (nat * nat))) (fps : float) (rwaves : list float)
  : result (ndarray px) :=
  img ← (if crop_sides tr || crop_length tr then t_crop img else Ok img);
  img ← (if rwave_data_only tr then
           c ← local "curr_fphb" curr_fphb;
           q ← PyFloat.truediv (PyFloat.of_int (target_fphb tr)) c;
           d ← local "rwave_indexes" rwave_data;
           t_crop_rwave img rwaves (snd d) (PrimFloat.mul fps q)
         else Ok img);
  img ← (if loop_length tr then t_loop_length img else Ok img);
  if pad_length tr then t_pad_length img else Ok img.

Definition shape_check (img : ndarray px) : result (ndarray px) :=
  c ← Np.shape_at img 3;
  if decide (shape img = [target_length tr; target_height tr; target_width tr; c])
  then Ok img
  else Raise (ValueError FinalShapeMismatch).

(** Everything before the final check. *)
Definition size_stages (img : ndarray px) (fps hr : float) (rwaves : list float)
  : result (ndarray px) :=
  '(img, curr_fphb, rwave_data) ← rescale_stages img fps hr rwaves;
  _ ← py_assert (negb (loop_length tr && crop_length tr && rwave_data_only tr));
  length_stages img curr_fphb rwave_data fps rwaves.

Definition transform_size (img : ndarray px) (fps hr : float) (rwaves : list float)
  : result (ndarray px) :=
  img ← size_stages img fps hr rwaves;
  shape_check img.

End SizeTransforms.

(** *** The value transforms and augmentations *)

(** The augmentation settings read by the code ([self.augmentations]). *)
Record augmentations : Type := mk_augmentations {
  gaussian_noise : bool;
  gn_var : float;
  speckle : bool;
  speckle_var : float;
  salt_and_pepper : bool;
  salt_and_pepper_amount : float;
  translate_h : bool;
  translate_h_std_dev_pxl : float;
  translate_v : bool;
  translate_v_std_dev_pxl : float;
  rotate : bool;
  rotate_std_dev_degrees : float;
  zoom : bool;
  zoom_factor_std_dev : float;
  local_blackout : bool;
  blackout_h_std_dev : float;
  blackout_w_std_dev : float;
  local_intensity : bool;
  intensity_h_std_dev : float;
  intensity_w_std_dev : float;
  intensity_var : float
}.

(** [np.random.normal(0, scale)], given the standard normal sample [z] that
    the generator produces for the call; a negative scale is refused. *)
Definition normal (scale z : float) : result float :=
  if PrimFloat.ltb scale 0%float then Raise (ValueError NegativeScale)
  else Ok (PrimFloat.add 0%float (PrimFloat.mul scale z)).

(** [np.random.randint(0, high)], given the integer [u] that the generator
    produces for the call, brought into the range. *)
Definition randint (high u : Z) : result Z :=
  if 0 <? high then Ok (u mod high) else Raise (ValueError InvalidRange).

(** [int(abs(x))] *)
Definition int_abs (x : float) : result Z := PyFloat.to_int (PrimFloat.abs x).

Inductive noise_mode : Type := Gaussian | SaltAndPepper | Speckle.

(** What the random generators hand out during one call of
    [transform_values], in the order of the calls: a generator state for
    each noise, standard normal samples [z_*] and integers [u_*]. *)
Record draws (rng : Type) : Type := mk_draws {
  g_gaussian : rng;
  g_speckle : rng;
  g_salt_and_pepper : rng;
  z_translate_h : float;
  z_translate_v : float;
  z_rotate : float;
  z_zoom : float;
  z_blackout_h : float;
  z_blackout_w : float;
  u_blackout_h : Z;
  u_blackout_w : Z;
  z_intensity_h : float;
  z_intensity_w : float;
  u_intensity_h : Z;
  u_intensity_w : Z;
  z_intensity_val : float
}.
Arguments mk_draws {rng}.
Arguments g_gaussian {rng} _.
Arguments g_speckle {rng} _.
Arguments g_salt_and_pepper {rng} _.
Arguments z_translate_h {rng} _.
Arguments z_translate_v {rng} _.
Arguments z_rotate {rng} _.
Arguments z_zoom {rng} _.
Arguments z_blackout_h {rng} _.
Arguments z_blackout_w {rng} _.
Arguments u_blackout_h {rng} _.
Arguments u_blackout_w {rng} _.
Arguments z_intensity_h {rng} _.
Arguments z_intensity_w {rng} _.
Arguments u_intensity_h {rng} _.
Arguments u_intensity_w {rng} _.
Arguments z_intensity_val {rng} _.

Section ValueTransforms.

Context {px : Type}.
(** The generator state that [skimage.util.random_noise] consumes. *)
Context {rng : Type}.
(** [astype(np.float32)] on one element. *)
Variable float32 : px -> px.
(** [x / 255] and [(x / 255.) * 2 - 1] on one element. *)
Variable div255 : px -> px.
Variable signed_unit : px -> px.
(** [np.dot] of the first three channels of a pixel with the luminance
    weights. *)
Variable luminance : list px -> px.
(** A Python float stored into the array. *)
Variable of_float : float -> px.
(** [x + v] for an element and a Python float, stored back. *)
Variable add_float : px -> float -> px.
(** [np.clip(x, lo, hi)] on one element. *)
Variable clip : float -> float -> px -> px.
(** [random_noise(img, mode=..., var=p)] or [amount=p]. *)
Variable random_noise : noise_mode -> float -> rng -> ndarray px -> result (ndarray px).
(** [cv2.cvtColor(frame, cv2.COLOR_RGB2GRAY)] *)
Variable cvt_gray : ndarray px -> result (ndarray px).
(** [rotate(frame, angle, resize=False, mode='constant', cval=c,
    preserve_range=True)], with [c] first. *)
Variable rotate_frame : float -> float -> ndarray px -> result (ndarray px).
(** [rescale(frame, scale, mode='constant', cval=c, preserve_range=True,
    multichannel=True)], with [c] first. *)
Variable rescale : float -> float -> ndarray px -> result (ndarray px).

Variable tr : transforms.
Variable au : augmentations.

Definition t_grayscale_custom (img : ndarray px) : result (ndarray px) :=
  match reverse (shape img) with
  | c :: rsh =>
      if 3 <=? c
      then let sh := reverse rsh in
           let pixels := Np.rows (Z.to_nat c) (Z.to_nat (Np.size_of sh)) (data img) in
           Ok (mk_ndarray (sh ++ [1]) ((fun p => luminance (take 3 p)) <$> pixels))
      else Raise (ValueError BroadcastShapes)
  | [] => Raise IndexError
  end.

(** The loop of [t_grayscale_cv2] over the frames [i, i + n). *)
Fixpoint grayscale_cv2_rounds (img new_img : ndarray px) (i n : nat)
  : result (ndarray px) :=
  match n with
  | O => Ok new_img
  | S n' =>
      frame ← Np.frame img i;
      g ← cvt_gray frame;
      new_img ← Np.set_frame new_img i g;
      grayscale_cv2_rounds img new_img (S i) n'
  end.

Definition t_grayscale_cv2 (img : ndarray px) : result (ndarray px) :=
  l ← Np.shape_at img 0;
  h ← Np.shape_at img 1;
  w ← Np.shape_at img 2;
  let new_img := mk_ndarray [l; h; w]
                   (replicate (Z.to_nat (Np.size_of [l; h; w])) (of_float 0%float)) in
  r ← grayscale_cv2_rounds img new_img 0 (Z.to_nat l);
  Ok (mk_ndarray (shape r ++ [1]) (data r)).

Definition t_normalize (img : ndarray px) : ndarray px := Np.astype div255 img.

Definition t_normalize_signed (img : ndarray px) : ndarray px := Np.astype signed_unit img.

Definition t_gaussian_noise (img : ndarray px) (g : rng) : result (ndarray px) :=
  random_noise Gaussian (gn_var au) g img.

Definition t_salt_and_pepper (img : ndarray px) (g : rng) : result (ndarray px) :=
  random_noise SaltAndPepper (salt_and_pepper_amount au) g img.

Definition t_speckle (img : ndarray px) (g : rng) : result (ndarray px) :=
  random_noise Speckle (speckle_var au) g img.

(** [int((a - b) / 2)] for Python ints: the quotient rounded towards
    zero. *)
Definition half (d : Z) : Z := Z.quot d 2.

Definition t_pad_size (img : ndarray px) : result (ndarray px) :=
  h ← Np.shape_at img 1;
  grow ← (if h <? target_height tr then Ok true
          else w ← Np.shape_at img 2; Ok (w <? target_width tr));
  if grow : bool
  then h ← Np.shape_at img 1;
       w ← Np.shape_at img 2;
       Np.pad_hw img (half (target_height tr - h)) (half (target_width tr - w))
         (of_float (black_val tr))
  else Ok img.

(** The two nested loops shared by [t_translate_v], [t_translate_h] and
    [t_rotate]: every frame of every channel of the transposed video is
    sent through [f] and stored into a new video. *)
Definition per_plane (f : ndarray px -> result (ndarray px)) (video : ndarray px)
  : result (ndarray px) :=
  match shape video with
  | [l; h; w; c] =>
      chs ← for_each
              (fun channel =>
                 frames ← for_each
                            (fun frame =>
                               r ← f (mk_ndarray [h; w] frame);
                               Np.broadcast_to r [h; w])
                            (Np.rows (Z.to_nat (h * w)) (Z.to_nat l) channel);
                 Ok (concat frames))
              (Np.channels (Z.to_nat c) (data video));
      Ok (mk_ndarray [l; h; w; c] (Np.interleave (Z.to_nat (l * (h * w))) chs))
  | _ => Raise (ValueError TransposeAxes)
  end.

Definition t_translate_v (video : ndarray px) (z : float) : result (ndarray px) :=
  d ← normal (translate_v_std_dev_pxl au) z;
  t_len ← PyFloat.to_int d;
  per_plane
    (fun frame =>
       match shape frame with
       | [h; w] => Ok (mk_ndarray [h; w]
                         (Np.shift t_len (Z.to_nat w) h (of_float (black_val tr)) (data frame)))
       | _ => Raise IndexError
       end)
    video.

Definition t_translate_h (video : ndarray px) (z : float) : result (ndarray px) :=
  d ← normal (translate_h_std_dev_pxl au) z;
  t_len ← PyFloat.to_int d;
  per_plane
    (fun frame =>
       match shape frame with
       | [h; w] => Ok (mk_ndarray [h; w]
                         (concat (Np.shift t_len 1 w (of_float (black_val tr))
                                    <$> Np.rows (Z.to_nat w) (Z.to_nat h) (data frame))))
       | _ => Raise IndexError
       end)
    video.

Definition t_rotate (video : ndarray px) (z : float) : result (ndarray px) :=
  t_rotation ← normal (rotate_std_dev_degrees au) z;
  per_plane (rotate_frame (black_val tr) t_rotation) video.

(** The rectangle of [t_local_blackout] and [t_local_intensity]: the two
    sizes, then the two positions. *)
Definition draw_rect (video : ndarray px) (std_h std_w z_h z_w : float) (u_h u_w : Z)
  : result (Z * Z * Z * Z) :=
  d_h ← normal std_h z_h;
  size_h ← int_abs d_h;
  d_w ← normal std_w z_w;
  size_w ← int_abs d_w;
  h ← Np.shape_at video 1;
  pos_h ← randint (h - size_h) u_h;
  w ← Np.shape_at video 2;
  pos_w ← randint (w - size_w) u_w;
  Ok (pos_h, size_h, pos_w, size_w).

(** What [t_local_blackout] leaves in the array it is given. *)
Definition t_local_blackout (video : ndarray px) (z_h z_w : float) (u_h u_w : Z)
  : result (ndarray px) :=
  '(bo_pos_h, bo_size_h, bo_pos_w, bo_size_w) ←
    draw_rect video (blackout_h_std_dev au) (blackout_w_std_dev au) z_h z_w u_h u_w;
  Np.map_rect video bo_pos_h (bo_pos_h + bo_size_h) bo_pos_w (bo_pos_w + bo_size_w)
    (fun _ => of_float (black_val tr)).

(** What [t_local_intensity] leaves in the array it is given: the
    rectangle shifted, nothing clipped. *)
Definition local_intensity_written (video : ndarray px) (z_h z_w : float) (u_h u_w : Z)
    (z_val : float) : result (ndarray px) :=
  '(ints_pos_h, ints_size_h, ints_pos_w, ints_size_w) ←
    draw_rect video (intensity_h_std_dev au) (intensity_w_std_dev au) z_h z_w u_h u_w;
  ints_val ← normal (intensity_var au) z_val;
  Np.map_rect video ints_pos_h (ints_pos_h + ints_size_h)
    ints_pos_w (ints_pos_w + ints_size_w) (fun x => add_float x ints_val).

(** What [t_local_intensity] returns: the clipped copy. *)
Definition t_local_intensity (video : ndarray px) (z_h z_w : float) (u_h u_w : Z)
    (z_val : float) : result (ndarray px) :=
  written ← local_intensity_written video z_h z_w u_h u_w z_val;
  Ok (Np.astype (clip (black_val tr) (white_val tr)) written).

(** How the first round of the loop of [t_zoom] ends: with [return img],
    or with the size deltas and, unless [zoom_factor] compares with
    nothing, the four offsets. *)
Definition zoom_offsets (img zoom_frame : ndarray px) (zoom_factor : float)
  : result (option (Z * Z * option (Z * Z * Z * Z))) :=
  zh ← Np.shape_at zoom_frame 0;
  h ← Np.shape_at img 1;
  let diff_height := zh - h in
  zw ← Np.shape_at zoom_frame 1;
  w ← Np.shape_at img 2;
  let diff_width := zw - w in
  if PrimFloat.eqb zoom_factor 1%float || ((diff_height =? 0) && (diff_width =? 0))
  then Ok None
  else if PrimFloat.ltb 1%float zoom_factor
  then let diff_h_start := half diff_height in
       let diff_w_start := half diff_width in
       Ok (Some (diff_height, diff_width,
                 Some (diff_h_start, h + diff_h_start, diff_w_start, w + diff_w_start)))
  else if PrimFloat.ltb zoom_factor 1%float
  then let diff_h_start := half (Z.abs diff_height) in
       let diff_w_start := half (Z.abs diff_width) in
       Ok (Some (diff_height, diff_width,
                 Some (diff_h_start, zh + diff_h_start, diff_w_start, zw + diff_w_start)))
  else Ok (Some (diff_height, diff_width, None)).

(** The loop of [t_zoom] over the frames [i, i + n); [diffs] holds
    [diff_height] and [diff_width] once they are set, [offsets] the four
    offsets once they are bound.  The loop ends with [return img]
    ([None]) or, after the last frame, with the new video. *)
Fixpoint zoom_rounds (img new_img : ndarray px) (zoom_factor : float)
    (diffs : option (Z * Z)) (offsets : option (Z * Z * Z * Z)) (i n : nat)
  : result (option (ndarray px)) :=
  match n with
  | O => Ok (Some new_img)
  | S n' =>
      frame ← Np.frame img i;
      zoom_frame ← rescale (black_val tr) zoom_factor frame;
      first ← (match diffs with
               | Some d => Ok (Some (d, offsets))
               | None =>
                   o ← zoom_offsets img zoom_frame zoom_factor;
                   Ok (match o with
                       | None => None
                       | Some (dh, dw, offs) => Some ((dh, dw), offs)
                       end)
               end);
      match first with
      | None => Ok None
      | Some (d, offsets) =>
          new_img ←
            (if PrimFloat.ltb 1%float zoom_factor then
               '(hs, he, ws, we) ← local "diff_h_start" offsets;
               c ← Np.shape_at zoom_frame 2;
               part ← Np.slices zoom_frame [(hs, he); (ws, we); (0, c)];
               Np.set_frame new_img i part
             else if PrimFloat.ltb zoom_factor 1%float then
               '(hs, he, ws, we) ← local "diff_h_start" offsets;
               Np.set_frame_rect new_img i (Z.abs hs) (Z.abs he) (Z.abs ws) (Z.abs we)
                 zoom_frame
             else Ok new_img);
          zoom_rounds img new_img zoom_factor (Some d) offsets (S i) n'
      end
  end.

(** [t_zoom] from its guard on, for a drawn [zoom_factor]. *)
Definition zoom_with (img : ndarray px) (zoom_factor : float)
  : result (option (ndarray px)) :=
  let zoom_factor := if PrimFloat.ltb zoom_factor 0%float then 1%float else zoom_factor in
  let new_img := Np.full_like img (of_float (black_val tr)) in
  l ← Np.len img;
  zoom_rounds img new_img zoom_factor None None 0 (Z.to_nat l).

(** The body of [t_zoom]; [z] is the standard normal sample drawn by the
    call. *)
Definition zoom_loop (img : ndarray px) (z : float) : result (option (ndarray px)) :=
  d ← normal (zoom_factor_std_dev au) z;
  zoom_with img (PrimFloat.add 1%float d).

(** [t_zoom] as a function from the video to the video it returns. *)
Definition t_zoom (img : ndarray px) (z : float) : result (ndarray px) :=
  r ← zoom_loop img z;
  Ok (default img r).

(** [transform_values], as a function from the video to the video it
    returns. *)
Definition transform_values (img : ndarray px) (d : draws rng) : result (ndarray px) :=
  let img := if normalize_input tr then t_normalize_signed img else img in
  img ← (if gaussian_noise au then t_gaussian_noise img (g_gaussian d) else Ok img);
  img ← (if speckle au then t_speckle img (g_speckle d) else Ok img);
  img ← (if salt_and_pepper au then t_salt_and_pepper img (g_salt_and_pepper d) else Ok img);
  img ← (if translate_h au then t_translate_h img (z_translate_h d) else Ok img);
  img ← (if translate_v au then t_translate_v img (z_translate_v d) else Ok img);
  img ← (if rotate au then t_rotate img (z_rotate d) else Ok img);
  img ← (if zoom au then t_zoom img (z_zoom d) else Ok img);
  img ← (if local_blackout au
         then t_local_blackout img (z_blackout_h d) (z_blackout_w d)
                (u_blackout_h d) (u_blackout_w d)
         else Ok img);
  img ← (if local_intensity au
         then t_local_intensity img (z_intensity_h d) (z_intensity_w d)
                (u_intensity_h d) (u_intensity_w d) (z_intensity_val d)
         else Ok img);
  Ok (Np.astype float32 img).

End ValueTransforms.

(** *** The arrays as objects

    The operations above say which video an operation returns.  Whether
    the returned array is the caller's array, a view of it or a new
    array, and what the call leaves in the caller's array, is said by the
    operations below, which run on a store of array objects. *)

(** An array object owns its items, or is a view of the frames
    [lo, lo + cnt) of an array that owns its items. *)
Inductive array_obj (px : Type) : Type :=
| Buffer (a : ndarray px)
| View (base : nat) (lo cnt : Z).
Arguments Buffer {px} a.
Arguments View {px} base lo cnt.

(** A computation on the store: the store it leaves and how it ended. *)
Definition hm (px X : Type) : Type := gmap nat (array_obj px) -> gmap nat (array_obj px) * result X.

#[global] Instance hm_ret {px} : MRet (hm px) := fun X x σ => (σ, Ok x).
#[global] Instance hm_bind {px} : MBind (hm px) :=
  fun X Y f m σ =>
    match m σ with
    | (σ', Ok x) => f x σ'
    | (σ', Raise e) => (σ', Raise e)
    end.

Module Mem.
Section Store.
Context {px : Type}.

Definition lift {X} (r : result X) : hm px X := fun σ => (σ, r).

(** The items that the array object [r] shows. *)
Definition read (σ : gmap nat (array_obj px)) (r : nat) : result (ndarray px) :=
  match σ !! r with
  | Some (Buffer a) => Ok a
  | Some (View b lo cnt) =>
      match σ !! b with
      | Some (Buffer a) => Np.slice0 a lo (lo + cnt)
      | _ => Raise NoSuchArray
      end
  | None => Raise NoSuchArray
  end.

Definition load (r : nat) : hm px (ndarray px) := fun σ => (σ, read σ r).

(** A new array object. *)
Definition alloc (o : array_obj px) : hm px nat :=
  fun σ => let r := fresh (dom σ) in (<[r := o]> σ, Ok r).

Definition new_array (a : ndarray px) : hm px nat := alloc (Buffer a).

(** [a[lo:hi]]: a view of the array that owns the items. *)
Definition view_of (r : nat) (lo hi : Z) : hm px nat :=
  fun σ =>
    match σ !! r with
    | Some (Buffer a) =>
        match shape a with
        | n :: _ => let '(s, cnt) := Np.slice_bounds n lo hi in alloc (View r s cnt) σ
        | [] => (σ, Raise IndexError)
        end
    | Some (View b lo0 cnt0) =>
        let '(s, cnt) := Np.slice_bounds cnt0 lo hi in alloc (View b (lo0 + s) cnt) σ
    | None => (σ, Raise NoSuchArray)
    end.

(** Writing the items [a'] through the array object [r]: into its own
    items, or into the frames of the array it is a view of. *)
Definition store (r : nat) (a' : ndarray px) : hm px unit :=
  fun σ =>
    match σ !! r with
    | Some (Buffer _) => (<[r := Buffer a']> σ, Ok tt)
    | Some (View b lo cnt) =>
        match σ !! b with
        | Some (Buffer a) =>
            let k := Z.to_nat (Np.size_of (tail (shape a))) in
            (<[b := Buffer (mk_ndarray (shape a)
                              (take (Z.to_nat lo * k) (data a) ++ data a'
                               ++ drop (Z.to_nat (lo + cnt) * k) (data a)))]> σ, Ok tt)
        | _ => (σ, Raise NoSuchArray)
        end
    | None => (σ, Raise NoSuchArray)
    end.

(** An operation that reads the array it is given and returns a new
    array. *)
Definition fresh_from (f : ndarray px -> result (ndarray px)) (r : nat) : hm px nat :=
  a ← load r;
  b ← lift (f a);
  new_array b.

End Store.
End Mem.

(** The methods of [DataAugmentations] on the store.  A method takes the
    array object it is called with and returns the array object it
    returns; arrays that a method makes on the way and drops are left
    out of the store. *)
Module Aug.
Section Methods.
Context {px rng : Type}.
Variable uint8 : px -> px.
Variable average : list px -> px.
Variable float32 : px -> px.
Variable div255 : px -> px.
Variable signed_unit : px -> px.
Variable luminance : list px -> px.
Variable of_float : float -> px.
Variable add_float : px -> float -> px.
Variable clip : float -> float -> px -> px.
Variable resize : float -> ndarray px -> list Z -> result (ndarray px).
Variable random_noise : noise_mode -> float -> rng -> ndarray px -> result (ndarray px).
Variable cvt_gray : ndarray px -> result (ndarray px).
Variable rotate_frame : float -> float -> ndarray px -> result (ndarray px).
Variable rescale : float -> float -> ndarray px -> result (ndarray px).
Variable tr : transforms.
Variable au : augmentations.

Definition t_grayscale_custom (r : nat) : hm px nat :=
  Mem.fresh_from (t_grayscale_custom luminance) r.

Definition t_grayscale_cv2 (r : nat) : hm px nat :=
  Mem.fresh_from (t_grayscale_cv2 of_float cvt_gray) r.

Definition t_grayscale_mean (r : nat) : hm px nat :=
  Mem.fresh_from (t_grayscale_mean uint8 average) r.

Definition t_normalize (r : nat) : hm px nat :=
  Mem.fresh_from (fun img => Ok (t_normalize div255 img)) r.

Definition t_normalize_signed (r : nat) : hm px nat :=
  Mem.fresh_from (fun img => Ok (t_normalize_signed signed_unit img)) r.

Definition t_gaussian_noise (r : nat) (g : rng) : hm px nat :=
  Mem.fresh_from (fun img => t_gaussian_noise random_noise au img g) r.

Definition t_salt_and_pepper (r : nat) (g : rng) : hm px nat :=
  Mem.fresh_from (fun img => t_salt_and_pepper random_noise au img g) r.

Definition t_speckle (r : nat) (g : rng) : hm px nat :=
  Mem.fresh_from (fun img => t_speckle random_noise au img g) r.

Definition t_resize (r : nat) (target_length' target_height' target_width' : Z)
  : hm px nat :=
  Mem.fresh_from
    (fun img => t_resize uint8 resize tr img target_length' target_height' target_width') r.

(** [t_pad_size] returns the array it was given when nothing is to be
    padded. *)
Definition t_pad_size (r : nat) : hm px nat :=
  img ← Mem.load r;
  h ← Mem.lift (Np.shape_at img 1);
  grow ← Mem.lift (if h <? target_height tr then Ok true
                   else w ← Np.shape_at img 2; Ok (w <? target_width tr));
  if grow : bool then Mem.fresh_from (t_pad_size of_float tr) r else mret r.

(** So does [t_pad_length]. *)
Definition t_pad_length (r : nat) : hm px nat :=
  img ← Mem.load r;
  n ← Mem.lift (Np.shape_at img 0);
  if 0 <? target_length tr - n then Mem.fresh_from (t_pad_length of_float tr) r
  else mret r.

Definition t_loop_length (r : nat) : hm px nat :=
  Mem.fresh_from (t_loop_length uint8 tr) r.

Definition t_crop (r : nat) : hm px nat :=
  Mem.fresh_from (t_crop uint8 tr) r.

(** [t_crop_rwave] returns the array it was given, or a view of it. *)
Definition t_crop_rwave (r : nat) (rwaves : list float) (rwave_indexes : nat * nat)
    (fps : float) : hm px nat :=
  video ← Mem.load r;
  n ← Mem.lift (Np.shape_at video 0);
  if n =? target_fphb tr then mret r else
  '(start_frame, end_frame) ← Mem.lift (rwave_window tr n rwaves rwave_indexes fps);
  Mem.view_of r start_frame end_frame.

Definition t_translate_v (r : nat) (z : float) : hm px nat :=
  Mem.fresh_from (fun video => t_translate_v of_float tr au video z) r.

Definition t_translate_h (r : nat) (z : float) : hm px nat :=
  Mem.fresh_from (fun video => t_translate_h of_float tr au video z) r.

Definition t_rotate (r : nat) (z : float) : hm px nat :=
  Mem.fresh_from (fun video => t_rotate rotate_frame tr au video z) r.

(** [t_local_blackout] writes through the transposed view into the array
    it was given, and returns that array transposed back. *)
Definition t_local_blackout (r : nat) (z_h z_w : float) (u_h u_w : Z) : hm px nat :=
  video ← Mem.load r;
  written ← Mem.lift (t_local_blackout of_float tr au video z_h z_w u_h u_w);
  _ ← Mem.store r written;
  mret r.

(** [t_local_intensity] writes into the array it was given as well; what
    it returns is the clipped copy made by [np.clip]. *)
Definition t_local_intensity (r : nat) (z_h z_w : float) (u_h u_w : Z) (z_val : float)
  : hm px nat :=
  video ← Mem.load r;
  written ← Mem.lift (local_intensity_written add_float au video z_h z_w u_h u_w z_val);
  _ ← Mem.store r written;
  Mem.new_array (Np.astype (clip (black_val tr) (white_val tr)) written).

(** [t_zoom] returns the array it was given ([return img]) or the new
    video. *)
Definition t_zoom (r : nat) (z : float) : hm px nat :=
  img ← Mem.load r;
  o ← Mem.lift (zoom_loop of_float rescale tr au img z);
  match o with
  | None => mret r
  | Some new_img => Mem.new_array new_img
  end.

Definition transform_values (r : nat) (d : draws rng) : hm px nat :=
  r ← (if normalize_input tr then t_normalize_signed r else mret r);
  r ← (if gaussian_noise au then t_gaussian_noise r (g_gaussian d) else mret r);
  r ← (if speckle au then t_speckle r (g_speckle d) else mret r);
  r ← (if salt_and_pepper au then t_salt_and_pepper r (g_salt_and_pepper d) else mret r);
  r ← (if translate_h au then t_translate_h r (z_translate_h d) else mret r);
  r ← (if translate_v au then t_translate_v r (z_translate_v d) else mret r);
  r ← (if rotate au then t_rotate r (z_rotate d) else mret r);
  r ← (if zoom au then t_zoom r (z_zoom d) else mret r);
  r ← (if local_blackout au
       then t_local_blackout r (z_blackout_h d) (z_blackout_w d)
              (u_blackout_h d) (u_blackout_w d)
       else mret r);
  r ← (if local_intensity au
       then t_local_intensity r (z_intensity_h d) (z_intensity_w d)
              (u_intensity_h d) (u_intensity_w d) (z_intensity_val d)
       else mret r);
  Mem.fresh_from (fun img => Ok (Np.astype float32 img)) r.

(** [transform_size]: the grayscale and rescale lines make new arrays,
    the lines after them are the methods above. *)
Definition transform_size (r : nat) (fps hr : float) (rwaves : list float) : hm px nat :=
  img ← Mem.load r;
  '(img', curr_fphb, rwave_data) ←
    Mem.lift (rescale_stages uint8 average resize tr img fps hr rwaves);
  r ← (if grayscale tr || (rescale_fps tr || resize_frames tr || rescale_fphb tr)
       then Mem.new_array img' else mret r);
  _ ← Mem.lift (py_assert (negb (loop_length tr && crop_length tr && rwave_data_only tr)));
  r ← (if crop_sides tr || crop_length tr then t_crop r else mret r);
  r ← (if rwave_data_only tr then
         c ← Mem.lift (local "curr_fphb" curr_fphb);
         q ← Mem.lift (PyFloat.truediv (PyFloat.of_int (target_fphb tr)) c);
         d ← Mem.lift (local "rwave_indexes" rwave_data);
         t_crop_rwave r rwaves (snd d) (PrimFloat.mul fps q)
       else mret r);
  r ← (if loop_length tr then t_loop_length r else mret r);
  r ← (if pad_length tr then t_pad_length r else mret r);
  img ← Mem.load r;
  _ ← Mem.lift (shape_check tr img);
  mret r.

End Methods.
End Aug.

(** A computation leaves every array object of the store as it found
    it. *)
Definition leaves_arrays {px X} (m : hm px X) : Prop :=
  forall σ r o, σ !! r = Some o -> (m σ).1 !! r = Some o.

(** The array object [r] shows the items [a]; it owns them. *)
Definition shows {px} (σ : gmap nat (array_obj px)) (r : nat) (a : ndarray px) : Prop :=
  Mem.read σ r = Ok a.

Definition owns {px} (σ : gmap nat (array_obj px)) (r : nat) (a : ndarray px) : Prop :=
  σ !! r = Some (Buffer a).

(** The operation [op] on the store does what the function [f] on videos
    says: called with an array that is [P]-related to a video, it raises
    what [f] raises, or returns an array that is [Q]-related to the video
    that [f] returns. *)
Definition implements {px}
    (P Q : gmap nat (array_obj px) -> nat -> ndarray px -> Prop)
    (op : nat -> hm px nat) (f : ndarray px -> result (ndarray px)) : Prop :=
  forall σ r a, P σ r a ->
    match f a with
    | Ok b => exists r', (op r σ).2 = Ok r' /\ Q (op r σ).1 r' b
    | Raise e => (op r σ).2 = Raise e
    end.

(** The array object that owns the items shown by [r]. *)
Definition owner {px} (σ : gmap nat (array_obj px)) (r : nat) : nat :=
  match σ !! r with
  | Some (View b _ _) => b
  | _ => r
  end.

(** A computation changes at most the items shown by the array object
    [r]: every array object but their owner is left as it was found. *)
Definition writes_only {px X} (r : nat) (m : hm px X) : Prop :=
  forall σ r' o, r' <> owner σ r -> σ !! r' = Some o -> (m σ).1 !! r' = Some o.

(** ** utils/ddp_utils.py *)

(** The state of [torch.distributed] in the calling process: nothing
    while no process group is initialised, otherwise the group with its
    size, the rank of this process and what [all_reduce] (a sum over the
    processes) returns for a vector handed in by this process. *)
Record process_group : Type := mk_process_group {
  world_size : Z;
  group_rank : Z;
  all_reduce : list float -> list float
}.

Definition is_dist_avail_and_initialized (dist : option process_group) : bool :=
  match dist with Some _ => true | None => false end.

Definition get_rank (dist : option process_group) : Z :=
  match dist with Some g => group_rank g | None => 0 end.

Definition is_master (dist : option process_group) : bool := get_rank dist =? 0.

Module AverageMeterDDP.

Record t : Type := mk {
  n_classes : nat;
  val : list float;
  avg : list float;
  sum : list float;
  count : Z;
  step : Z
}.

Definition zeros (n : nat) : list float := replicate n 0%float.

(** [__init__] *)
Definition init (dist : option process_group) (n_classes : nat) : t :=
  mk n_classes (zeros n_classes) (zeros n_classes) (zeros n_classes) 0
     (match dist with Some g => world_size g | None => 1 end).

Definition reset (self : t) : t :=
  mk (n_classes self) (zeros (n_classes self)) (zeros (n_classes self))
     (zeros (n_classes self)) 0 (step self).

(** One round [i] of the loop of [update]. *)
Definition update_slot (self : t) (val' : list float) (i : nat) : result t :=
  v ← Np.item val' i;
  _ ← Np.item (val self) i;
  let self := mk (n_classes self) (<[i := v]> (val self)) (avg self) (sum self)
                 (count self) (step self) in
  s ← Np.item (sum self) i;
  let self := mk (n_classes self) (val self) (avg self)
                 (<[i := PrimFloat.add s v]> (sum self)) (count self) (step self) in
  s ← Np.item (sum self) i;
  _ ← Np.item (avg self) i;
  Ok (mk (n_classes self) (val self)
         (<[i := PrimFloat.div s (PyFloat.of_int (count self))]> (avg self))
         (sum self) (count self) (step self)).

(** The rounds [i, i + n) of the loop; the object is updated in place, so
    an exception leaves it as the rounds before have made it. *)
Fixpoint update_slots (self : t) (val' : list float) (i n : nat) : t * result unit :=
  match n with
  | O => (self, Ok tt)
  | S n' =>
      match update_slot self val' i with
      | Ok self' => update_slots self' val' (S i) n'
      | Raise e => (self, Raise e)
      end
  end.

(** [update]: the object after the call, and how the call ended. *)
Definition update (dist : option process_group) (self : t) (val' : list float)
  : t * result unit :=
  let val' := match dist with Some g => all_reduce g val' | None => val' end in
  let self := mk (n_classes self) (val self) (avg self) (sum self)
                 (count self + step self) (step self) in
  update_slots self val' 0 (n_classes self).

(** A sequence of [update] calls, stopped by the first exception. *)
Fixpoint updates (dist : option process_group) (self : t) (vals : list (list float))
  : t * result unit :=
  match vals with
  | [] => (self, Ok tt)
  | v :: vals' =>
      match update dist self v with
      | (self', Ok _) => updates dist self' vals'
      | (self', Raise e) => (self', Raise e)
      end
  end.

End AverageMeterDDP.

(** From the spec: the arithmetic mean of the values passed so far, as
    binary64 arithmetic computes it (the values added in call order to
    0.0, the sum divided by their number). *)
Definition arithmetic_mean (xs : list float) : float :=
  PrimFloat.div (foldl PrimFloat.add 0%float xs) (PyFloat.of_int (Z.of_nat (length xs))).

(** Slot [i] of a value vector. *)
Definition slot (i : nat) (v : list float) : float := default 0%float (v !! i).

(** [torch.utils.data.DistributedSampler], as far as its constructor goes
    with the default arguments [num_replicas=None, rank=None,
    drop_last=False]: it needs the process group for the number of
    replicas and the rank, and computes the per-process sample count. *)
Module DistributedSampler.

Record t : Type := mk {
  dataset_len : Z;
  num_replicas : Z;
  rank : Z;
  epoch : Z;
  num_samples : Z;
  total_size : Z
}.

Definition init (dist : option process_group) (dataset_len : Z) : result t :=
  match dist with
  | None => Raise RuntimeError
  | Some g =>
      if (group_rank g <? 0) || (world_size g <=? group_rank g)
      then Raise (ValueError InvalidRank)
      else
        q ← PyFloat.truediv (PyFloat.of_int dataset_len) (PyFloat.of_int (world_size g));
        n ← PyFloat.ceil q;
        Ok (mk dataset_len (world_size g) (group_rank g) 0 n (n * world_size g))
  end.

End DistributedSampler.

Module DistributedWeightedSampler.

Record t : Type := mk {
  base : DistributedSampler.t;     (* the fields of the base class *)
  replacement : bool;
  weights : list float
}.

(** [__init__] *)
Definition init (dist : option process_group) (dataset_len : Z) (replacement : bool)
  : result t :=
  b ← DistributedSampler.init dist dataset_len;
  _ ← py_assert replacement;
  Ok (mk b replacement (replicate (Z.to_nat dataset_len) 1%float)).

(** [__len__] *)
Definition len (self : t) : Z := DistributedSampler.num_samples (base self).

End DistributedWeightedSampler.

(** ** models/multi_stream.py *)

(** Tensors are followed by their shape; the fusion models only stack,
    squeeze and project. *)
Module Torch.

Definition tensor : Type := list Z.

(** [torch.stack(tensors, dim)] *)
Definition stack (tensors : list tensor) (dim : nat) : result tensor :=
  match tensors with
  | [] => Raise RuntimeError
  | t :: rest =>
      if forallb (fun t' => bool_decide (t' = t)) rest
      then if (dim <=? length t)%nat
           then Ok (take dim t ++ Z.of_nat (length tensors) :: drop dim t)
           else Raise IndexError
      else Raise RuntimeError
  end.

(** [t.squeeze()]: every axis of extent one is dropped. *)
Definition squeeze (t : tensor) : tensor := List.filter (fun n => negb (n =? 1)) t.

(** [F.relu] *)
Definition relu (t : tensor) : tensor := t.

(** A sub-module: a backbone network or [nn.Linear(in_features, out_features)]. *)
Inductive module : Type :=
| Net (f : tensor -> result tensor)
| Linear (in_features out_features : Z).

(** [m(x)] *)
Definition call (m : module) (x : tensor) : result tensor :=
  match m with
  | Net f => f x
  | Linear i o =>
      match reverse x with
      | last :: rinit => if last =? i then Ok (reverse rinit ++ [o]) else Raise RuntimeError
      | [] => Raise RuntimeError
      end
  end.

(** What an attribute or a dictionary key can be. *)
Inductive value : Type :=
| VStr (s : string)
| VInt (z : Z)
| VModule (m : module)
| VDict (d : list (string * module)).

(** Python dictionaries with string keys, in insertion order. *)
Fixpoint dict_get {V} (k : string) (d : list (string * V)) : option V :=
  match d with
  | [] => None
  | (k', v) :: d' => if bool_decide (k' = k) then Some v else dict_get k d'
  end.

Fixpoint dict_set {V} (k : string) (v : V) (d : list (string * V)) : list (string * V) :=
  match d with
  | [] => [(k, v)]
  | (k', v') :: d' => if bool_decide (k' = k) then (k, v) :: d' else (k', v') :: dict_set k v d'
  end.

(** [d[key]] on the [_modules] dictionary, whose keys are strings. *)
Definition modules_getitem (d : list (string * module)) (key : value) : result module :=
  match key with
  | VStr k => match dict_get k d with Some m => Ok m | None => Raise KeyError end
  | _ => Raise KeyError
  end.

End Torch.

Module MultiStream.
Import Torch.

Record t : Type := mk {
  endpoints : list (string * module);
  _modules : list (string * module);
  num_models : Z
}.

(** [__init__] with its keyword arguments as a list of named models;
    the names are taken to be names that [add_module] accepts. *)
Definition init (kwargs : list (string * module)) : t :=
  let endpoints := foldl (fun d '(model_name, model) => dict_set model_name model d) [] kwargs in
  let modules := foldl (fun d '(model_name, model) => dict_set model_name model d) [] kwargs in
  let num_models := Z.of_nat (length kwargs) in
  let fc_name := "Linear_layer" in
  let fc_linear := Linear num_models 1 in
  mk (dict_set fc_name fc_linear endpoints) (dict_set fc_name fc_linear modules) num_models.

(** [self.<name>]: an attribute that [__init__] has set, else a
    registered sub-module of that name ([nn.Module.__getattr__]), else an
    [AttributeError]. *)
Definition getattr (self : t) (name : string) : result value :=
  if bool_decide (name = "endpoints") then Ok (VDict (endpoints self))
  else if bool_decide (name = "num_models") then Ok (VInt (num_models self))
  else match dict_get name (_modules self) with
       | Some m => Ok (VModule m)
       | None => Raise (AttributeError name)
       end.

Definition forward (self : t) (x : list tensor) : result tensor :=
  _ ← py_assert (Z.of_nat (length x) =? num_models self);
  y ← for_each (fun '(inp, model_name) =>
                  key ← getattr self "model_name";
                  m ← modules_getitem (_modules self) key;
                  call m inp)
               (zip x (fst <$> endpoints self));
  y ← stack y 1;
  let y := squeeze y in
  key ← getattr self "fc_name";
  fc ← modules_getitem (_modules self) key;
  call fc (relu y).

End MultiStream.

Module MultiStreamShared.
Import Torch.

Record t : Type := mk {
  model_img_name : string;
  model_img : module;
  model_flow_name : string;
  model_flow : module;
  num_models : Z;
  fc_name : string;
  fc_linear : module;
  _modules : list (string * module)
}.

(** [__init__(model_img, model_flow, num_m)]; assigning a module to an
    attribute registers it under the attribute's name as well. *)
Definition init (model_img model_flow : module) (num_m : Z) : t :=
  let fc := Linear num_m 1 in
  mk "Model_img" model_img "Model_flow" model_flow num_m "Linear_layer" fc
     (dict_set "Linear_layer" fc
        (dict_set "fc_linear" fc
           (dict_set "Model_flow" model_flow
              (dict_set "model_flow" model_flow
                 (dict_set "Model_img" model_img
                    (dict_set "model_img" model_img [])))))).

Definition forward (self : t) (x : list tensor) : result tensor :=
  _ ← py_assert (Z.of_nat (length x) =? num_models self);
  y ← for_each (fun '(i, inp) =>
                  if (i mod 2 =? 0)%nat
                  then m ← modules_getitem (_modules self) (VStr (model_img_name self));
                       call m inp
                  else m ← modules_getitem (_modules self) (VStr (model_flow_name self));
                       call m inp)
               (enumerate x);
  y ← stack y 1;
  let y := squeeze y in
  fc ← modules_getitem (_modules self) (VStr (fc_name self));
  call fc (relu y).

End MultiStreamShared.

(** A backbone that maps every input to one scalar per sample of a batch
    of [batch] samples. *)
Definition scalar_backbone (batch : Z) : Torch.module :=
  Torch.Net (fun _ => Ok [batch; 1]).

(** What holds of a meter made with no process group after the calls
    [update(v)] for [v] in [vals]: slot [i] of [sum] is the running sum. *)
Definition meter_inv (n : nat) (vals : list (list float)) (self : AverageMeterDDP.t) : Prop :=
  AverageMeterDDP.n_classes self = n /\
  length (AverageMeterDDP.val self) = n /\
  length (AverageMeterDDP.avg self) = n /\
  length (AverageMeterDDP.sum self) = n /\
  AverageMeterDDP.step self = 1 /\
  AverageMeterDDP.count self = Z.of_nat (length vals) /\
  forall i, (i < n)%nat ->
    AverageMeterDDP.sum self !! i = Some (foldl PrimFloat.add 0%float (slot i <$> vals)).

(** ** Concrete instances for running the code *)

(** Integer pixels: the element operations on integer arrays, and one
    instance of the interface of [skimage.transform.resize] (it samples,
    on every resized axis, the item at the scaled-down index). *)
Module IntPixels.

Definition uint8 (z : Z) : Z := z mod 256.

Definition average (l : list Z) : Z := foldr Z.add 0 l / Z.of_nat (length l).

Definition of_float (x : float) : Z :=
  match PyFloat.to_int x with
  | Ok z => z mod 256
  | Raise _ => 0
  end.

Fixpoint resample (ish osh : list Z) (d : list Z) : list Z :=
  match ish, osh with
  | n :: ish', m :: osh' =>
      let k := Z.to_nat (Np.size_of ish') in
      concat ((fun i => resample ish' osh' (take k (drop (Z.to_nat (i * n / m) * k) d)))
                <$> seqZ 0 m)
  | _, _ => d
  end.

Definition nearest_resize (cval : float) (a : ndarray Z) (osh : list Z)
  : result (ndarray Z) :=
  if forallb (fun n => 0 <? n) (shape a) && forallb (fun n => 0 <=? n) osh
     && (length osh =? 3)%nat && (3 <=? length (shape a))%nat
     && (length (shape a) <=? 4)%nat
  then Ok (mk_ndarray (osh ++ drop 3 (shape a)) (resample (shape a) osh (data a)))
  else Raise LibraryError.

(** A video of [l] frames of one pixel and one channel, frame [i]
    holding [i]. *)
Definition ramp (l : Z) : ndarray Z := mk_ndarray [l; 1; 1; 1] (seqZ 0 l).

(** [round(x)] for a non-negative float, halves upwards. *)
Definition round_half_up (x : float) : result Z :=
  PyFloat.to_int (PrimFloat.add x 0.5%float).

(** One instance of the interface of [skimage.transform.rescale] on a
    frame of shape [(h, w, c)]: the new height and width are the old ones
    times [scale], rounded, and the items are sampled as by
    [nearest_resize]. *)
Definition nearest_rescale (cval scale : float) (frame : ndarray Z) : result (ndarray Z) :=
  match shape frame with
  | [h; w; c] =>
      nh ← round_half_up (PrimFloat.mul scale (PyFloat.of_int h));
      nw ← round_half_up (PrimFloat.mul scale (PyFloat.of_int w));
      Ok (mk_ndarray [nh; nw; c] (resample [h; w; c] [nh; nw] (data frame)))
  | _ => Raise LibraryError
  end.

(** Another instance, for releases of the library that give the rescaled
    frame at least one row and one column
    ([np.maximum(np.round(scale * shape), 1)]). *)
Definition nearest_rescale_min1 (cval scale : float) (frame : ndarray Z)
  : result (ndarray Z) :=
  match shape frame with
  | [h; w; c] =>
      nh ← round_half_up (PrimFloat.mul scale (PyFloat.of_int h));
      nw ← round_half_up (PrimFloat.mul scale (PyFloat.of_int w));
      let nh := Z.max nh 1 in
      let nw := Z.max nw 1 in
      Ok (mk_ndarray [nh; nw; c] (resample [h; w; c] [nh; nw] (data frame)))
  | _ => Raise LibraryError
  end.

(** One frame of two rows, two columns and one channel. *)
Definition square : ndarray Z := mk_ndarray [1; 2; 2; 1] [1; 2; 3; 4].

End IntPixels.

(** Settings with every flag off and every target [n]. *)
Definition plain_transforms (n : Z) : transforms :=
  mk_transforms false false false false n false n false 1 1 false false false false n.

(** [plain_transforms] with [crop_length] on. *)
Definition crop_transforms (n : Z) : transforms :=
  mk_transforms false false false false n false n false 1 1 false true false false n.

(** The settings [tr] with the [crop_sides] flag set to [b]. *)
Definition with_crop_sides (b : bool) (tr : transforms) : transforms :=
  mk_transforms (normalize_input tr) (grayscale tr) (rwave_data_only tr)
    (rescale_fps tr) (target_fps tr) (rescale_fphb tr) (target_fphb tr)
    (resize_frames tr) (target_height tr) (target_width tr)
    b (crop_length tr) (loop_length tr) (pad_length tr) (target_length tr).

(** [plain_transforms] with a frames-per-heartbeat target of its own. *)
Definition fphb_transforms (fphb n : Z) : transforms :=
  mk_transforms false false false false n false fphb false 1 1 false false false false n.

(** A video of rank four with [c] channels. *)
Definition has_channels {A} (a : ndarray A) (c : Z) : Prop :=
  exists l h w, shape a = [l; h; w; c].

(** What the documentation of [skimage.transform.resize] says of the
    shape of its result when a video of rank four is resized to a
    three-item [output_shape]: the channel axis is kept. *)
Definition keeps_channel_axis {A}
    (resize : float -> ndarray A -> list Z -> result (ndarray A)) : Prop :=
  forall cval a osh r,
    resize cval a osh = Ok r -> length osh = 3%nat -> length (shape a) = 4%nat ->
    shape r = osh ++ drop 3 (shape a).

(** Both rescale flags on, everything else off, every target [n]. *)
Definition both_rescales_transforms (n : Z) : transforms :=
  mk_transforms false false false true n true n false 1 1 false false false false n.

(** Rescale to [fphb] frames per heartbeat measured on the r-waves, then
    crop to [n] frames; no looping. *)
Definition rwave_crop_transforms (fphb n : Z) : transforms :=
  mk_transforms false false true false n true fphb false 1 1 false true false false n.

(** [rwave_crop_transforms] with [loop_length] on as well. *)
Definition rwave_crop_loop_transforms (fphb n : Z) : transforms :=
  mk_transforms false false true false n true fphb false 1 1 false true true false n.

(** [plain_transforms] with [grayscale] on. *)
Definition grayscale_transforms (n : Z) : transforms :=
  mk_transforms false true false false n false n false 1 1 false false false false n.

(** Augmentation settings with every flag off and every parameter [p]. *)
Definition plain_augmentations (p : float) : augmentations :=
  mk_augmentations false p false p false p false p false p false p false p
    false p p false p p p.

(** [plain_augmentations] with [local_blackout] on. *)
Definition blackout_augmentations (p : float) : augmentations :=
  mk_augmentations false p false p false p false p false p false p false p
    true p p false p p p.

(** A store that holds the caller's video as its only array. *)
Definition callers_store (video : ndarray Z) : gmap nat (array_obj Z) :=
  {[ 0%nat := Buffer video ]}.


(** ** Further states and inputs used by the properties *)

(** What holds of a meter whose [step] is [k] after the calls [update(v)]
    that stored the vectors [vals] (the vectors as [update] reads them,
    that is, after the all-reduce when a process group is active). *)
Definition meter_after (n : nat) (k : Z) (vals : list (list float))
    (self : AverageMeterDDP.t) : Prop :=
  AverageMeterDDP.n_classes self = n /\
  length (AverageMeterDDP.val self) = n /\
  length (AverageMeterDDP.avg self) = n /\
  length (AverageMeterDDP.sum self) = n /\
  AverageMeterDDP.step self = k /\
  AverageMeterDDP.count self = k * Z.of_nat (length vals) /\
  forall i, (i < n)%nat ->
    AverageMeterDDP.sum self !! i = Some (foldl PrimFloat.add 0%float (slot i <$> vals)).

(** A process group of [k] processes that all pass the same vector: the
    all-reduce multiplies every slot by [k]. *)
Definition uniform_group (k : Z) : process_group :=
  mk_process_group k 0 (fun v => (fun x => PrimFloat.mul (PyFloat.of_int k) x) <$> v).


(** The r-wave crop switched on without the rescale to frames per
    heartbeat; everything else off, every target [n]. *)
Definition rwave_only_transforms (n : Z) : transforms :=
  mk_transforms false false true false n false n false 1 1 false false false false n.

(** Resize, crop and loop to [n] frames of [h] rows and [w] columns: the
    length and size options of the default configuration, without the
    rescale to frames per heartbeat. *)
Definition resize_crop_loop_transforms (n h w : Z) : transforms :=
  mk_transforms false false false false n false n true h w false true true false n.


(** The interval in seconds between the r-waves [k] and [k + 1], as the
    scan of [calc_rwave_data] computes it. *)
Definition rwave_interval (rwaves : list float) (k : nat) : option float :=
  a ← rwaves !! k;
  b ← rwaves !! S k;
  Some (PrimFloat.div (PrimFloat.sub b a) 1000%float).


(** ** npy_dataset.py *)

(** [os.path.join(a, b)] of [posixpath]: a second component that starts
    with the separator replaces the first; else the two are put
    together, with a separator unless the first is empty or ends with
    one. *)
Module OsPath.

Fixpoint ends_with_sep (s : string) : bool :=
  match s with
  | EmptyString => false
  | String _ EmptyString => String.eqb s "/"
  | String _ s' => ends_with_sep s'
  end.

Definition join (a b : string) : string :=
  if String.prefix "/" b then b
  else if String.eqb a EmptyString || ends_with_sep a then String.append a b
  else String.append a (String.append "/" b).

End OsPath.

Module NPYDataset.

(** [s[a:b]] on a string. *)
Definition str_slice (s : string) (a b : Z) : string :=
  let '(lo, cnt) := Np.slice_bounds (Z.of_nat (String.length s)) a b in
  String.substring (Z.to_nat lo) (Z.to_nat cnt) s.

(** [load_filenames(path, uid_len)], given what [os.walk(path)] yields:
    the directories in walk order, each with the names of its files. *)
Definition load_filenames (walk : list (string * list string)) (uid_len : Z)
  : gmap string string :=
  foldl (fun files '(dirName, fileList) =>
           foldl (fun files filename =>
                    <[str_slice filename 0 uid_len := OsPath.join dirName filename]> files)
                 files fileList)
        ∅ walk.

End NPYDataset.

(** The files of a walk in the order in which the loops of
    [load_filenames] meet them, each with its directory. *)
Definition walked_files (walk : list (string * list string)) : list (string * string) :=
  flat_map (fun '(dirName, fileList) => (fun filename => (dirName, filename)) <$> fileList) walk.

(** ** [DistributedWeightedSampler.__iter__] *)

Module WeightedSampling.
Section Iter.

(** [torch.multinomial(weights, num_samples, replacement, generator=g)]
    with [g] seeded by the epoch: the positions drawn. *)
Variable multinomial : list float -> Z -> bool -> Z -> result (list Z).

(** [seq[i]] for a Python int [i] that may be negative. *)
Definition py_item {A} (l : list A) (i : Z) : result A :=
  let n := Z.of_nat (length l) in
  if (i <? - n) || (n <=? i) then Raise IndexError
  else Np.item l (Z.to_nat (if i <? 0 then i + n else i)).

(** [__iter__], given the indices that the iterator of the base class
    yields; the result is the list that the returned iterator runs
    over. *)
Definition iter (self : DistributedWeightedSampler.t) (base_indices : list Z)
  : result (list Z) :=
  weights ← for_each (py_item (DistributedWeightedSampler.weights self)) base_indices;
  weight_indices ←
    multinomial weights
      (DistributedSampler.num_samples (DistributedWeightedSampler.base self))
      (DistributedWeightedSampler.replacement self)
      (DistributedSampler.epoch (DistributedWeightedSampler.base self));
  for_each (py_item base_indices) weight_indices.

End Iter.
End WeightedSampling.


(** Augmentation settings with the two translations, the zoom and the
    local blackout on, and every parameter [p]. *)
Definition geometric_augmentations (p : float) : augmentations :=
  mk_augmentations false p false p false p true p true p false p true p
    true p p false p p p.


(** Three frames of two rows, two columns and one channel, holding the
    numbers 1 to 12. *)
Definition three_squares : ndarray Z :=
  mk_ndarray [3; 2; 2; 1] [1; 2; 3; 4; 5; 6; 7; 8; 9; 10; 11; 12].

(** * Properties *)

(** ** Array lemmas *)

Section ArrayFacts.
Context {A : Type}.
Implicit Types (d : list A) (k n : nat).

Lemma rows_length k n d : length (Np.rows k n d) = n.
Proof. revert d; induction n as [|n IH]; intros d; simpl; [done|]. by rewrite IH. Qed.

Lemma rows_row_length k n d :
  (n * k <= length d)%nat -> Forall (fun r => length r = k) (Np.rows k n d).
Proof.
  revert d; induction n as [|n IH]; intros d Hd; simpl; [constructor|].
  constructor.
  - rewrite length_take. lia.
  - apply IH. rewrite length_drop. lia.
Qed.

Lemma concat_rows k n d : concat (Np.rows k n d) = take (n * k) d.
Proof.
  revert d; induction n as [|n IH]; intros d; simpl; [done|].
  rewrite IH. by rewrite <- take_take_drop.
Qed.

Lemma drop_rows k n lo d :
  drop lo (Np.rows k n d) = Np.rows k (n - lo) (drop (lo * k) d).
Proof.
  revert n d; induction lo as [|lo IH]; intros n d; simpl.
  - by rewrite Nat.sub_0_r.
  - destruct n as [|n]; simpl; [done|].
    rewrite IH. by rewrite drop_drop.
Qed.

Lemma take_rows k n c d : take c (Np.rows k n d) = Np.rows k (c `min` n) d.
Proof.
  revert c d; induction n as [|n IH]; intros c d; simpl.
  - rewrite Nat.min_0_r. by destruct c.
  - destruct c as [|c]; simpl; [done|]. by rewrite IH.
Qed.

Lemma imap_same {B} (l : list B) : imap (fun _ r => r) l = l.
Proof. rewrite <- (list_fmap_id l) at 2. apply (imap_const id). Qed.

Lemma fmap_id_on (f : list A -> list A) (l : list (list A)) :
  Forall (fun r => f r = r) l -> f <$> l = l.
Proof. induction 1; csimpl; congruence. Qed.

End ArrayFacts.

Section SlicingFacts.
Context {A : Type}.
Implicit Types (d : list A) (sh : list Z).

Lemma slice_bounds_range n a b lo cnt :
  0 <= n -> Np.slice_bounds n a b = (lo, cnt) ->
  0 <= lo /\ 0 <= cnt /\ lo + cnt <= n.
Proof.
  unfold Np.slice_bounds, Np.slice_index. intros Hn [= <- <-].
  destruct (a <? 0), (b <? 0); lia.
Qed.

Lemma slice_bounds_inside n a b :
  0 <= a -> a <= b -> b <= n -> Np.slice_bounds n a b = (a, b - a).
Proof.
  unfold Np.slice_bounds, Np.slice_index. intros Ha Hab Hb.
  destruct (Z.ltb_spec a 0), (Z.ltb_spec b 0); try lia. f_equal; lia.
Qed.

Lemma size_of_nonneg sh : Forall (fun n => 0 <= n) sh -> 0 <= Np.size_of sh.
Proof. induction 1; simpl; lia. Qed.

Lemma getitem_whole sh d :
  Forall (fun n => 0 <= n) sh ->
  length d = Z.to_nat (Np.size_of sh) ->
  Np.getitem sh (Np.whole sh) d = d.
Proof.
  intros Hsh; revert d; induction Hsh as [|n sh Hn Hsh IH]; intros d Hd; [done|].
  pose proof (size_of_nonneg _ Hsh) as Hs.
  simpl in Hd. rewrite Z2Nat.inj_mul in Hd by lia.
  cbn [Np.whole fmap list_fmap Np.getitem].
  rewrite (slice_bounds_inside n 0 n) by lia.
  rewrite drop_0, Z.sub_0_r.
  rewrite take_ge by (rewrite rows_length; lia).
  rewrite fmap_id_on.
  - rewrite concat_rows. apply take_ge. lia.
  - eapply Forall_impl; [apply rows_row_length; lia|].
    intros r Hr. apply IH. by rewrite Hr.
Qed.

Lemma getitem_axis0 n sh a b d lo cnt :
  Forall (fun n => 0 <= n) (n :: sh) ->
  length d = Z.to_nat (Np.size_of (n :: sh)) ->
  Np.slice_bounds n a b = (lo, cnt) ->
  Np.getitem (n :: sh) ((a, b) :: Np.whole sh) d =
  take (Z.to_nat cnt * Z.to_nat (Np.size_of sh))
       (drop (Z.to_nat lo * Z.to_nat (Np.size_of sh)) d).
Proof.
  intros Hall Hd Hb. inversion Hall as [|? ? Hn Hsh]; subst.
  pose proof (size_of_nonneg _ Hsh) as Hs.
  pose proof (slice_bounds_range _ _ _ _ _ Hn Hb) as (Hlo & Hcnt & Hle).
  simpl in Hd. rewrite Z2Nat.inj_mul in Hd by lia.
  cbn [Np.getitem]. rewrite Hb.
  set (k := Z.to_nat (Np.size_of sh)) in *.
  rewrite drop_rows, take_rows.
  replace (Z.to_nat cnt `min` (Z.to_nat n - Z.to_nat lo))%nat with (Z.to_nat cnt) by lia.
  rewrite fmap_id_on.
  - apply concat_rows.
  - eapply Forall_impl.
    + apply rows_row_length. rewrite length_drop.
      assert (Z.to_nat cnt * k + Z.to_nat lo * k <= Z.to_nat n * k)%nat; [|lia].
      rewrite <- Nat.mul_add_distr_r. apply Nat.mul_le_mono_r. lia.
    + intros r Hr. apply getitem_whole; [done|]. by rewrite Hr.
Qed.

End SlicingFacts.

(** ** [t_crop] *)

Section CropFacts.
Context {px : Type}.
Variable uint8 : px -> px.
Variable tr : transforms.
Implicit Types (img : ndarray px).

(** On a well-formed video, cropping the leading axis only is the slice
    [ar[before : l - after]]. *)
Lemma crop_leading_axis img l h w c x y :
  Np.wf img -> shape img = [l; h; w; c] ->
  crop img [(x, y); (0, 0); (0, 0); (0, 0)] = Np.slice0 img x (l - y).
Proof.
  intros [Hnn Hlen] Hsh. unfold crop, Np.slices, Np.slice0.
  rewrite Hsh in *. cbn [length zip_with].
  rewrite !decide_True by (simpl; lia).
  rewrite !Z.sub_0_r.
  destruct (Np.slice_bounds l x (l - y)) as [lo cnt] eqn:Hb.
  f_equal. f_equal.
  - inversion Hnn as [|? ? _ Hnn1]; inversion Hnn1 as [|? ? Hh Hnn2];
      inversion Hnn2 as [|? ? Hw Hnn3]; inversion Hnn3 as [|? ? Hc _]; subst.
    cbn [Np.getitem_shape]. rewrite Hb.
    rewrite !slice_bounds_inside by lia. simpl. by rewrite !Z.sub_0_r.
  - by apply (getitem_axis0 l [h; w; c] x (l - y) (data img) lo cnt).
Qed.

Lemma t_crop_unfold img l h w c :
  Np.wf img -> shape img = [l; h; w; c] ->
  t_crop uint8 tr img =
  r ← Np.slice0 img 0 (if crop_length tr && (target_length tr <? l)
                        then target_length tr else l);
  Ok (Np.astype uint8 r).
Proof.
  intros Hwf Hsh. unfold t_crop, Np.shape_at. rewrite Hsh. simpl.
  destruct (crop_length tr); simpl.
  - destruct (target_length tr <? l); simpl;
      rewrite (crop_leading_axis img l h w c) by done; do 2 f_equal; lia.
  - rewrite (crop_leading_axis img l h w c) by done. do 2 f_equal; lia.
Qed.

Lemma slice0_whole img l sh :
  Np.wf img -> shape img = l :: sh -> Np.slice0 img 0 l = Ok img.
Proof.
  intros [Hnn Hlen] Hsh. unfold Np.slice0. rewrite Hsh in *.
  inversion Hnn as [|? ? Hl Hrest]; subst.
  pose proof (size_of_nonneg _ Hrest).
  rewrite slice_bounds_inside by lia. rewrite Z.sub_0_r.
  change (Z.to_nat 0 * Z.to_nat (Np.size_of sh))%nat with 0%nat.
  rewrite drop_0, take_ge.
  - destruct img; simpl in *; by subst.
  - rewrite Hlen. simpl. rewrite Z2Nat.inj_mul by lia. lia.
Qed.

(** C5 (as amended): with [crop_length] on, [t_crop] applied to a video of
    [l] frames, [l] above the target length [T >= 0], removes the [l - T]
    excess frames from the end: the result is the first [T] frames of the
    input, cast to 8-bit unsigned integers. *)
Theorem t_crop_keeps_leading_frames img l h w c :
  Np.wf img -> shape img = [l; h; w; c] ->
  crop_length tr = true -> 0 <= target_length tr < l ->
  t_crop uint8 tr img =
  Ok (mk_ndarray [target_length tr; h; w; c]
        (uint8 <$> take (Z.to_nat (target_length tr * Np.size_of [h; w; c])) (data img))).
Proof.
  intros Hwf Hsh Hcl HT. rewrite (t_crop_unfold img l h w c) by done.
  rewrite Hcl. replace (target_length tr <? l) with true by (symmetry; apply Z.ltb_lt; lia).
  destruct Hwf as [Hnn Hlen]. unfold Np.slice0. rewrite Hsh in *.
  inversion Hnn as [|? ? Hl Hrest]; subst.
  pose proof (size_of_nonneg _ Hrest).
  cbn [andb]. rewrite slice_bounds_inside by lia. rewrite Z.sub_0_r.
  cbn [mbind result_bind]. unfold Np.astype. cbn [shape data].
  change (Z.to_nat 0 * Z.to_nat (Np.size_of [h; w; c]))%nat with 0%nat.
  rewrite drop_0, Z2Nat.inj_mul by lia. done.
Qed.

(** C10: without [crop_length], [t_crop] returns the input unchanged apart
    from the cast to 8-bit unsigned integers; [t_crop] does not read
    [crop_sides] and keeps height, width and channels whatever the
    settings; in [transform_size] the only effect of [crop_sides] is that
    the crop line calls [t_crop], that is, applies that cast. *)
Theorem t_crop_without_crop_length img l h w c :
  Np.wf img -> shape img = [l; h; w; c] ->
  (crop_length tr = false -> t_crop uint8 tr img = Ok (Np.astype uint8 img)) /\
  (forall b, t_crop uint8 (with_crop_sides b tr) img = t_crop uint8 tr img) /\
  (forall r, t_crop uint8 tr img = Ok r -> exists l', shape r = [l'; h; w; c]) /\
  (crop_length tr = false ->
   forall of_float curr_fphb rwave_data fps rwaves,
     length_stages uint8 of_float (with_crop_sides true tr) img curr_fphb rwave_data fps rwaves =
     length_stages uint8 of_float (with_crop_sides false tr) (Np.astype uint8 img)
       curr_fphb rwave_data fps rwaves).
Proof.
  intros Hwf Hsh. split; [|split; [|split]].
  - intros Hcl. rewrite (t_crop_unfold img l h w c) by done.
    rewrite Hcl. cbn [andb]. by rewrite (slice0_whole img l [h; w; c]).
  - intros b. reflexivity.
  - intros r. rewrite (t_crop_unfold img l h w c) by done.
    unfold Np.slice0. rewrite Hsh.
    destruct (Np.slice_bounds _ _ _) as [lo cnt]. intros [= <-]. by exists cnt.
  - intros Hcl of_float curr_fphb rwave_data fps rwaves.
    unfold length_stages. cbn [with_crop_sides crop_sides crop_length orb].
    rewrite Hcl. cbn [orb].
    replace (t_crop uint8 (with_crop_sides true tr) img) with (t_crop uint8 tr img) by reflexivity.
    rewrite (t_crop_unfold img l h w c) by done.
    rewrite Hcl. cbn [andb]. by rewrite (slice0_whole img l [h; w; c]).
Qed.

End CropFacts.

Lemma ramp_wf l : 0 <= l -> Np.wf (IntPixels.ramp l).
Proof.
  intros Hl. split; simpl.
  - repeat constructor; lia.
  - rewrite length_seqZ. lia.
Qed.

Lemma t_crop_keeps_leading_frames_witness :
  t_crop IntPixels.uint8 (crop_transforms 2) (IntPixels.ramp 3) =
  Ok (mk_ndarray [2; 1; 1; 1] [0; 1]).
Proof.
  apply (t_crop_keeps_leading_frames IntPixels.uint8 (crop_transforms 2)
           (IntPixels.ramp 3) 3 1 1 1).
  - apply ramp_wf. lia.
  - reflexivity.
  - reflexivity.
  - simpl. lia.
Defined.

(** C5 as stated fails: on the three frames [0; 1; 2] with target length
    two, [t_crop] does not return the last two frames [1; 2] (it returns
    [0; 1]). *)
Lemma t_crop_last_frames_counterexample :
  ~ (exists last,
       Np.slice0 (IntPixels.ramp 3) (3 - 2) 3 = Ok last /\
       t_crop IntPixels.uint8 (crop_transforms 2) (IntPixels.ramp 3) =
       Ok (Np.astype IntPixels.uint8 last)).
Proof.
  intros (last & Hlast & Hcrop).
  vm_compute in Hlast. injection Hlast as <-. vm_compute in Hcrop. discriminate.
Qed.

Lemma t_crop_without_crop_length_witness :
  t_crop IntPixels.uint8 (plain_transforms 2) (IntPixels.ramp 3) =
  Ok (Np.astype IntPixels.uint8 (IntPixels.ramp 3)).
Proof.
  refine (proj1 (t_crop_without_crop_length IntPixels.uint8 (plain_transforms 2)
                   (IntPixels.ramp 3) 3 1 1 1 _ _) _).
  - apply ramp_wf. lia.
  - reflexivity.
  - reflexivity.
Defined.

(** ** [t_crop_rwave] *)

Section RwaveCropFacts.
Context {px : Type}.
Variable tr : transforms.
Implicit Types (video : ndarray px).

(** C3 (as amended): [t_crop_rwave] makes one one-frame correction, it
    does not loop.  A video that has [target_fphb] frames already is
    returned as it is.  Otherwise let [s, e) be the frame window computed
    from the two timestamps, moved back by one frame when [e] lies beyond
    the video.  If the window lies inside the video, its length differs
    from [target_fphb > 0] by at most one, then either the window is one
    frame short and spans the video from frame 0 to its end, and "Cannot
    extend crop" is raised, or the result is a window of exactly
    [target_fphb] frames of the video. *)
Theorem t_crop_rwave_one_frame_correction video n sh rwaves i0 i1 fps r0 r1 s0 e0 s e :
  shape video = n :: sh ->
  (n = target_fphb tr -> t_crop_rwave tr video rwaves (i0, i1) fps = Ok video) /\
  (n <> target_fphb tr ->
   0 < target_fphb tr ->
   rwaves !! i0 = Some r0 -> rwaves !! i1 = Some r1 ->
   PyFloat.to_int (PrimFloat.mul (PrimFloat.div r0 1000%float) fps) = Ok s0 ->
   PyFloat.to_int (PrimFloat.mul (PrimFloat.div r1 1000%float) fps) = Ok e0 ->
   s = (if n <? e0 then s0 - 1 else s0) ->
   e = (if n <? e0 then e0 - 1 else e0) ->
   0 <= s -> e <= n -> target_fphb tr - 1 <= e - s <= target_fphb tr + 1 ->
   if decide (e - s = target_fphb tr - 1 /\ s = 0 /\ e = n)
   then t_crop_rwave tr video rwaves (i0, i1) fps = Raise (ValueError CannotExtendCrop)
   else exists lo,
       s - 1 <= lo <= s + 1 /\ 0 <= lo /\ lo + target_fphb tr <= n /\
       t_crop_rwave tr video rwaves (i0, i1) fps =
       Ok (mk_ndarray (target_fphb tr :: sh)
             (take (Z.to_nat (target_fphb tr) * Z.to_nat (Np.size_of sh))
                (drop (Z.to_nat lo * Z.to_nat (Np.size_of sh)) (data video))))).
Proof.
  intros Hsh. split.
  - intros ->. unfold t_crop_rwave, Np.shape_at. rewrite Hsh. simpl.
    by rewrite Z.eqb_refl.
  - intros Hne Hpos Hr0 Hr1 Hs0 He0 Hs He Hs_lo He_hi Hlen.
    unfold t_crop_rwave, rwave_window, Np.shape_at, Np.item. rewrite Hsh. simpl.
    replace (n =? target_fphb tr) with false by (symmetry; apply Z.eqb_neq; lia).
    rewrite Hr0. simpl. rewrite Hs0. simpl. rewrite Hr1. simpl. rewrite He0. simpl.
    assert (Hwin : (if n <? e0 then (s0 - 1, e0 - 1) else (s0, e0)) = (s, e))
      by (subst s e; by destruct (n <? e0)).
    rewrite Hwin. clear Hwin Hs He.
    unfold Np.slice0. rewrite Hsh.
    destruct (decide (e - s = target_fphb tr - 1 /\ s = 0 /\ e = n)) as [(Hshort & -> & ->)|Hroom].
    + replace (n - 0 <? target_fphb tr) with true by (symmetry; apply Z.ltb_lt; lia).
      by rewrite !Z.ltb_irrefl.
    + destruct (Z.ltb_spec (e - s) (target_fphb tr)) as [Hlt|Hge].
      * destruct (Z.ltb_spec e n) as [Hen|Hen].
        -- exists s. cbn [mbind result_bind]. rewrite slice_bounds_inside by lia.
           replace (e + 1 - s) with (target_fphb tr) by lia.
           split; [lia|]. split; [lia|]. split; [lia|]. done.
        -- destruct (Z.ltb_spec 0 s) as [Hs|Hs]; [|lia].
           exists (s - 1). cbn [mbind result_bind]. rewrite slice_bounds_inside by lia.
           replace (e - (s - 1)) with (target_fphb tr) by lia.
           split; [lia|]. split; [lia|]. split; [lia|]. done.
      * destruct (Z.ltb_spec (target_fphb tr) (e - s)) as [Hgt|Hle].
        -- destruct (Z.ltb_spec s (e - 1)) as [Hse|Hse]; [|lia].
           exists (s + 1). cbn [mbind result_bind]. rewrite slice_bounds_inside by lia.
           replace (e - (s + 1)) with (target_fphb tr) by lia.
           split; [lia|]. split; [lia|]. split; [lia|]. done.
        -- exists s. cbn [mbind result_bind]. rewrite slice_bounds_inside by lia.
           replace (e - s) with (target_fphb tr) by lia.
           split; [lia|]. split; [lia|]. split; [lia|]. done.
Qed.

End RwaveCropFacts.

(** C3 as stated fails: twenty frames, timestamps 0 ms and 200 ms at
    10 fps give the window [0, 2); with [target_fphb = 10] the single
    correction extends it to [0, 3), and three frames are returned
    without any error. *)
Lemma t_crop_rwave_exact_window_counterexample :
  ~ ((exists r, t_crop_rwave (fphb_transforms 10 10) (IntPixels.ramp 20)
                  [0%float; 200%float] (0%nat, 1%nat) 10%float = Ok r /\
                Np.len r = Ok 10) \/
     t_crop_rwave (fphb_transforms 10 10) (IntPixels.ramp 20)
       [0%float; 200%float] (0%nat, 1%nat) 10%float = Raise (ValueError CannotExtendCrop)).
Proof.
  intros [(r & Hr & Hlen)|Herr].
  - vm_compute in Hr. injection Hr as <-. vm_compute in Hlen. discriminate.
  - vm_compute in Herr. discriminate.
Qed.

Lemma t_crop_rwave_one_frame_correction_witness :
  exists lo,
    0 - 1 <= lo <= 0 + 1 /\ 0 <= lo /\ lo + 10 <= 20 /\
    t_crop_rwave (fphb_transforms 10 10) (IntPixels.ramp 20)
      [0%float; 900%float] (0%nat, 1%nat) 10%float =
    Ok (mk_ndarray [10; 1; 1; 1]
          (take (Z.to_nat 10 * Z.to_nat (Np.size_of [1; 1; 1]))
             (drop (Z.to_nat lo * Z.to_nat (Np.size_of [1; 1; 1]))
                (data (IntPixels.ramp 20))))).
Proof.
  pose proof (proj2 (t_crop_rwave_one_frame_correction (fphb_transforms 10 10)
                (IntPixels.ramp 20) 20 [1; 1; 1] [0%float; 900%float] 0 1 10%float
                0%float 900%float 0 9 0 9 eq_refl)) as H.
  assert (Hne : 20 <> target_fphb (fphb_transforms 10 10)) by (simpl; lia).
  assert (Hpos : 0 < target_fphb (fphb_transforms 10 10)) by (simpl; lia).
  assert (Hlo : 0 <= 0) by lia.
  assert (Hhi : 9 <= 20) by lia.
  assert (Hlen : target_fphb (fphb_transforms 10 10) - 1 <= 9 - 0
                 <= target_fphb (fphb_transforms 10 10) + 1) by (simpl; lia).
  specialize (H Hne Hpos eq_refl eq_refl eq_refl eq_refl eq_refl eq_refl Hlo Hhi Hlen).
  destruct (decide _) as [(_ & _ & Hn)|_] in H; [discriminate Hn|].
  exact H.
Defined.

(** ** [transform_size] *)

Lemma bind_ok {A B} (m : result A) (f : A -> result B) (b : B) :
  m ≫= f = Ok b -> exists a, m = Ok a /\ f a = Ok b.
Proof. destruct m as [a|e]; [by exists a|discriminate]. Qed.

Ltac bind_inv H :=
  let a := fresh "a" in
  let Ha := fresh "Ha" in
  apply bind_ok in H as (a & Ha & H).

Section SizePipelineFacts.
Context {px : Type}.
Variable uint8 : px -> px.
Variable average : list px -> px.
Variable of_float : float -> px.
Variable resize : float -> ndarray px -> list Z -> result (ndarray px).
Variable tr : transforms.
Hypothesis resize_shape : keeps_channel_axis resize.
Implicit Types (img r : ndarray px).

Lemma t_resize_channels img c tl th tw r :
  has_channels img c -> t_resize uint8 resize tr img tl th tw = Ok r -> has_channels r c.
Proof.
  intros (l & h & w & Hsh) H. unfold t_resize in H. bind_inv H.
  injection H as <-.
  assert (Hrank : length (shape img) = 4%nat) by (by rewrite Hsh).
  pose proof (resize_shape _ _ _ _ Ha eq_refl Hrank) as Hr.
  rewrite Hsh in Hr. simpl in Hr. by exists tl, th, tw.
Qed.

Lemma t_crop_channels img c r :
  has_channels img c -> 0 <= c -> t_crop uint8 tr img = Ok r -> has_channels r c.
Proof.
  intros (l & h & w & Hsh) Hc H. unfold t_crop in H.
  bind_inv H. bind_inv H. bind_inv H. injection H as <-.
  assert (Hcs : exists y, a0 = [(0, y); (0, 0); (0, 0); (0, 0)]).
  { destruct a; [|injection Ha0 as <-; by exists 0].
    bind_inv Ha0. injection Ha0 as <-. by eexists. }
  destruct Hcs as [y ->].
  unfold crop, Np.slices in Ha1. rewrite Hsh in Ha1. cbn [length zip_with] in Ha1.
  rewrite !decide_True in Ha1 by lia.
  injection Ha1 as <-. unfold has_channels. cbn [Np.astype shape Np.getitem_shape].
  assert (Hlast : Np.slice_bounds c 0 (c - 0) = (0, c - 0 - 0))
    by (apply slice_bounds_inside; lia).
  unfold Np.slice_bounds in Hlast. injection Hlast as _ ->.
  rewrite !Z.sub_0_r. by eexists _, _, _.
Qed.

Lemma slice0_channels img c lo hi r :
  has_channels img c -> Np.slice0 img lo hi = Ok r -> has_channels r c.
Proof.
  intros (l & h & w & Hsh) H. unfold Np.slice0 in H. rewrite Hsh in H.
  destruct (Np.slice_bounds l lo hi) as [s cnt]. injection H as <-. by exists cnt, h, w.
Qed.

Lemma t_crop_rwave_channels img c rwaves idx fps r :
  has_channels img c -> t_crop_rwave tr img rwaves idx fps = Ok r -> has_channels r c.
Proof.
  intros Hch H. unfold t_crop_rwave in H. bind_inv H.
  destruct (a =? target_fphb tr); [by injection H as <-|].
  bind_inv H. destruct a0 as [s' e']. exact (slice0_channels _ _ _ _ _ Hch H).
Qed.

Lemma loop_rounds_channels fuel org img c r :
  has_channels org c -> has_channels img c ->
  loop_rounds tr fuel org img = Ok r -> has_channels r c.
Proof.
  intros Horg. revert img. induction fuel as [|fuel IH]; intros img Himg H; simpl in H.
  - bind_inv H. destruct (a <? target_length tr); [discriminate|]. by injection H as <-.
  - bind_inv H. destruct (a <? target_length tr); [|by injection H as <-].
    bind_inv H. bind_inv H. bind_inv H.
    apply (IH a2); [|done].
    assert (Hext : has_channels a1 c).
    { destruct (a0 <=? target_length tr - a); [by injection Ha1 as <-|].
      exact (slice0_channels _ _ _ _ _ Horg Ha1). }
    destruct Himg as (l & h & w & Hsh), Hext as (l' & h' & w' & Hsh').
    unfold Np.append0 in Ha2. rewrite Hsh, Hsh' in Ha2.
    destruct (decide _); [|discriminate]. injection Ha2 as <-. by exists (l + l'), h, w.
Qed.

Lemma t_loop_length_channels img c r :
  has_channels img c -> t_loop_length uint8 tr img = Ok r -> has_channels r c.
Proof.
  intros Hch H. unfold t_loop_length in H. bind_inv H. injection H as <-.
  exact (loop_rounds_channels _ img img c a Hch Hch Ha).
Qed.

Lemma t_pad_length_channels img c r :
  has_channels img c -> t_pad_length of_float tr img = Ok r -> has_channels r c.
Proof.
  intros (l & h & w & Hsh) H. unfold t_pad_length in H. bind_inv H.
  destruct (0 <? _); [|injection H as <-; by exists l, h, w].
  unfold Np.pad0_rank4 in H. rewrite Hsh in H. injection H as <-. by eexists _, h, w.
Qed.

Lemma rescale_stages_channels img c fps hr rwaves r cf rw :
  grayscale tr = false -> has_channels img c ->
  rescale_stages uint8 average resize tr img fps hr rwaves = Ok (r, cf, rw) ->
  has_channels r c.
Proof.
  intros Hg Hch H. unfold rescale_stages in H. rewrite Hg in H.
  cbn [mbind result_bind] in H. bind_inv H. destruct a as [img' cf'].
  injection H as <- <- <-.
  destruct (rescale_fps tr || resize_frames tr || rescale_fphb tr);
    [|by injection Ha as <- <-].
  bind_inv Ha. bind_inv Ha. destruct a0 as [nl cf'']. bind_inv Ha.
  destruct a0 as [nh nw]. bind_inv Ha. injection Ha as <- <-.
  by eapply t_resize_channels.
Qed.

Lemma length_stages_channels img c cf rw fps rwaves r :
  has_channels img c -> 0 <= c ->
  length_stages uint8 of_float tr img cf rw fps rwaves = Ok r -> has_channels r c.
Proof.
  intros Hch Hc H. unfold length_stages in H.
  bind_inv H. bind_inv H. bind_inv H.
  assert (H0 : has_channels a c).
  { destruct (crop_sides tr || crop_length tr); [by eapply t_crop_channels|by injection Ha as <-]. }
  assert (H1 : has_channels a0 c).
  { destruct (rwave_data_only tr); [|by injection Ha0 as <-].
    bind_inv Ha0. bind_inv Ha0. bind_inv Ha0. by eapply t_crop_rwave_channels. }
  assert (H2 : has_channels a1 c).
  { destruct (loop_length tr); [by eapply t_loop_length_channels|by injection Ha1 as <-]. }
  destruct (pad_length tr); [by eapply t_pad_length_channels|by injection H as <-].
Qed.

Lemma size_stages_channels img c fps hr rwaves r :
  grayscale tr = false -> has_channels img c -> 0 <= c ->
  size_stages uint8 average of_float resize tr img fps hr rwaves = Ok r ->
  has_channels r c.
Proof.
  intros Hg Hch Hc H. unfold size_stages in H. bind_inv H.
  destruct a as [[img' cf] rw]. bind_inv H.
  eapply length_stages_channels; [|done|done].
  by eapply rescale_stages_channels.
Qed.

(** C1 (as amended): for a 4-D video with [c] channels and grayscale
    disabled, an error of an earlier stage of [transform_size] (an
    assertion, the r-wave crop error, a failing library call) is the
    outcome of the call; once the stages have completed with a
    transformed video, the call raises the shape-validation [ValueError]
    if and only if the shape of that video is not [(target_length,
    target_height, target_width, c)], and returns that video if and only
    if it is. *)
Theorem transform_size_final_shape img l h w c fps hr rwaves :
  grayscale tr = false -> shape img = [l; h; w; c] -> 0 <= c ->
  match size_stages uint8 average of_float resize tr img fps hr rwaves with
  | Raise e => transform_size uint8 average of_float resize tr img fps hr rwaves = Raise e
  | Ok v =>
      (transform_size uint8 average of_float resize tr img fps hr rwaves =
         Raise (ValueError FinalShapeMismatch) <->
       shape v <> [target_length tr; target_height tr; target_width tr; c]) /\
      (transform_size uint8 average of_float resize tr img fps hr rwaves = Ok v <->
       shape v = [target_length tr; target_height tr; target_width tr; c])
  end.
Proof.
  intros Hg Hsh Hc. unfold transform_size.
  destruct (size_stages _ _ _ _ _ _ _ _ _) as [v|e] eqn:Hst; [|done].
  apply size_stages_channels with (c := c) in Hst as (l' & h' & w' & Hv);
    [|done|by exists l, h, w|done].
  cbn [mbind result_bind]. unfold shape_check, Np.shape_at. rewrite Hv. cbn.
  destruct (decide _) as [Heq|Hne]; split; split; intros H; done.
Qed.

End SizePipelineFacts.

(** *** The loop of [t_loop_length] *)

Section LoopFacts.
Context {px : Type}.
Variable uint8 : px -> px.
Variable tr : transforms.
Implicit Types (img org : ndarray px).

(** On a video with at least one frame the loop ends within the rounds
    that [t_loop_length] allows for it, with [target_length] frames (or
    with the video as it is, when that is long enough). *)
Lemma loop_rounds_ends fuel org img m n sh :
  shape org = m :: sh -> 0 < m -> shape img = n :: sh ->
  (Z.to_nat (target_length tr - n) <= fuel)%nat ->
  exists r, loop_rounds tr fuel org img = Ok r /\
            shape r = Z.max n (target_length tr) :: sh.
Proof.
  intros Horg Hm. revert img n.
  induction fuel as [|fuel IH]; intros img n Himg Hfuel.
  - exists img. cbn [loop_rounds]. unfold Np.len. rewrite Himg. cbn [mbind result_bind].
    replace (n <? target_length tr) with false by (symmetry; apply Z.ltb_ge; lia).
    split; [done|]. f_equal. lia.
  - cbn [loop_rounds]. unfold Np.len. rewrite Himg, Horg. cbn [mbind result_bind].
    destruct (Z.ltb_spec n (target_length tr)) as [Hlt|Hge].
    + destruct (Z.leb_spec m (target_length tr - n)) as [Hfit|Hcut].
      * cbn [mbind result_bind]. unfold Np.append0. rewrite Himg, Horg.
        rewrite decide_True by done. cbn [mbind result_bind].
        destruct (IH (mk_ndarray (n + m :: sh) (data img ++ data org)) (n + m))
          as (r & Hr & Hshape); [done|lia|].
        exists r. split; [done|]. rewrite Hshape. f_equal. lia.
      * unfold Np.slice0. rewrite Horg.
        rewrite (slice_bounds_inside m 0 (target_length tr - n)) by lia.
        cbn [mbind result_bind]. unfold Np.append0. rewrite Himg. cbn [shape].
        rewrite decide_True by done. cbn [mbind result_bind].
        match goal with |- context [loop_rounds tr fuel org ?a] =>
          destruct (IH a (n + (target_length tr - n - 0))) as (r & Hr & Hshape);
            [done|lia|] end.
        exists r. split; [done|]. rewrite Hshape. f_equal. lia.
    + exists img. split; [done|]. rewrite Himg. f_equal. lia.
Qed.

Lemma t_loop_length_returns img n sh :
  shape img = n :: sh -> 0 < n ->
  exists r, t_loop_length uint8 tr img = Ok r /\
            shape r = Z.max n (target_length tr) :: sh.
Proof.
  intros Hsh Hn. unfold t_loop_length.
  destruct (loop_rounds_ends (Z.to_nat (target_length tr)) img img n n sh)
    as (r & Hr & Hshape); [done|done|done|lia|].
  rewrite Hr. by exists (Np.astype uint8 r).
Qed.

(** X9: on a video without frames and with a positive [target_length]
    the loop of [t_loop_length] appends nothing round after round:
    however many rounds it is given, it does not end, so the call never
    returns. *)
Lemma loop_rounds_never_ends fuel sh :
  0 < target_length tr ->
  loop_rounds tr fuel (mk_ndarray (0 :: sh) ([] : list px)) (mk_ndarray (0 :: sh) []) =
  Raise Hang.
Proof.
  intros Ht. induction fuel as [|fuel IH]; cbn [loop_rounds]; unfold Np.len;
    cbn [shape mbind result_bind];
    replace (0 <? target_length tr) with true by (symmetry; apply Z.ltb_lt; lia).
  - done.
  - replace (0 <=? target_length tr - 0) with true by (symmetry; apply Z.leb_le; lia).
    cbn [mbind result_bind]. unfold Np.append0. cbn [shape data app].
    rewrite decide_True by done. cbn [mbind result_bind Z.add]. apply IH.
Qed.

End LoopFacts.

Section SizeAssertionFacts.
Context {px : Type}.
Variable uint8 : px -> px.
Variable average : list px -> px.
Variable of_float : float -> px.
Variable resize : float -> ndarray px -> list Z -> result (ndarray px).
Variable tr : transforms.

(** C4 (as amended): the assertion of [transform_size] on the length
    adjustments involves three flags.  With [loop_length], [crop_length]
    and [rwave_data_only] all enabled the call fails that assertion as
    soon as the grayscale and rescale lines have completed.  Whenever one
    of the three is disabled the assertion passes and the call goes on
    with the crop, r-wave crop, loop and pad lines and the final check;
    so it does with [crop_length] and [rwave_data_only] enabled and
    [loop_length] disabled. *)
Theorem transform_size_three_flag_assertion img fps hr rwaves :
  (loop_length tr = true -> crop_length tr = true -> rwave_data_only tr = true ->
   match rescale_stages uint8 average resize tr img fps hr rwaves with
   | Ok _ => transform_size uint8 average of_float resize tr img fps hr rwaves =
             Raise AssertionError
   | Raise e => transform_size uint8 average of_float resize tr img fps hr rwaves =
                Raise e
   end) /\
  (loop_length tr && crop_length tr && rwave_data_only tr = false ->
   transform_size uint8 average of_float resize tr img fps hr rwaves =
   '(img', curr_fphb, rwave_data) ← rescale_stages uint8 average resize tr img fps hr rwaves;
   v ← length_stages uint8 of_float tr img' curr_fphb rwave_data fps rwaves;
   shape_check tr v).
Proof.
  unfold transform_size, size_stages. split.
  - intros -> -> ->.
    by destruct (rescale_stages _ _ _ _ _ _ _ _) as [[[img' cf] rw]|e].
  - intros ->.
    by destruct (rescale_stages _ _ _ _ _ _ _ _) as [[[img' cf] rw]|e].
Qed.

End SizeAssertionFacts.

Lemma nearest_resize_keeps_channel_axis : keeps_channel_axis IntPixels.nearest_resize.
Proof.
  intros cval a osh r H _ _. unfold IntPixels.nearest_resize in H.
  destruct (_ && _); [|discriminate]. by injection H as <-.
Qed.

Lemma transform_size_final_shape_witness :
  (transform_size IntPixels.uint8 IntPixels.average IntPixels.of_float
     IntPixels.nearest_resize (plain_transforms 3) (IntPixels.ramp 4)
     10%float 60%float [] = Raise (ValueError FinalShapeMismatch) <->
   shape (IntPixels.ramp 4) <> [3; 1; 1; 1]) /\
  (transform_size IntPixels.uint8 IntPixels.average IntPixels.of_float
     IntPixels.nearest_resize (plain_transforms 3) (IntPixels.ramp 4)
     10%float 60%float [] = Ok (IntPixels.ramp 4) <->
   shape (IntPixels.ramp 4) = [3; 1; 1; 1]).
Proof.
  assert (Hc : 0 <= 1) by lia.
  exact (transform_size_final_shape IntPixels.uint8 IntPixels.average IntPixels.of_float
           IntPixels.nearest_resize (plain_transforms 3) nearest_resize_keeps_channel_axis
           (IntPixels.ramp 4) 4 1 1 1 10%float 60%float [] eq_refl eq_refl Hc).
Defined.

(** C1 as stated fails: with both rescale flags enabled the call on a
    video that has the target shape already ends in the first assertion;
    it neither raises the shape-validation error nor returns. *)
Lemma transform_size_assertion_counterexample :
  ~ (transform_size IntPixels.uint8 IntPixels.average IntPixels.of_float
       IntPixels.nearest_resize (both_rescales_transforms 2) (IntPixels.ramp 2)
       10%float 60%float [] = Raise (ValueError FinalShapeMismatch) \/
     exists v,
       transform_size IntPixels.uint8 IntPixels.average IntPixels.of_float
         IntPixels.nearest_resize (both_rescales_transforms 2) (IntPixels.ramp 2)
         10%float 60%float [] = Ok v).
Proof.
  intros [H|[v H]]; vm_compute in H; discriminate.
Qed.

(** With [grayscale] on, [t_grayscale_mean] hands on a video of rank three
    (its docstring promises [(L, H, W, 1)]), and the final check, which
    reads [img.shape[3]], ends in an [IndexError]. *)
Example transform_size_grayscale_run :
  transform_size IntPixels.uint8 IntPixels.average IntPixels.of_float
    IntPixels.nearest_resize (grayscale_transforms 3) (IntPixels.ramp 3)
    10%float 60%float [] = Raise IndexError.
Proof. reflexivity. Qed.

Lemma transform_size_three_flag_assertion_witness :
  transform_size IntPixels.uint8 IntPixels.average IntPixels.of_float
    IntPixels.nearest_resize (rwave_crop_loop_transforms 5 5) (IntPixels.ramp 20)
    10%float 60%float [0%float; 1000%float] = Raise AssertionError.
Proof.
  exact (proj1 (transform_size_three_flag_assertion IntPixels.uint8 IntPixels.average
                  IntPixels.of_float IntPixels.nearest_resize
                  (rwave_crop_loop_transforms 5 5) (IntPixels.ramp 20)
                  10%float 60%float [0%float; 1000%float]) eq_refl eq_refl eq_refl).
Defined.

(** C4 as stated fails: with [crop_length] and [rwave_data_only] enabled
    and [loop_length] disabled no assertion fails; the call below returns
    its five-frame result. *)
Lemma crop_length_with_rwave_counterexample :
  ~ (crop_length (rwave_crop_transforms 5 5) = true ->
     rwave_data_only (rwave_crop_transforms 5 5) = true ->
     transform_size IntPixels.uint8 IntPixels.average IntPixels.of_float
       IntPixels.nearest_resize (rwave_crop_transforms 5 5) (IntPixels.ramp 20)
       10%float 60%float [0%float; 1000%float] = Raise AssertionError).
Proof.
  intros H. specialize (H eq_refl eq_refl). vm_compute in H. discriminate.
Qed.

(** ** The fusion models *)

Section FusionFacts.
Import Torch.

Lemma for_each_raises {X Y} (f : X -> result Y) (e : exn) (xs : list X) :
  (forall x, f x = Raise e) -> xs <> [] -> for_each f xs = Raise e.
Proof. intros Hf Hxs. destruct xs as [|x xs]; [done|]. simpl. by rewrite Hf. Qed.

(** The loop body of [MultiStream.forward] cannot get past
    [self.model_name]. *)
Lemma multistream_body_raises (self : MultiStream.t) :
  exists e, forall p : tensor * string,
    (let '(inp, model_name) := p in
     key ← MultiStream.getattr self "model_name";
     m ← modules_getitem (MultiStream._modules self) key;
     call m inp) = Raise e.
Proof.
  unfold MultiStream.getattr. cbn [bool_decide decide_rel].
  rewrite !bool_decide_eq_false_2 by discriminate.
  destruct (dict_get "model_name" (MultiStream._modules self)) as [m|].
  - exists KeyError. by intros [inp name].
  - exists (AttributeError "model_name"). by intros [inp name].
Qed.

(** C2, the defect: [MultiStream.forward] fails its assertion on an input
    sequence of the wrong length, and for no input at all does it return
    an output: with inputs of the right number the first round of its loop
    reads [self.model_name], which [__init__] never sets (an
    [AttributeError] when no backbone is registered under that name), and
    without inputs [torch.stack] is handed an empty list. *)
Theorem multistream_forward_never_returns (kwargs : list (string * module)) (x : list tensor) :
  (length x <> length kwargs ->
   MultiStream.forward (MultiStream.init kwargs) x = Raise AssertionError) /\
  (length x = length kwargs -> x <> [] ->
   dict_get "model_name" (MultiStream._modules (MultiStream.init kwargs)) = None ->
   MultiStream.forward (MultiStream.init kwargs) x = Raise (AttributeError "model_name")) /\
  (forall y, MultiStream.forward (MultiStream.init kwargs) x <> Ok y).
Proof.
  set (self := MultiStream.init kwargs).
  assert (Hkeys : exists k ks, fst <$> MultiStream.endpoints self = k :: ks).
  { unfold self, MultiStream.init. cbn [MultiStream.endpoints].
    destruct (foldl _ [] kwargs) as [|[k' v'] d]; simpl; [by eexists _, _|].
    case_bool_decide; simpl; by eexists _, _. }
  destruct Hkeys as (k & ks & Hkeys).
  destruct (multistream_body_raises self) as [e He].
  assert (Hrun : forall inp x', x = inp :: x' -> length x = length kwargs ->
            MultiStream.forward self x = Raise e).
  { intros inp x' -> Hlen. unfold MultiStream.forward.
    change (MultiStream.num_models self) with (Z.of_nat (length kwargs)).
    rewrite Hlen, Z.eqb_refl. cbn [py_assert mbind result_bind].
    rewrite Hkeys. cbn [zip zip_with].
    rewrite (for_each_raises _ e); [done| |done].
    intros p. apply He. }
  split; [|split].
  - intros Hlen. unfold MultiStream.forward.
    change (MultiStream.num_models self) with (Z.of_nat (length kwargs)).
    replace (Z.of_nat (length x) =? Z.of_nat (length kwargs)) with false; [done|].
    symmetry. apply Z.eqb_neq. lia.
  - intros Hlen Hx Hname. destruct x as [|inp x']; [done|].
    rewrite (Hrun inp x' eq_refl Hlen). f_equal.
    specialize (He (inp, "")). cbn beta iota in He.
    unfold MultiStream.getattr in He.
    rewrite !bool_decide_eq_false_2 in He by discriminate.
    fold self in Hname. rewrite Hname in He. cbn in He. congruence.
  - intros y. destruct (decide (length x = length kwargs)) as [Hlen|Hlen].
    + destruct x as [|inp x'].
      * unfold MultiStream.forward.
        change (MultiStream.num_models self) with (Z.of_nat (length kwargs)).
        rewrite Hlen, Z.eqb_refl. done.
      * by rewrite (Hrun inp x' eq_refl Hlen).
    + unfold MultiStream.forward.
      change (MultiStream.num_models self) with (Z.of_nat (length kwargs)).
      replace (Z.of_nat (length x) =? Z.of_nat (length kwargs)) with false; [done|].
      symmetry. apply Z.eqb_neq. lia.
Qed.

Lemma for_each_const {X Y} (f : X -> result Y) (y : Y) (xs : list X) :
  (forall x, f x = Ok y) -> for_each f xs = Ok (replicate (length xs) y).
Proof.
  intros Hf. induction xs as [|x xs IH]; [done|]. simpl. by rewrite Hf, IH.
Qed.

Lemma stack_replicate (t : tensor) (n dim : nat) :
  (dim <= length t)%nat ->
  stack (replicate (S n) t) dim = Ok (take dim t ++ Z.of_nat (S n) :: drop dim t).
Proof.
  intros Hdim. unfold stack. cbn [replicate].
  replace (forallb _ (replicate n t)) with true.
  - apply Nat.leb_le in Hdim. rewrite Hdim. cbn [length]. by rewrite length_replicate.
  - symmetry. apply forallb_forall. intros t' Hin%list_elem_of_In%elem_of_replicate.
    destruct Hin as [-> _]. by apply bool_decide_eq_true_2.
Qed.

Lemma shared_modules_lookup (img flow : module) (num_m : Z) :
  let self := MultiStreamShared.init img flow num_m in
  modules_getitem (MultiStreamShared._modules self)
    (VStr (MultiStreamShared.model_img_name self)) = Ok img /\
  modules_getitem (MultiStreamShared._modules self)
    (VStr (MultiStreamShared.model_flow_name self)) = Ok flow /\
  modules_getitem (MultiStreamShared._modules self)
    (VStr (MultiStreamShared.fc_name self)) = Ok (Linear num_m 1).
Proof. vm_compute. done. Qed.

(** X4: [MultiStreamShared.forward] fails its assertion on an input
    sequence whose length is not [num_models]; with [num_models] inputs,
    at least two streams, at least two samples in the batch and backbones
    that give one scalar per sample, it returns an output of shape
    [(batch, 1)] (the contract of C2 for this class). *)
Lemma multistream_shared_forward (batch num_m : Z) (img flow : module) (x : list tensor) :
  (Z.of_nat (length x) <> num_m ->
   MultiStreamShared.forward (MultiStreamShared.init img flow num_m) x =
   Raise AssertionError) /\
  (Z.of_nat (length x) = num_m -> 2 <= num_m -> 2 <= batch ->
   (forall inp, call img inp = Ok [batch; 1]) ->
   (forall inp, call flow inp = Ok [batch; 1]) ->
   MultiStreamShared.forward (MultiStreamShared.init img flow num_m) x = Ok [batch; 1]).
Proof.
  destruct (shared_modules_lookup img flow num_m) as (Hi & Hf & Hfc).
  unfold MultiStreamShared.forward. rewrite Hi, Hf, Hfc.
  cbn [MultiStreamShared.num_models MultiStreamShared.init].
  split.
  - intros Hlen. by replace (Z.of_nat (length x) =? num_m) with false
      by (symmetry; apply Z.eqb_neq; lia).
  - intros Hlen Hn Hb Himg Hflow. rewrite Hlen, Z.eqb_refl. cbn [py_assert mbind result_bind].
    rewrite (for_each_const _ [batch; 1]).
    + unfold enumerate. rewrite length_zip_with, length_seq, Nat.min_id.
      destruct (length x) as [|n] eqn:Hx; [simpl in Hlen; lia|].
      cbn [mbind result_bind]. rewrite stack_replicate by (simpl; lia).
      cbn [take drop app mbind result_bind]. rewrite Hlen.
      unfold squeeze. cbn [List.filter].
      replace (batch =? 1) with false by (symmetry; apply Z.eqb_neq; lia).
      replace (num_m =? 1) with false by (symmetry; apply Z.eqb_neq; lia).
      cbn. by rewrite Z.eqb_refl.
    + intros [i inp]. destruct (i mod 2 =? 0)%nat; [apply Himg|apply Hflow].
Qed.

End FusionFacts.

(** The failing call of C2: two registered backbones, two inputs, a batch
    of four samples. *)
Example multistream_forward_run :
  MultiStream.forward
    (MultiStream.init [("img", scalar_backbone 4); ("flow", scalar_backbone 4)])
    [[4; 1; 15; 97; 127]; [4; 2; 15; 97; 127]] = Raise (AttributeError "model_name").
Proof. reflexivity. Qed.

Example multistream_shared_run :
  MultiStreamShared.forward
    (MultiStreamShared.init (scalar_backbone 4) (scalar_backbone 4) 2)
    [[4; 1; 15; 97; 127]; [4; 2; 15; 97; 127]] = Ok [4; 1].
Proof. reflexivity. Qed.

(** With one sample in the batch [squeeze] drops the batch axis too. *)
Example multistream_shared_single_sample_run :
  MultiStreamShared.forward
    (MultiStreamShared.init (scalar_backbone 1) (scalar_backbone 1) 2)
    [[1; 1; 15; 97; 127]; [1; 2; 15; 97; 127]] = Ok [1].
Proof. reflexivity. Qed.

(** ** [DistributedWeightedSampler] *)

(** C7: a [DistributedWeightedSampler] is never constructed with
    [replacement=False]; whenever the constructor of the underlying
    distributed sampler goes through, [replacement=False] fails the
    assertion of [__init__], and [replacement=True] gives a sampler whose
    reported length is that sampler's per-process sample count
    [num_samples]. *)
Theorem weighted_sampler_replacement_contract (dist : option process_group) (n : Z) :
  (forall s, DistributedWeightedSampler.init dist n false <> Ok s) /\
  (forall b, DistributedSampler.init dist n = Ok b ->
     DistributedWeightedSampler.init dist n false = Raise AssertionError /\
     exists s, DistributedWeightedSampler.init dist n true = Ok s /\
               DistributedWeightedSampler.len s = DistributedSampler.num_samples b).
Proof.
  unfold DistributedWeightedSampler.init. split.
  - intros s. by destruct (DistributedSampler.init dist n).
  - intros b ->. split; [done|]. by eexists.
Qed.

(** With a group of four processes and ten samples, the reported length
    is three. *)
Lemma weighted_sampler_replacement_contract_witness :
  DistributedWeightedSampler.init (Some (mk_process_group 4 1 (fun v => v))) 10 false
  = Raise AssertionError /\
  exists s,
    DistributedWeightedSampler.init (Some (mk_process_group 4 1 (fun v => v))) 10 true
    = Ok s /\
    DistributedWeightedSampler.len s = 3.
Proof.
  exact (proj2 (weighted_sampler_replacement_contract
                  (Some (mk_process_group 4 1 (fun v => v))) 10)
           (DistributedSampler.mk 10 4 1 0 3 12) eq_refl).
Defined.

Example weighted_sampler_run :
  DistributedWeightedSampler.len
    <$> (match DistributedWeightedSampler.init
                 (Some (mk_process_group 4 1 (fun v => v))) 10 true with
         | Ok s => Some s
         | Raise _ => None
         end) = Some 3.
Proof. reflexivity. Qed.

(** ** [AverageMeterDDP] *)

Section MeterFacts.
Import AverageMeterDDP.
Implicit Types (self : AverageMeterDDP.t) (v : list float).

Lemma update_slot_ok self v i vi s :
  v !! i = Some vi -> (i < length (val self))%nat -> (i < length (avg self))%nat ->
  sum self !! i = Some s ->
  update_slot self v i =
  Ok (mk (n_classes self) (<[i := vi]> (val self))
         (<[i := PrimFloat.div (PrimFloat.add s vi) (PyFloat.of_int (count self))]> (avg self))
         (<[i := PrimFloat.add s vi]> (sum self)) (count self) (step self)).
Proof.
  intros Hv Hval Havg Hsum. unfold update_slot, Np.item. rewrite Hv.
  destruct (lookup_lt_is_Some_2 _ _ Hval) as [x ->].
  cbn [mbind result_bind sum val avg count step n_classes]. rewrite Hsum.
  cbn [mbind result_bind]. rewrite list_lookup_insert_eq by (by eapply lookup_lt_Some).
  destruct (lookup_lt_is_Some_2 _ _ Havg) as [y ->]. done.
Qed.

(** The loop of [update] over the slots [i, i + k). *)
Lemma update_slots_ok self v n i k :
  length (val self) = n -> length (avg self) = n -> length (sum self) = n ->
  (n <= length v)%nat -> (i + k <= n)%nat ->
  exists self',
    update_slots self v i k = (self', Ok tt) /\
    n_classes self' = n_classes self /\ count self' = count self /\
    step self' = step self /\
    length (val self') = n /\ length (avg self') = n /\ length (sum self') = n /\
    forall j s, sum self !! j = Some s ->
      sum self' !! j = Some (if decide (i <= j < i + k)%nat
                             then PrimFloat.add s (slot j v) else s) /\
      ((i <= j < i + k)%nat ->
       avg self' !! j = Some (PrimFloat.div (PrimFloat.add s (slot j v))
                                (PyFloat.of_int (count self)))).
Proof.
  revert self i. induction k as [|k IH]; intros self i Hval Havg Hsum Hv Hik.
  - exists self. simpl. repeat split; try done.
    + rewrite decide_False by lia. done.
    + lia.
  - assert (Hi : (i < n)%nat) by lia.
    destruct (lookup_lt_is_Some_2 v i ltac:(lia)) as [vi Hvi].
    destruct (lookup_lt_is_Some_2 (sum self) i ltac:(lia)) as [si Hsi].
    cbn [update_slots].
    rewrite (update_slot_ok self v i vi si) by (done || lia).
    set (self1 := mk _ _ _ _ _ _).
    destruct (IH self1 (S i)) as (self' & Hrun & Hn & Hc & Hst & Hl1 & Hl2 & Hl3 & Hslots);
      try (subst self1; cbn; rewrite ?length_insert; (done || lia)).
    exists self'. split; [done|]. repeat split; try done.
    + destruct (decide (j = i)) as [->|Hji].
      * assert (s = si) as -> by congruence.
        destruct (Hslots i (PrimFloat.add si vi)) as [Hs _].
        { subst self1. cbn. apply list_lookup_insert_eq. lia. }
        rewrite Hs. rewrite decide_False by lia. rewrite decide_True by lia.
        unfold slot. by rewrite Hvi.
      * destruct (Hslots j s) as [Hs _].
        { subst self1. cbn. by rewrite list_lookup_insert_ne. }
        rewrite Hs. f_equal. repeat case_decide; (done || lia).
    + intros Hj. destruct (decide (j = i)) as [->|Hji].
      * assert (s = si) as -> by congruence.
        (* slot [i] of [avg] is written in this round and kept afterwards *)
        clear Hslots.
        assert (Hkeep : forall self0 i0 k0 self0',
                   update_slots self0 v i0 k0 = (self0', Ok tt) -> (i < i0)%nat ->
                   avg self0' !! i = avg self0 !! i).
        { intros self0 i0 k0. revert self0 i0.
          induction k0 as [|k0 IHk]; intros self0 i0 self0' Hr Hlt; simpl in Hr.
          - by injection Hr as <-.
          - destruct (update_slot self0 v i0) as [s1|e] eqn:Hus; [|by injection Hr].
            rewrite (IHk s1 (S i0) self0' Hr) by lia.
            unfold update_slot in Hus.
            bind_inv Hus. bind_inv Hus. bind_inv Hus. bind_inv Hus. bind_inv Hus.
            injection Hus as <-. cbn. apply list_lookup_insert_ne. lia. }
        rewrite (Hkeep self1 (S i) k self' Hrun) by lia.
        subst self1. cbn. rewrite list_lookup_insert_eq by lia.
        unfold slot. by rewrite Hvi.
      * destruct (Hslots j s) as [_ Ha].
        { subst self1. cbn. by rewrite list_lookup_insert_ne. }
        rewrite Ha by lia. done.
Qed.

Lemma init_meter_inv n : meter_inv n [] (init None n).
Proof.
  unfold meter_inv, init, zeros. cbn. rewrite !length_replicate.
  repeat split. intros i Hi. by apply lookup_replicate_2.
Qed.

Lemma update_meter_inv n vals self v :
  meter_inv n vals self -> (n <= length v)%nat ->
  exists self',
    update None self v = (self', Ok tt) /\
    meter_inv n (vals ++ [v]) self' /\
    count self' = count self + 1 /\
    forall i, (i < n)%nat ->
      avg self' !! i = Some (arithmetic_mean (slot i <$> vals ++ [v])).
Proof.
  intros (Hn & Hval & Havg & Hsum & Hstep & Hcount & Hsums) Hv.
  unfold update. set (self1 := mk _ _ _ _ _ _).
  destruct (update_slots_ok self1 v n 0 (n_classes self))
    as (self' & Hrun & Hn' & Hc' & Hst' & Hl1 & Hl2 & Hl3 & Hslots);
    try (subst self1; cbn; (done || lia)).
  exists self'. split; [done|].
  assert (Hc : count self' = Z.of_nat (length (vals ++ [v]))).
  { rewrite Hc'. subst self1. cbn. rewrite Hcount, Hstep, length_app. simpl. lia. }
  split; [|split].
  - repeat split; try done.
    + rewrite Hn'. by subst self1.
    + rewrite Hst'. by subst self1.
    + intros i Hi. destruct (Hslots i _ (Hsums i Hi)) as [Hs _].
      rewrite Hs. rewrite decide_True by lia.
      by rewrite fmap_app, foldl_app.
  - rewrite Hc'. subst self1. cbn. by rewrite Hstep.
  - intros i Hi. destruct (Hslots i _ (Hsums i Hi)) as [_ Ha].
    rewrite Ha by lia. unfold arithmetic_mean.
    rewrite fmap_app, foldl_app, length_app, !length_fmap. cbn [foldl fmap list_fmap length].
    do 3 f_equal. subst self1. cbn. rewrite Hcount, Hstep. lia.
Qed.

Lemma updates_meter_inv n vals0 self0 vals :
  meter_inv n vals0 self0 -> Forall (fun v => (n <= length v)%nat) vals ->
  exists self, updates None self0 vals = (self, Ok tt) /\ meter_inv n (vals0 ++ vals) self.
Proof.
  intros Hinv Hvals. revert vals0 self0 Hinv.
  induction Hvals as [|v vals Hv Hvals IH]; intros vals0 self0 Hinv.
  - exists self0. by rewrite app_nil_r.
  - destruct (update_meter_inv n vals0 self0 v Hinv Hv) as (self1 & Hrun & Hinv1 & _).
    destruct (IH _ _ Hinv1) as (self & Hruns & Hinvs).
    exists self. simpl. rewrite Hrun. split; [done|]. by rewrite <- app_assoc in Hinvs.
Qed.


End MeterFacts.


Example average_meter_run :
  AverageMeterDDP.avg
    (fst (AverageMeterDDP.updates None (AverageMeterDDP.init None 1)
            [[2%float]; [3%float]; [7%float]])) = [4%float].
Proof. reflexivity. Qed.

(** A meter made while a group of four processes is active counts four
    samples per call, also for calls made after the group is gone. *)
Example average_meter_step_is_fixed_at_construction :
  AverageMeterDDP.count
    (fst (AverageMeterDDP.update None
            (AverageMeterDDP.init (Some (mk_process_group 4 0 (fun v => v))) 1)
            [2%float])) = 4.
Proof. reflexivity. Qed.

(** ** What the operations do to the arrays they are given *)

Section StoreFacts.
Context {px : Type}.
Implicit Types (σ : gmap nat (array_obj px)).








Lemma writes_only_leaves {X} r (m : hm px X) : leaves_arrays m -> writes_only r m.
Proof. intros Hm σ r' o _ H. by apply Hm. Qed.


End StoreFacts.



Section AugmentationEffects.
Context {px rng : Type}.
Variable uint8 : px -> px.
Variable average : list px -> px.
Variable float32 : px -> px.
Variable div255 : px -> px.
Variable signed_unit : px -> px.
Variable luminance : list px -> px.
Variable of_float : float -> px.
Variable add_float : px -> float -> px.
Variable clip : float -> float -> px -> px.
Variable resize : float -> ndarray px -> list Z -> result (ndarray px).
Variable random_noise : noise_mode -> float -> rng -> ndarray px -> result (ndarray px).
Variable cvt_gray : ndarray px -> result (ndarray px).
Variable rotate_frame : float -> float -> ndarray px -> result (ndarray px).
Variable rescale : float -> float -> ndarray px -> result (ndarray px).
Variable tr : transforms.
Variable au : augmentations.




End AugmentationEffects.



Example t_local_blackout_run :
  Aug.t_local_blackout IntPixels.of_float (plain_transforms 1)
    (blackout_augmentations 1%float) 0 1%float 1%float 0 0
    (callers_store IntPixels.square) =
  (callers_store (mk_ndarray [1; 2; 2; 1] [0; 2; 3; 4]), Ok 0%nat).
Proof. vm_compute. reflexivity. Qed.

(** ** [t_zoom] *)

Section ZoomFacts.
Context {px : Type}.
Variable of_float : float -> px.
Variable rescale : float -> float -> ndarray px -> result (ndarray px).
Variable tr : transforms.
Variable au : augmentations.
Implicit Types (img : ndarray px).

(** X20, the parts of C8 that the code keeps: a drawn zoom factor below
    zero is replaced by one, and with a zoom factor of one, or with a
    rescaled first frame of the height and width of the input, [t_zoom]
    returns the video it was given. *)
Lemma t_zoom_returns_input img z d l h w rest frame0 zoom_frame zh zw zrest :
  shape img = l :: h :: w :: rest -> 0 < l ->
  normal (zoom_factor_std_dev au) z = Ok d ->
  Np.frame img 0 = Ok frame0 ->
  rescale (black_val tr)
    (if PrimFloat.ltb (PrimFloat.add 1%float d) 0%float then 1%float
     else PrimFloat.add 1%float d) frame0 = Ok zoom_frame ->
  shape zoom_frame = zh :: zw :: zrest ->
  PrimFloat.ltb (PrimFloat.add 1%float d) 0%float = true \/
  PrimFloat.eqb (PrimFloat.add 1%float d) 1%float = true \/
  (zh = h /\ zw = w) ->
  t_zoom of_float rescale tr au img z = Ok img.
Proof.
  intros Hsh Hl Hd Hframe Hres Hzsh Hcase.
  unfold t_zoom, zoom_loop, zoom_with. rewrite Hd. unfold Np.len. rewrite Hsh.
  cbn [mbind result_bind].
  destruct (Z.to_nat l) as [|n] eqn:Hn; [lia|].
  cbn [zoom_rounds]. rewrite Hframe. cbn [mbind result_bind].
  rewrite Hres. cbn [mbind result_bind].
  unfold zoom_offsets, Np.shape_at. rewrite Hzsh, Hsh. cbn [lookup list_lookup mbind result_bind].
  set (factor := if PrimFloat.ltb _ _ then _ else _) in *.
  assert (Hret : PrimFloat.eqb factor 1%float || ((zh - h =? 0) && (zw - w =? 0)) = true).
  { destruct Hcase as [Hneg|[Hone|[-> ->]]].
    - subst factor. rewrite Hneg. reflexivity.
    - subst factor. destruct (PrimFloat.ltb _ _); [reflexivity|]. by rewrite Hone.
    - rewrite !Z.sub_diag. apply orb_true_r. }
  rewrite Hret. reflexivity.
Qed.

(** A round of the loop that stores an empty zoomed frame leaves the new
    video as it is. *)
Lemma set_frame_rect_empty (new_img : ndarray px) l h w c i y x :
  Np.wf new_img -> shape new_img = [l; h; w; c] -> (Z.of_nat i < l) ->
  Np.set_frame_rect new_img i y y x x (mk_ndarray [0; 0; c] []) = Ok new_img.
Proof.
  intros [Hnn Hlen] Hsh Hi. unfold Np.set_frame_rect. rewrite Hsh in *.
  replace (Z.of_nat i <? l) with true by (symmetry; apply Z.ltb_lt; lia).
  inversion Hnn as [|? ? Hl' Hnn1]; inversion Hnn1 as [|? ? Hh Hnn2];
    inversion Hnn2 as [|? ? Hw Hnn3]; inversion Hnn3 as [|? ? Hc _]; subst.
  assert (Hys : snd (Np.slice_bounds h y y) = 0).
  { unfold Np.slice_bounds. cbn [snd]. lia. }
  assert (Hxs : snd (Np.slice_bounds w x x) = 0).
  { unfold Np.slice_bounds. cbn [snd]. lia. }
  destruct (Np.slice_bounds h y y) as [y0 ny], (Np.slice_bounds w x x) as [x0 nx].
  cbn [snd] in *. subst ny nx.
  assert (Hb : Np.broadcast_to (mk_ndarray [0; 0; c] ([] : list px)) [0; 0; c] = Ok []).
  { unfold Np.broadcast_to, Np.align. cbn [shape data length Nat.sub Np.strip_ones replicate app].
    cbn [Np.broadcast]. rewrite Z.eqb_refl. reflexivity. }
  rewrite Hb. cbn [mbind result_bind]. f_equal.
  destruct new_img as [sh d]; cbn [shape data] in *; subst sh. f_equal.
  set (k := Z.to_nat (Np.size_of [h; w; c])).
  assert (Hk : k = (Z.to_nat h * Z.to_nat (w * c))%nat).
  { subst k. cbn [Np.size_of foldr]. rewrite Z.mul_1_r. apply Z2Nat.inj_mul; lia. }
  assert (Hd : length d = (Z.to_nat l * k)%nat).
  { rewrite Hlen. cbn [Np.size_of foldr]. subst k. cbn [Np.size_of foldr].
    rewrite <- Z2Nat.inj_mul by lia. f_equal. }
  assert (Hframe : Np.set_rect_data h w c (y0, 0) (x0, 0) [] (take k (drop (i * k) d)) =
                   take k (drop (i * k) d)).
  { unfold Np.set_rect_data. cbn [Z.mul Z.to_nat Np.rows].
    rewrite (imap_ext _ (fun _ r => r)) by (intros j r _; reflexivity).
    rewrite imap_same, concat_rows.
    apply take_ge. rewrite length_take, length_drop, <- Hk.
    assert (i * k + k <= Z.to_nat l * k)%nat; [|lia].
    replace (i * k + k)%nat with (S i * k)%nat by lia.
    apply Nat.mul_le_mono_r. lia. }
  rewrite Hframe.
  transitivity (take (i * k) d ++ drop (i * k) d); [|apply take_drop]. f_equal.
  transitivity (take k (drop (i * k) d) ++ drop k (drop (i * k) d)); [|apply take_drop].
  f_equal. rewrite drop_drop. f_equal. lia.
Qed.

(** With a zoom factor of zero and zoomed frames without rows and
    columns, no round of the loop writes anything into the new video. *)
Lemma zoom_rounds_zero_factor img new_img l h w c n i diffs offsets :
  shape img = [l; h; w; c] -> Np.wf new_img -> shape new_img = [l; h; w; c] -> 0 < h ->
  (forall j frame, Np.frame img j = Ok frame ->
     rescale (black_val tr) 0%float frame = Ok (mk_ndarray [0; 0; c] [])) ->
  Z.of_nat (i + n) <= l ->
  (diffs = None /\ offsets = None) \/
  (exists d hs ws, diffs = Some d /\ offsets = Some (hs, hs, ws, ws)) ->
  zoom_rounds rescale tr img new_img 0%float diffs offsets i n = Ok (Some new_img).
Proof.
  intros Hsh Hwf Hnsh Hh Hres. revert i diffs offsets.
  induction n as [|n IH]; intros i diffs offsets Hin Hstate; [done|].
  cbn [zoom_rounds].
  assert (Hfr : exists frame, Np.frame img i = Ok frame).
  { unfold Np.frame. rewrite Hsh.
    replace (Z.of_nat i <? l) with true by (symmetry; apply Z.ltb_lt; lia). by eexists. }
  destruct Hfr as [frame Hfr]. rewrite Hfr. cbn [mbind result_bind].
  rewrite (Hres i frame Hfr). cbn [mbind result_bind].
  change (PrimFloat.ltb 1 0) with false. change (PrimFloat.ltb 0 1) with true.
  destruct Hstate as [[-> ->]|(d & hs & ws & -> & ->)].
  - unfold zoom_offsets, Np.shape_at. rewrite Hsh.
    cbn [shape lookup list_lookup mbind result_bind].
    change (PrimFloat.eqb 0 1) with false. change (PrimFloat.ltb 1 0) with false.
    change (PrimFloat.ltb 0 1) with true.
    replace (0 - h =? 0) with false by (symmetry; apply Z.eqb_neq; lia).
    cbn [orb andb mbind result_bind local].
    rewrite (set_frame_rect_empty new_img l h w c i) by (done || lia).
    cbn [mbind result_bind].
    apply IH; [lia|]. right. by eexists _, _, _.
  - cbn [mbind result_bind local].
    rewrite (set_frame_rect_empty new_img l h w c i) by (done || lia).
    cbn [mbind result_bind].
    apply IH; [lia|]. right. by eexists _, _, _.
Qed.

(** Once the size deltas are set, the loop has no [return img] left. *)
Lemma zoom_rounds_started img new_img zoom_factor d offsets i n :
  zoom_rounds rescale tr img new_img zoom_factor (Some d) offsets i n <> Ok None.
Proof.
  revert new_img i. induction n as [|n IH]; intros new_img i; [done|].
  cbn [zoom_rounds].
  destruct (Np.frame img i) as [frame|e]; [|done]. cbn [mbind result_bind].
  destruct (rescale _ _ _) as [zoom_frame|e]; [|done]. cbn [mbind result_bind].
  destruct (if PrimFloat.ltb 1 zoom_factor then _ else _) as [new_img'|e]; [|done].
  cbn [mbind result_bind]. apply IH.
Qed.

(** C8, the defect: a drawn zoom factor of exactly zero passes the guard
    [zoom_factor < 0] and is not replaced by one: the frames are rescaled
    by zero.  If the library raises on that, so does [t_zoom]; if it
    gives a first frame whose height or width differs from the input's,
    [t_zoom] does not end with [return img]; and when it gives frames
    without rows and columns, [t_zoom] returns a video that is black
    throughout, not the video it was given. *)
Theorem t_zoom_zero_factor_not_clamped img z d l h w c :
  shape img = [l; h; w; c] -> Np.wf img -> 0 < l ->
  normal (zoom_factor_std_dev au) z = Ok d ->
  PrimFloat.add 1%float d = 0%float ->
  (forall frame0 e,
     Np.frame img 0 = Ok frame0 ->
     rescale (black_val tr) 0%float frame0 = Raise e ->
     t_zoom of_float rescale tr au img z = Raise e) /\
  (forall frame0 zoom_frame zh zw zrest,
     Np.frame img 0 = Ok frame0 ->
     rescale (black_val tr) 0%float frame0 = Ok zoom_frame ->
     shape zoom_frame = zh :: zw :: zrest ->
     zh <> h \/ zw <> w ->
     zoom_loop of_float rescale tr au img z <> Ok None) /\
  (0 < h ->
   (forall j frame, Np.frame img j = Ok frame ->
      rescale (black_val tr) 0%float frame = Ok (mk_ndarray [0; 0; c] [])) ->
   t_zoom of_float rescale tr au img z =
   Ok (Np.full_like img (of_float (black_val tr)))).
Proof.
  intros Hsh [Hnn Hlen] Hl Hd Hzero.
  unfold t_zoom, zoom_loop, zoom_with. rewrite Hd. cbn [mbind result_bind]. rewrite Hzero.
  change (PrimFloat.ltb 0 0) with false. cbn iota.
  unfold Np.len. rewrite Hsh. cbn [mbind result_bind].
  destruct (Z.to_nat l) as [|n] eqn:Hn; [lia|].
  split; [|split].
  - intros frame0 e Hf Hres. cbn [zoom_rounds]. rewrite Hf. cbn [mbind result_bind].
    by rewrite Hres.
  - intros frame0 zoom_frame zh zw zrest Hf Hres Hzsh Hdiff.
    cbn [zoom_rounds]. rewrite Hf. cbn [mbind result_bind].
    rewrite Hres. cbn [mbind result_bind].
    unfold zoom_offsets, Np.shape_at. rewrite Hzsh, Hsh.
    cbn [lookup list_lookup mbind result_bind].
    change (PrimFloat.eqb 0 1) with false. change (PrimFloat.ltb 1 0) with false.
    change (PrimFloat.ltb 0 1) with true.
    replace ((zh - h =? 0) && (zw - w =? 0)) with false
      by (symmetry; apply andb_false_iff; rewrite !Z.eqb_neq; lia).
    cbn [orb mbind result_bind local].
    destruct (Np.set_frame_rect _ _ _ _ _ _ _) as [new_img'|e]; [|done].
    cbn [mbind result_bind]. apply zoom_rounds_started.
  - intros Hh Hres. rewrite <- Hn.
    rewrite (zoom_rounds_zero_factor img _ l h w c); try done.
    + split; [done|]. unfold Np.full_like. cbn [shape data].
      by rewrite length_replicate.
    + lia.
    + by left.
Qed.

End ZoomFacts.

Lemma t_zoom_zero_factor_not_clamped_witness :
  t_zoom IntPixels.of_float IntPixels.nearest_rescale (plain_transforms 1)
    (plain_augmentations 1%float) IntPixels.square (-1)%float =
  Ok (mk_ndarray [1; 2; 2; 1] [0; 0; 0; 0]).
Proof.
  assert (Hwf : Np.wf IntPixels.square) by (split; [repeat constructor; lia|reflexivity]).
  assert (Hl : 0 < 1) by lia.
  assert (Hh : 0 < 2) by lia.
  refine (proj2 (proj2
            (t_zoom_zero_factor_not_clamped IntPixels.of_float IntPixels.nearest_rescale
               (plain_transforms 1) (plain_augmentations 1%float) IntPixels.square
               (-1)%float (-1)%float 1 2 2 1 eq_refl Hwf Hl eq_refl eq_refl)) Hh _).
  intros [|j] frame Hf.
  - vm_compute in Hf. injection Hf as <-. reflexivity.
  - unfold Np.frame in Hf. cbn [shape IntPixels.square] in Hf.
    destruct (Z.ltb_spec (Z.of_nat (S j)) 1); [lia|discriminate].
Defined.

(** With a library that gives the rescaled frame at least one row and
    one column, the zero factor leaves one sampled pixel per frame on a
    black video. *)
Example t_zoom_zero_factor_min1_run :
  t_zoom IntPixels.of_float IntPixels.nearest_rescale_min1 (plain_transforms 1)
    (plain_augmentations 1%float) IntPixels.square (-1)%float =
  Ok (mk_ndarray [1; 2; 2; 1] [1; 0; 0; 0]).
Proof. vm_compute. reflexivity. Qed.

(** A zoom factor below zero is replaced by one: the video comes back
    as it was given. *)
Example t_zoom_negative_factor_run :
  t_zoom IntPixels.of_float IntPixels.nearest_rescale (plain_transforms 1)
    (plain_augmentations 1%float) IntPixels.square (-3)%float = Ok IntPixels.square.
Proof. reflexivity. Qed.

(** ** The operations on the store against the functions on videos *)

Section StoreRefinement.
Context {px : Type}.
Implicit Types (σ : gmap nat (array_obj px)) (a b : ndarray px).

Lemma owns_shows σ r a : owns σ r a -> shows σ r a.
Proof. unfold owns, shows, Mem.read. by intros ->. Qed.

Lemma fresh_not_in σ r o : σ !! r = Some o -> r <> fresh (dom σ).
Proof.
  intros H ->. apply (is_fresh (dom σ)). apply elem_of_dom. by eexists.
Qed.

Lemma shows_alloc σ o r a :
  shows σ r a -> shows (<[fresh (dom σ) := o]> σ) r a.
Proof.
  unfold shows, Mem.read. intros H.
  destruct (σ !! r) as [[a'|base lo cnt]|] eqn:Hr; [| |done].
  - rewrite lookup_insert_ne by (symmetry; by eapply fresh_not_in). by rewrite Hr.
  - rewrite lookup_insert_ne by (symmetry; by eapply fresh_not_in). rewrite Hr.
    destruct (σ !! base) as [[a'|? ? ?]|] eqn:Hb; [|done..].
    rewrite lookup_insert_ne by (symmetry; by eapply fresh_not_in). by rewrite Hb.
Qed.

Lemma owns_alloc_new σ a : owns (<[fresh (dom σ) := Buffer a]> σ) (fresh (dom σ)) a.
Proof. unfold owns. apply lookup_insert_eq. Qed.

(** An operation that returns a new array does what its function says,
    whatever shows the video. *)
Lemma fresh_from_implements (f : ndarray px -> result (ndarray px)) :
  implements shows owns (Mem.fresh_from f) f.
Proof.
  intros σ r a Ha. unfold Mem.fresh_from, mbind, hm_bind, Mem.load, Mem.lift.
  unfold shows in Ha. rewrite Ha.
  destruct (f a) as [b|e]; [|done].
  eexists. split; [done|]. apply owns_alloc_new.
Qed.

Lemma implements_weaken (P P' Q Q' : gmap nat (array_obj px) -> nat -> ndarray px -> Prop)
    op f :
  (forall σ r a, P' σ r a -> P σ r a) -> (forall σ r a, Q σ r a -> Q' σ r a) ->
  implements P Q op f -> implements P' Q' op f.
Proof.
  intros HP HQ H σ r a Ha. specialize (H σ r a (HP _ _ _ Ha)).
  destruct (f a); [|done]. destruct H as (r' & ? & ?). eauto.
Qed.

(** One operation after the other. *)
Lemma implements_seq (P Q R : gmap nat (array_obj px) -> nat -> ndarray px -> Prop)
    op1 op2 f1 f2 :
  implements P Q op1 f1 -> implements Q R op2 f2 ->
  implements P R (fun r => r1 ← op1 r; op2 r1) (fun a => b ← f1 a; f2 b).
Proof.
  intros H1 H2 σ r a Ha. specialize (H1 σ r a Ha).
  unfold mbind, hm_bind, result_bind.
  destruct (f1 a) as [b|e].
  - destruct H1 as (r1 & Hres & Hq).
    destruct (op1 r σ) as [σ1 res1]. cbn [fst snd] in *. subst res1.
    apply (H2 σ1 r1 b Hq).
  - destruct (op1 r σ) as [σ1 res1]. cbn [fst snd] in *. by subst res1.
Qed.

(** An operation that is switched off. *)
Lemma implements_skip (P : gmap nat (array_obj px) -> nat -> ndarray px -> Prop) :
  implements P P (fun r => mret r) (fun a => Ok a).
Proof. intros σ r a Ha. by exists r. Qed.

Lemma implements_if (P Q : gmap nat (array_obj px) -> nat -> ndarray px -> Prop)
    (c : bool) op1 op2 f1 f2 :
  implements P Q op1 f1 -> implements P Q op2 f2 ->
  implements P Q (fun r => if c then op1 r else op2 r) (fun a => if c then f1 a else f2 a).
Proof. by destruct c. Qed.

(** A view of an array that owns its items shows the slice. *)
Lemma view_of_shows σ r a lo hi :
  owns σ r a ->
  match Np.slice0 a lo hi with
  | Ok b => exists r', (Mem.view_of r lo hi σ).2 = Ok r' /\
                       shows (Mem.view_of r lo hi σ).1 r' b
  | Raise e => (Mem.view_of r lo hi σ).2 = Raise e
  end.
Proof.
  unfold owns. intros Hr. unfold Mem.view_of, Np.slice0. rewrite Hr.
  destruct (shape a) as [|n sh] eqn:Hsh; [done|].
  destruct (Np.slice_bounds n lo hi) as [s cnt] eqn:Hb.
  eexists. split; [done|]. unfold Mem.alloc, shows, Mem.read. cbn [fst].
  rewrite lookup_insert_eq.
  rewrite lookup_insert_ne by (symmetry; by eapply fresh_not_in). rewrite Hr.
  unfold Np.slice0. rewrite Hsh.
  assert (Hagain : Np.slice_bounds n s (s + cnt) = (s, cnt)).
  { unfold Np.slice_bounds, Np.slice_index in *. injection Hb as <- <-.
    destruct (Z.ltb_spec lo 0), (Z.ltb_spec hi 0);
      repeat match goal with |- context [if ?c <? 0 then _ else _] =>
               destruct (Z.ltb_spec c 0) end; f_equal; lia. }
  by rewrite Hagain.
Qed.

End StoreRefinement.

Section StoreRefinementSteps.
Context {px : Type}.
Implicit Types (σ : gmap nat (array_obj px)) (a b : ndarray px).

Lemma implements_ext (P Q : gmap nat (array_obj px) -> nat -> ndarray px -> Prop)
    (op op' : nat -> hm px nat) (f f' : ndarray px -> result (ndarray px)) :
  (forall r σ, op r σ = op' r σ) -> (forall a, f a = f' a) ->
  implements P Q op f -> implements P Q op' f'.
Proof.
  intros Hop Hf H σ r a Ha. rewrite <- Hop, <- Hf. by apply H.
Qed.

(** A value computed before the operation, on both sides. *)
Lemma implements_lift {X} (P Q : gmap nat (array_obj px) -> nat -> ndarray px -> Prop)
    (m : result X) (op : X -> nat -> hm px nat) (f : X -> ndarray px -> result (ndarray px)) :
  (forall x, implements P Q (op x) (f x)) ->
  implements P Q (fun r => x ← Mem.lift m; op x r) (fun a => x ← m; f x a).
Proof.
  intros H σ r a Ha. unfold mbind, hm_bind, result_bind, Mem.lift.
  destruct m as [x|e]; [|done]. by apply H.
Qed.

Lemma fresh_from_owns (f : ndarray px -> result (ndarray px)) :
  implements owns owns (Mem.fresh_from f) f.
Proof.
  eapply implements_weaken; [| |apply fresh_from_implements]; eauto using owns_shows.
Qed.

Lemma fresh_from_shows (f : ndarray px -> result (ndarray px)) :
  implements shows shows (Mem.fresh_from f) f.
Proof.
  eapply implements_weaken; [| |apply fresh_from_implements]; eauto using owns_shows.
Qed.

Lemma fresh_from_owns_shows (f : ndarray px -> result (ndarray px)) :
  implements owns shows (Mem.fresh_from f) f.
Proof.
  eapply implements_weaken; [| |apply fresh_from_implements]; eauto using owns_shows.
Qed.

Lemma hm_bind_load {X} r (k : ndarray px -> hm px X) σ :
  (Mem.load r ≫= k) σ =
  match Mem.read σ r with Ok a => k a σ | Raise e => (σ, Raise e) end.
Proof. reflexivity. Qed.

Lemma hm_bind_lift {X Y} (m : result X) (k : X -> hm px Y) σ :
  (Mem.lift m ≫= k) σ = match m with Ok x => k x σ | Raise e => (σ, Raise e) end.
Proof. reflexivity. Qed.

Lemma hm_bind_new_array {X} a (k : nat -> hm px X) σ :
  (Mem.new_array a ≫= k) σ = k (fresh (dom σ)) (<[fresh (dom σ) := Buffer a]> σ).
Proof. reflexivity. Qed.

Lemma hm_bind_ret {X Y} (x : X) (k : X -> hm px Y) σ : (mret x ≫= k) σ = k x σ.
Proof. reflexivity. Qed.

Lemma implements_skip_weak (P Q : gmap nat (array_obj px) -> nat -> ndarray px -> Prop) :
  (forall σ r a, P σ r a -> Q σ r a) ->
  implements P Q (fun r => mret r) (fun a => Ok a).
Proof. intros H σ r a Ha. exists r. split; [done|]. by apply H. Qed.

(** A step that cannot raise, bound with [let] on the side of the
    videos. *)
Lemma implements_let (P Q R : gmap nat (array_obj px) -> nat -> ndarray px -> Prop)
    (op1 op2 : nat -> hm px nat) (g : ndarray px -> ndarray px)
    (f2 : ndarray px -> result (ndarray px)) :
  implements P Q op1 (fun a => Ok (g a)) -> implements Q R op2 f2 ->
  implements P R (fun r => r1 ← op1 r; op2 r1) (fun a => let img := g a in f2 img).
Proof. intros H1 H2. apply (implements_seq P Q R op1 op2 _ f2 H1 H2). Qed.

End StoreRefinementSteps.

Section AugmentationRefinement.
Context {px rng : Type}.
Variable uint8 : px -> px.
Variable average : list px -> px.
Variable float32 : px -> px.
Variable signed_unit : px -> px.
Variable of_float : float -> px.
Variable add_float : px -> float -> px.
Variable clip : float -> float -> px -> px.
Variable resize : float -> ndarray px -> list Z -> result (ndarray px).
Variable random_noise : noise_mode -> float -> rng -> ndarray px -> result (ndarray px).
Variable rotate_frame : float -> float -> ndarray px -> result (ndarray px).
Variable rescale : float -> float -> ndarray px -> result (ndarray px).
Variable tr : transforms.
Variable au : augmentations.
Implicit Types (σ : gmap nat (array_obj px)) (a b : ndarray px).

Lemma t_pad_length_implements :
  implements shows shows (Aug.t_pad_length of_float tr) (t_pad_length of_float tr).
Proof.
  intros σ r a Ha.
  pose proof (fresh_from_shows (t_pad_length of_float tr) σ r a Ha) as Hf.
  unfold Aug.t_pad_length, mbind, hm_bind, Mem.load, Mem.lift.
  unfold shows in Ha. rewrite Ha. cbn [fst snd].
  destruct (Np.shape_at a 0) as [n|e] eqn:Hn.
  - destruct (0 <? target_length tr - n) eqn:Hd; [exact Hf|].
    unfold t_pad_length. rewrite Hn. cbn [mbind result_bind]. rewrite Hd.
    by exists r.
  - unfold t_pad_length. by rewrite Hn.
Qed.

Lemma t_crop_rwave_implements rwaves idx fps :
  implements owns shows
    (fun r => Aug.t_crop_rwave (px := px) tr r rwaves idx fps)
    (fun a => t_crop_rwave tr a rwaves idx fps).
Proof.
  intros σ r a Ha.
  unfold Aug.t_crop_rwave, t_crop_rwave, mbind, hm_bind, result_bind, Mem.load, Mem.lift.
  rewrite (owns_shows _ _ _ Ha). cbn [fst snd].
  destruct (Np.shape_at a 0) as [n|e]; [|done].
  destruct (n =? target_fphb tr).
  - exists r. split; [done|]. by apply owns_shows.
  - destruct (rwave_window tr n rwaves idx fps) as [[s e]|e]; [|done].
    by apply view_of_shows.
Qed.

Lemma shape_check_implements :
  implements (px := px) shows shows
    (fun r => img ← Mem.load r; _ ← Mem.lift (shape_check tr img); mret r)
    (shape_check tr).
Proof.
  intros σ r a Ha.
  unfold mbind, hm_bind, Mem.load, Mem.lift. unfold shows in Ha. rewrite Ha.
  cbn [fst snd]. unfold shape_check, mbind, result_bind.
  destruct (Np.shape_at a 3) as [c|e]; [|done].
  destruct (decide _); [|done]. by exists r.
Qed.

Lemma t_zoom_implements z :
  implements owns owns
    (fun r => Aug.t_zoom of_float rescale tr au r z)
    (fun a => t_zoom of_float rescale tr au a z).
Proof.
  intros σ r a Ha.
  unfold Aug.t_zoom, t_zoom, mbind, hm_bind, result_bind, Mem.load, Mem.lift.
  rewrite (owns_shows _ _ _ Ha). cbn [fst snd].
  destruct (zoom_loop of_float rescale tr au a z) as [[new_img|]|e]; [| |done].
  - eexists. split; [done|]. apply owns_alloc_new.
  - by exists r.
Qed.

Lemma t_local_blackout_implements z_h z_w u_h u_w :
  implements owns owns
    (fun r => Aug.t_local_blackout of_float tr au r z_h z_w u_h u_w)
    (fun a => t_local_blackout of_float tr au a z_h z_w u_h u_w).
Proof.
  intros σ r a Ha.
  unfold Aug.t_local_blackout, mbind, hm_bind, Mem.load, Mem.lift, Mem.store.
  rewrite (owns_shows _ _ _ Ha). cbn [fst snd].
  destruct (t_local_blackout of_float tr au a z_h z_w u_h u_w) as [written|e]; [|done].
  unfold owns in Ha. rewrite Ha. cbn [fst snd].
  exists r. split; [done|]. apply lookup_insert_eq.
Qed.

Lemma t_local_intensity_implements z_h z_w u_h u_w z_val :
  implements owns owns
    (fun r => Aug.t_local_intensity add_float clip tr au r z_h z_w u_h u_w z_val)
    (fun a => t_local_intensity add_float clip tr au a z_h z_w u_h u_w z_val).
Proof.
  intros σ r a Ha.
  unfold Aug.t_local_intensity, t_local_intensity, mbind, hm_bind, result_bind,
    Mem.load, Mem.lift, Mem.store.
  rewrite (owns_shows _ _ _ Ha). cbn [fst snd].
  destruct (local_intensity_written add_float au a z_h z_w u_h u_w z_val)
    as [written|e]; [|done].
  unfold owns in Ha. rewrite Ha. cbn [fst snd].
  eexists. split; [done|]. apply owns_alloc_new.
Qed.

(** [transform_values] on the store, called with an array that owns its
    items, raises what [transform_values] on videos raises, or returns an
    array holding the video that it returns. *)
Lemma transform_values_on_store (d : draws rng) :
  implements owns owns
    (fun r => Aug.transform_values float32 signed_unit of_float add_float clip
                random_noise rotate_frame rescale tr au r d)
    (fun a => transform_values float32 signed_unit of_float add_float clip
                random_noise rotate_frame rescale tr au a d).
Proof.
  unfold Aug.transform_values. cbv beta delta [transform_values].
  match goal with
  | |- implements _ _ _ (fun a => let img := @?g a in @?f2 a img) =>
      apply (implements_let owns owns owns _ _ g (f2 (mk_ndarray [] [])))
  end.
  { destruct (normalize_input tr); [apply fresh_from_owns|apply implements_skip]. }
  apply implements_seq with owns;
    [apply implements_if; [apply fresh_from_owns|apply implements_skip]|].
  apply implements_seq with owns;
    [apply implements_if; [apply fresh_from_owns|apply implements_skip]|].
  apply implements_seq with owns;
    [apply implements_if; [apply fresh_from_owns|apply implements_skip]|].
  apply implements_seq with owns;
    [apply implements_if; [apply fresh_from_owns|apply implements_skip]|].
  apply implements_seq with owns;
    [apply implements_if; [apply fresh_from_owns|apply implements_skip]|].
  apply implements_seq with owns;
    [apply implements_if; [apply fresh_from_owns|apply implements_skip]|].
  apply implements_seq with owns;
    [apply implements_if; [apply t_zoom_implements|apply implements_skip]|].
  apply implements_seq with owns;
    [apply implements_if; [apply t_local_blackout_implements|apply implements_skip]|].
  apply implements_seq with owns;
    [apply implements_if; [apply t_local_intensity_implements|apply implements_skip]|].
  apply fresh_from_owns.
Qed.

Lemma result_bind_assoc {X Y Z} (m : result X) (f : X -> result Y) (g : Y -> result Z) :
  (m ≫= f) ≫= g = m ≫= (fun x => f x ≫= g).
Proof. by destruct m. Qed.

Lemma rescale_stages_same a fps hr rwaves :
  grayscale tr = false ->
  rescale_fps tr || resize_frames tr || rescale_fphb tr = false ->
  exists rwave_data,
    rescale_stages uint8 average resize tr a fps hr rwaves = Ok (a, None, rwave_data).
Proof.
  intros Hg Hr. unfold rescale_stages. rewrite Hg, Hr. cbn [mbind result_bind].
  by eexists.
Qed.

(** The lines of [transform_size] after the rescale lines. *)
Lemma length_stages_on_store c rd fps rwaves :
  implements owns shows
    (fun r =>
       r ← (if crop_sides tr || crop_length tr then Aug.t_crop uint8 tr r else mret r);
       r ← (if rwave_data_only tr then
              c ← Mem.lift (local "curr_fphb" c);
              q ← Mem.lift (PyFloat.truediv (PyFloat.of_int (target_fphb tr)) c);
              d ← Mem.lift (local "rwave_indexes" rd);
              Aug.t_crop_rwave tr r rwaves (snd d) (PrimFloat.mul fps q)
            else mret r);
       r ← (if loop_length tr then Aug.t_loop_length uint8 tr r else mret r);
       r ← (if pad_length tr then Aug.t_pad_length of_float tr r else mret r);
       img ← Mem.load r;
       _ ← Mem.lift (shape_check tr img);
       mret r)
    (fun a => b ← length_stages uint8 of_float tr a c rd fps rwaves; shape_check tr b).
Proof.
  eapply implements_ext with
    (f := fun a =>
       b ← (if crop_sides tr || crop_length tr then t_crop uint8 tr a else Ok a);
       b ← (if rwave_data_only tr then
              c ← local "curr_fphb" c;
              q ← PyFloat.truediv (PyFloat.of_int (target_fphb tr)) c;
              d ← local "rwave_indexes" rd;
              t_crop_rwave tr b rwaves (snd d) (PrimFloat.mul fps q)
            else Ok b);
       b ← (if loop_length tr then t_loop_length uint8 tr b else Ok b);
       b ← (if pad_length tr then t_pad_length of_float tr b else Ok b);
       shape_check tr b); [reflexivity| |].
  { intros a. unfold length_stages. rewrite result_bind_assoc.
    destruct (if crop_sides tr || crop_length tr then _ else _) as [b1|e]; [|done].
    cbn [mbind result_bind]. rewrite result_bind_assoc.
    destruct (if rwave_data_only tr then _ else _) as [b2|e]; [|done].
    cbn [mbind result_bind]. by rewrite result_bind_assoc. }
  apply implements_seq with owns;
    [apply implements_if; [apply fresh_from_owns|apply implements_skip]|].
  apply implements_seq with shows.
  { apply implements_if; [|apply implements_skip_weak, owns_shows].
    apply implements_lift. intros c'.
    apply implements_lift. intros q.
    apply implements_lift. intros d.
    apply t_crop_rwave_implements. }
  apply implements_seq with shows;
    [apply implements_if; [apply fresh_from_shows|apply implements_skip]|].
  apply implements_seq with shows;
    [apply implements_if; [apply t_pad_length_implements|apply implements_skip]|].
  apply shape_check_implements.
Qed.

(** [transform_size] on the store, called with an array that owns its
    items, raises what [transform_size] on videos raises, or returns an
    array that shows the video that it returns. *)
Lemma transform_size_on_store fps hr rwaves :
  implements owns shows
    (fun r => Aug.transform_size uint8 average of_float resize tr r fps hr rwaves)
    (fun a => transform_size uint8 average of_float resize tr a fps hr rwaves).
Proof.
  intros σ r a Ha.
  unfold Aug.transform_size, transform_size, size_stages.
  rewrite result_bind_assoc, hm_bind_load, (owns_shows _ _ _ Ha), hm_bind_lift.
  destruct (rescale_stages uint8 average resize tr a fps hr rwaves)
    as [[[img' c] rd]|e] eqn:Hrs; [|done].
  cbn [mbind result_bind]. rewrite result_bind_assoc.
  destruct (grayscale tr || (rescale_fps tr || resize_frames tr || rescale_fphb tr))
    eqn:Hnew.
  - rewrite hm_bind_new_array, hm_bind_lift.
    destruct (py_assert _) as [[]|e]; [|done].
    exact (length_stages_on_store c rd fps rwaves _ _ img' (owns_alloc_new σ img')).
  - apply orb_false_elim in Hnew as [Hg Hr].
    destruct (rescale_stages_same a fps hr rwaves Hg Hr) as [rd' Hsame].
    rewrite Hsame in Hrs. injection Hrs as <- <- <-.
    rewrite hm_bind_ret, hm_bind_lift.
    destruct (py_assert _) as [[]|e]; [|done].
    exact (length_stages_on_store None rd' fps rwaves σ r a Ha).
Qed.

End AugmentationRefinement.


(** * Further properties of the code *)

(** ** [AverageMeterDDP] under a process group, on short vectors, after [reset] *)

Section MeterGroupFacts.
Import AverageMeterDDP.
Implicit Types (self : AverageMeterDDP.t) (v : list float).

Lemma init_meter_after dist n :
  meter_after n (match dist with Some g => world_size g | None => 1 end) [] (init dist n).
Proof.
  unfold meter_after, init, zeros. cbn. rewrite !length_replicate.
  repeat split; [lia|]. intros i Hi. by apply lookup_replicate_2.
Qed.

Lemma update_meter_after dist n k vals self v :
  let v' := match dist with Some g => all_reduce g v | None => v end in
  meter_after n k vals self -> (n <= length v')%nat ->
  exists self',
    update dist self v = (self', Ok tt) /\
    meter_after n k (vals ++ [v']) self' /\
    forall i, (i < n)%nat ->
      avg self' !! i =
      Some (PrimFloat.div (foldl PrimFloat.add 0%float (slot i <$> vals ++ [v']))
              (PyFloat.of_int (k * Z.of_nat (length (vals ++ [v']))))).
Proof.
  intros v' (Hn & Hval & Havg & Hsum & Hstep & Hcount & Hsums) Hv.
  unfold update. fold v'. set (self1 := mk _ _ _ _ _ _).
  destruct (update_slots_ok self1 v' n 0 (n_classes self))
    as (self' & Hrun & Hn' & Hc' & Hst' & Hl1 & Hl2 & Hl3 & Hslots);
    try (subst self1; cbn; (done || lia)).
  exists self'. split; [done|].
  assert (Hc : count self' = k * Z.of_nat (length (vals ++ [v']))).
  { rewrite Hc'. subst self1. cbn. rewrite Hcount, Hstep, length_app. simpl. lia. }
  split.
  - repeat split; try done.
    + rewrite Hn'. by subst self1.
    + rewrite Hst'. by subst self1.
    + intros i Hi. destruct (Hslots i _ (Hsums i Hi)) as [Hs _].
      rewrite Hs. rewrite decide_True by lia.
      by rewrite fmap_app, foldl_app.
  - intros i Hi. destruct (Hslots i _ (Hsums i Hi)) as [_ Ha].
    rewrite Ha by lia. rewrite fmap_app, foldl_app. cbn [foldl fmap list_fmap].
    do 3 f_equal. rewrite <- Hc, Hc'. done.
Qed.

Lemma updates_meter_after dist n k vals0 self0 vals :
  let red v := match dist with Some g => all_reduce g v | None => v end in
  meter_after n k vals0 self0 -> Forall (fun v => (n <= length (red v))%nat) vals ->
  exists self, updates dist self0 vals = (self, Ok tt) /\
               meter_after n k (vals0 ++ (red <$> vals)) self.
Proof.
  intros red Hinv Hvals. revert vals0 self0 Hinv.
  induction Hvals as [|v vals Hv Hvals IH]; intros vals0 self0 Hinv.
  - exists self0. cbn. by rewrite app_nil_r.
  - destruct (update_meter_after dist n k vals0 self0 v Hinv Hv) as (self1 & Hrun & Hinv1 & _).
    destruct (IH _ _ Hinv1) as (self & Hruns & Hinvs).
    exists self. simpl. rewrite Hrun. split; [done|]. by rewrite <- app_assoc in Hinvs.
Qed.

(** X1: a meter made and updated while a process group of [world_size]
    processes is active counts [world_size] samples per call, and after
    every call each slot of [avg] is the sum of the all-reduced values
    passed so far divided by [world_size] times the number of calls. *)
Theorem meter_mean_over_processes (g : process_group) (n : nat)
    (vals : list (list float)) (v : list float) :
  Forall (fun w => (n <= length (all_reduce g w))%nat) vals ->
  (n <= length (all_reduce g v))%nat ->
  exists self self',
    updates (Some g) (init (Some g) n) vals = (self, Ok tt) /\
    update (Some g) self v = (self', Ok tt) /\
    count self = world_size g * Z.of_nat (length vals) /\
    count self' = count self + world_size g /\
    forall i, (i < n)%nat ->
      avg self' !! i =
      Some (PrimFloat.div
              (foldl PrimFloat.add 0%float (slot i <$> (all_reduce g <$> vals ++ [v])))
              (PyFloat.of_int (world_size g * Z.of_nat (length (vals ++ [v]))))).
Proof.
  intros Hvals Hv.
  destruct (updates_meter_after (Some g) n (world_size g) [] (init (Some g) n) vals
              (init_meter_after (Some g) n) Hvals) as (self & Hrun & Hinv).
  cbn [app] in Hinv.
  destruct (update_meter_after (Some g) n (world_size g) _ self v Hinv Hv)
    as (self' & Hrun' & Hinv' & Havg).
  exists self, self'. split; [done|]. split; [done|].
  destruct Hinv as (_ & _ & _ & _ & _ & Hc & _).
  destruct Hinv' as (_ & _ & _ & _ & _ & Hc' & _).
  rewrite length_fmap in Hc. split; [done|]. split.
  - rewrite Hc', Hc, length_app, length_fmap. simpl. lia.
  - intros i Hi. rewrite (Havg i Hi). rewrite !fmap_app. cbn [fmap list_fmap].
    rewrite !length_app, !length_fmap. reflexivity.
Qed.

(** The loop of [update] over the slots [i, i + k) when the vector has
    fewer than [i + k] items: the slots before the end of the vector are
    written, then [val[i]] raises. *)
Lemma update_slots_short self v n i k :
  length (val self) = n -> length (avg self) = n -> length (sum self) = n ->
  (i <= length v)%nat -> (length v < i + k)%nat -> (i + k <= n)%nat ->
  exists self',
    update_slots self v i k = (self', Raise IndexError) /\
    count self' = count self /\
    forall j,
      val self' !! j = (if decide (i <= j < length v)%nat then v !! j else val self !! j) /\
      sum self' !! j =
        (if decide (i <= j < length v)%nat
         then s ← sum self !! j; Some (PrimFloat.add s (slot j v))
         else sum self !! j).
Proof.
  revert self i. induction k as [|k IH]; intros self i Hval Havg Hsum Hi Hk Hn; [lia|].
  cbn [update_slots].
  destruct (decide (i = length v)) as [->|Hne].
  - unfold update_slot, Np.item. rewrite (lookup_ge_None_2 v (length v)) by lia.
    cbn [mbind result_bind].
    exists self. split; [done|]. split; [done|]. intros j.
    rewrite !decide_False by lia. done.
  - destruct (lookup_lt_is_Some_2 v i ltac:(lia)) as [vi Hvi].
    destruct (lookup_lt_is_Some_2 (sum self) i ltac:(lia)) as [si Hsi].
    rewrite (update_slot_ok self v i vi si) by (done || lia).
    set (self1 := mk _ _ _ _ _ _).
    destruct (IH self1 (S i)) as (self' & Hrun & Hc & Hslots);
      try (subst self1; cbn; rewrite ?length_insert; (done || lia)).
    exists self'. split; [done|]. split; [done|]. intros j.
    destruct (Hslots j) as [Hv' Hs']. rewrite Hv', Hs'. subst self1. cbn [val sum].
    destruct (decide (j = i)) as [->|Hji].
    + rewrite !list_lookup_insert_eq by lia. rewrite Hsi. cbn. unfold slot. rewrite Hvi.
      repeat case_decide; (done || lia).
    + rewrite !list_lookup_insert_ne by done.
      repeat case_decide; (done || lia).
Qed.

(** X2: [update] is not atomic.  Called with a vector of fewer than
    [n_classes] items it raises [IndexError] after it has added [step]
    to the counter and stored and summed the items that are there; the
    slots from the end of the vector on are left as they were. *)
Theorem meter_update_short_vector (self : AverageMeterDDP.t) (v : list float) :
  length (val self) = n_classes self ->
  length (avg self) = n_classes self ->
  length (sum self) = n_classes self ->
  (length v < n_classes self)%nat ->
  exists self',
    update None self v = (self', Raise IndexError) /\
    count self' = count self + step self /\
    (forall j x, v !! j = Some x ->
       val self' !! j = Some x /\
       sum self' !! j = (s ← sum self !! j; Some (PrimFloat.add s x))) /\
    (forall j, (length v <= j)%nat ->
       val self' !! j = val self !! j /\ sum self' !! j = sum self !! j).
Proof.
  intros Hval Havg Hsum Hv. unfold update. set (self1 := mk _ _ _ _ _ _).
  destruct (update_slots_short self1 v (n_classes self) 0 (n_classes self))
    as (self' & Hrun & Hc & Hslots); try (subst self1; cbn; (done || lia)).
  exists self'. split; [done|]. split; [by rewrite Hc|]. split.
  - intros j x Hj. destruct (Hslots j) as [Hv' Hs'].
    pose proof (lookup_lt_Some _ _ _ Hj) as Hlt.
    rewrite decide_True in Hv', Hs' by lia. split; [by rewrite Hv'|].
    rewrite Hs'. subst self1. cbn [sum]. unfold slot. by rewrite Hj.
  - intros j Hj. destruct (Hslots j) as [Hv' Hs'].
    rewrite decide_False in Hv', Hs' by lia. by subst self1.
Qed.

(** X3: [reset] starts the running mean over.  After any accepted calls
    of [update], [reset] followed by further calls gives, after each of
    them, the arithmetic mean of the values passed since the [reset]
    only, and the counter counts those calls. *)
Theorem meter_reset_starts_over (n : nat) (vals vals' : list (list float)) (v : list float) :
  Forall (fun w => (n <= length w)%nat) vals ->
  Forall (fun w => (n <= length w)%nat) vals' ->
  (n <= length v)%nat ->
  exists self self1 self',
    updates None (init None n) vals = (self, Ok tt) /\
    updates None (reset self) vals' = (self1, Ok tt) /\
    update None self1 v = (self', Ok tt) /\
    count self' = Z.of_nat (length vals') + 1 /\
    forall i, (i < n)%nat ->
      avg self' !! i = Some (arithmetic_mean (slot i <$> vals' ++ [v])).
Proof.
  intros Hvals Hvals' Hv.
  destruct (updates_meter_inv n [] (init None n) vals (init_meter_inv n) Hvals)
    as (self & Hrun & Hinv).
  assert (Hreset : reset self = init None n).
  { destruct Hinv as (Hn & _ & _ & _ & Hstep & _). unfold reset, init.
    by rewrite Hn, Hstep. }
  destruct (updates_meter_inv n [] (init None n) vals' (init_meter_inv n) Hvals')
    as (self1 & Hrun1 & Hinv1).
  destruct (update_meter_inv n vals' self1 v Hinv1 Hv) as (self' & Hrun' & _ & Hc & Havg).
  exists self, self1, self'. rewrite Hreset. repeat split; try done.
  destruct Hinv1 as (_ & _ & _ & _ & _ & Hc1 & _). rewrite Hc, Hc1. done.
Qed.

End MeterGroupFacts.

Lemma meter_mean_over_processes_witness :
  exists self self',
    AverageMeterDDP.updates (Some (uniform_group 4))
      (AverageMeterDDP.init (Some (uniform_group 4)) 1) [[2%float]; [3%float]] =
      (self, Ok tt) /\
    AverageMeterDDP.update (Some (uniform_group 4)) self [7%float] = (self', Ok tt) /\
    AverageMeterDDP.count self = 4 * Z.of_nat 2 /\
    AverageMeterDDP.count self' = AverageMeterDDP.count self + 4 /\
    forall i, (i < 1)%nat ->
      AverageMeterDDP.avg self' !! i =
      Some (PrimFloat.div
              (foldl PrimFloat.add 0%float
                 (slot i <$> (all_reduce (uniform_group 4)
                                <$> [[2%float]; [3%float]] ++ [[7%float]])))
              (PyFloat.of_int (4 * Z.of_nat 3))).
Proof.
  apply (meter_mean_over_processes (uniform_group 4) 1 [[2%float]; [3%float]] [7%float]).
  - repeat constructor.
  - simpl. lia.
Defined.

(** With four processes that pass the same values, the mean is the mean
    of the values. *)
Example meter_group_run :
  AverageMeterDDP.avg
    (fst (AverageMeterDDP.updates (Some (uniform_group 4))
            (AverageMeterDDP.init (Some (uniform_group 4)) 1)
            [[2%float]; [3%float]; [7%float]])) = [4%float].
Proof. reflexivity. Qed.

Lemma meter_update_short_vector_witness :
  exists self',
    AverageMeterDDP.update None (AverageMeterDDP.init None 2) [5%float] =
      (self', Raise IndexError) /\
    AverageMeterDDP.count self' = 0 + 1 /\
    (forall j x, [5%float] !! j = Some x ->
       AverageMeterDDP.val self' !! j = Some x /\
       AverageMeterDDP.sum self' !! j =
         (s ← AverageMeterDDP.sum (AverageMeterDDP.init None 2) !! j;
          Some (PrimFloat.add s x))) /\
    (forall j, (1 <= j)%nat ->
       AverageMeterDDP.val self' !! j = AverageMeterDDP.val (AverageMeterDDP.init None 2) !! j /\
       AverageMeterDDP.sum self' !! j = AverageMeterDDP.sum (AverageMeterDDP.init None 2) !! j).
Proof.
  apply (meter_update_short_vector (AverageMeterDDP.init None 2) [5%float]);
    try reflexivity.
  simpl. lia.
Defined.

Lemma meter_reset_starts_over_witness :
  exists self self1 self',
    AverageMeterDDP.updates None (AverageMeterDDP.init None 1) [[9%float]] = (self, Ok tt) /\
    AverageMeterDDP.updates None (AverageMeterDDP.reset self) [[2%float]] = (self1, Ok tt) /\
    AverageMeterDDP.update None self1 [4%float] = (self', Ok tt) /\
    AverageMeterDDP.count self' = Z.of_nat 1 + 1 /\
    forall i, (i < 1)%nat ->
      AverageMeterDDP.avg self' !! i =
      Some (arithmetic_mean (slot i <$> [[2%float]] ++ [[4%float]])).
Proof.
  apply (meter_reset_starts_over 1 [[9%float]] [[2%float]] [4%float]).
  - repeat constructor.
  - repeat constructor.
  - simpl. lia.
Defined.


(** ** [MultiStreamShared.forward]: what [squeeze()] does to small batches *)

Section SharedForwardFacts.
Import Torch.

(** X5: [squeeze()] drops every axis of extent one, not only the stacked
    one.  With at least two streams and a batch of one sample the output
    of [MultiStreamShared.forward] has shape [(1,)], not [(1, 1)]; with a
    single stream and a batch of at least two samples the stream axis is
    dropped and the linear layer refuses the input. *)
Theorem shared_forward_squeeze_edge_cases (batch num_m : Z) (img flow : module)
    (x : list tensor) :
  Z.of_nat (length x) = num_m ->
  (forall inp, call img inp = Ok [batch; 1]) ->
  (forall inp, call flow inp = Ok [batch; 1]) ->
  (2 <= num_m -> batch = 1 ->
   MultiStreamShared.forward (MultiStreamShared.init img flow num_m) x = Ok [1]) /\
  (num_m = 1 -> 2 <= batch ->
   MultiStreamShared.forward (MultiStreamShared.init img flow num_m) x = Raise RuntimeError).
Proof.
  intros Hlen Himg Hflow.
  destruct (shared_modules_lookup img flow num_m) as (Hi & Hf & Hfc).
  unfold MultiStreamShared.forward. rewrite Hi, Hf, Hfc.
  cbn [MultiStreamShared.num_models MultiStreamShared.init].
  rewrite Hlen, Z.eqb_refl. cbn [py_assert mbind result_bind].
  rewrite (for_each_const _ [batch; 1]);
    [|intros [i inp]; destruct (i mod 2 =? 0)%nat; [apply Himg|apply Hflow]].
  unfold enumerate. rewrite length_zip_with, length_seq, Nat.min_id.
  destruct (length x) as [|n] eqn:Hx.
  { split; intros; simpl in Hlen; lia. }
  cbn [mbind result_bind]. rewrite stack_replicate by (simpl; lia).
  cbn [take drop app mbind result_bind]. rewrite Hlen.
  unfold squeeze. cbn [List.filter].
  split.
  - intros Hn ->.
    replace (num_m =? 1) with false by (symmetry; apply Z.eqb_neq; lia).
    cbn. by rewrite Z.eqb_refl.
  - intros -> Hb.
    replace (batch =? 1) with false by (symmetry; apply Z.eqb_neq; lia).
    cbn. replace (batch =? 1) with false by (symmetry; apply Z.eqb_neq; lia). done.
Qed.

End SharedForwardFacts.

Lemma shared_forward_squeeze_edge_cases_witness :
  MultiStreamShared.forward
    (MultiStreamShared.init (scalar_backbone 1) (scalar_backbone 1) 2)
    [[1; 1; 15; 97; 127]; [1; 2; 15; 97; 127]] = Ok [1].
Proof.
  apply (proj1 (shared_forward_squeeze_edge_cases 1 2 (scalar_backbone 1) (scalar_backbone 1)
                  [[1; 1; 15; 97; 127]; [1; 2; 15; 97; 127]]
                  eq_refl (fun _ => eq_refl) (fun _ => eq_refl))).
  - lia.
  - reflexivity.
Defined.

Lemma multistream_shared_forward_witness :
  MultiStreamShared.forward
    (MultiStreamShared.init (scalar_backbone 4) (scalar_backbone 4) 2)
    [[4; 1; 15; 97; 127]; [4; 2; 15; 97; 127]] = Ok [4; 1].
Proof.
  apply (proj2 (multistream_shared_forward 4 2 (scalar_backbone 4) (scalar_backbone 4)
                  [[4; 1; 15; 97; 127]; [4; 2; 15; 97; 127]])).
  - reflexivity.
  - lia.
  - lia.
  - reflexivity.
  - reflexivity.
Defined.


(** ** Padding and looping *)

Section PadFacts.
Context {px : Type}.
Variable of_float : float -> px.
Variable tr : transforms.
Implicit Types (img : ndarray px).

Lemma wf_rank4 img l h w c :
  Np.wf img -> shape img = [l; h; w; c] ->
  0 <= l /\ 0 <= Np.size_of [h; w; c] /\
  length (data img) = (Z.to_nat l * Z.to_nat (Np.size_of [h; w; c]))%nat.
Proof.
  intros [Hnn Hlen] Hsh. rewrite Hsh in *.
  inversion Hnn as [|? ? Hl Hrest]; subst.
  pose proof (size_of_nonneg _ Hrest) as Hk.
  split; [done|]. split; [done|].
  rewrite Hlen. change (Np.size_of (l :: [h; w; c])) with (l * Np.size_of [h; w; c]).
  apply Z2Nat.inj_mul; lia.
Qed.

(** X6: [t_pad_length] on a well-formed video of fewer than
    [target_length] frames returns a well-formed video of exactly
    [target_length] frames: the frames of the input in order, then frames
    that are black throughout. *)
Theorem t_pad_length_appends_black_frames img l h w c :
  Np.wf img -> shape img = [l; h; w; c] -> l < target_length tr ->
  exists r,
    t_pad_length of_float tr img = Ok r /\
    shape r = [target_length tr; h; w; c] /\
    Np.wf r /\
    (forall i, Z.of_nat i < l -> Np.frame r i = Np.frame img i) /\
    (forall i, l <= Z.of_nat i < target_length tr ->
       Np.frame r i =
       Ok (mk_ndarray [h; w; c]
             (replicate (Z.to_nat (Np.size_of [h; w; c])) (of_float (black_val tr))))).
Proof.
  intros Hwf Hsh Hlt.
  destruct (wf_rank4 img l h w c Hwf Hsh) as (Hl & Hk & Hlen).
  unfold t_pad_length, Np.shape_at, Np.pad0_rank4. rewrite Hsh.
  cbn [lookup list_lookup mbind result_bind].
  replace (0 <? target_length tr - l) with true by (symmetry; apply Z.ltb_lt; lia).
  replace (l + (target_length tr - l)) with (target_length tr) by lia.
  set (k := Np.size_of [h; w; c]) in *.
  set (b := of_float (black_val tr)).
  eexists. split; [reflexivity|]. split; [reflexivity|].
  assert (Hpad : Z.to_nat ((target_length tr - l) * k) =
                 ((Z.to_nat (target_length tr) - Z.to_nat l) * Z.to_nat k)%nat).
  { rewrite Z2Nat.inj_mul by lia. f_equal. lia. }
  split; [|split].
  - split; cbn [shape data].
    + destruct Hwf as [Hnn _]. rewrite Hsh in Hnn.
      inversion Hnn; subst. constructor; [lia|done].
    + rewrite length_app, length_replicate, Hlen, Hpad.
      change (Np.size_of [target_length tr; h; w; c]) with (target_length tr * k).
      rewrite Z2Nat.inj_mul by lia. nia.
  - intros i Hi. unfold Np.frame. cbn [shape data]. rewrite Hsh.
    replace (Z.of_nat i <? target_length tr) with true by (symmetry; apply Z.ltb_lt; lia).
    replace (Z.of_nat i <? l) with true by (symmetry; apply Z.ltb_lt; lia).
    fold k. do 2 f_equal.
    rewrite drop_app_le by (rewrite Hlen; nia).
    rewrite take_app_le; [done|]. rewrite length_drop, Hlen.
    assert (S i <= Z.to_nat l)%nat by lia. nia.
  - intros i Hi. unfold Np.frame. cbn [shape data].
    replace (Z.of_nat i <? target_length tr) with true by (symmetry; apply Z.ltb_lt; lia).
    fold k. do 2 f_equal.
    rewrite drop_app_ge by (rewrite Hlen; nia).
    rewrite drop_replicate, take_replicate. f_equal.
    rewrite Hpad, Hlen.
    assert (Z.to_nat l <= i)%nat by lia.
    assert (S i <= Z.to_nat (target_length tr))%nat by lia. nia.
Qed.

End PadFacts.

Lemma t_pad_length_appends_black_frames_witness :
  exists r,
    t_pad_length IntPixels.of_float (plain_transforms 3) IntPixels.square = Ok r /\
    shape r = [3; 2; 2; 1] /\
    Np.wf r /\
    (forall i, Z.of_nat i < 1 -> Np.frame r i = Np.frame IntPixels.square i) /\
    (forall i, 1 <= Z.of_nat i < 3 ->
       Np.frame r i =
       Ok (mk_ndarray [2; 2; 1] (replicate (Z.to_nat (Np.size_of [2; 2; 1])) 0))).
Proof.
  apply (t_pad_length_appends_black_frames IntPixels.of_float (plain_transforms 3)
           IntPixels.square 1 2 2 1).
  - split; [repeat constructor; lia|reflexivity].
  - reflexivity.
  - reflexivity.
Defined.


Section PadSizeFacts.
Context {px : Type}.
Variable of_float : float -> px.
Variable tr : transforms.
Implicit Types (img : ndarray px).

Lemma half_negative d : half d < 0 <-> d <= -2.
Proof. unfold half. Z.to_euclidean_division_equations. lia. Qed.

Lemma half_twice d : 0 <= d -> 2 * half d = d - d mod 2.
Proof. unfold half. Z.to_euclidean_division_equations. lia. Qed.

(** X7: [t_pad_size] on a video of rank four.  A video that is at least
    as high and as wide as the target is returned as it is.  Otherwise
    each side gets [int(difference / 2)] black rows or columns: when one
    extent exceeds its target by two or more the pad width is negative
    and [np.pad] raises; else the new height and width are the old ones
    plus twice that, so that an odd difference leaves the video one row
    or column short of the target. *)
Theorem t_pad_size_shape img l h w c :
  shape img = [l; h; w; c] ->
  let dh := target_height tr - h in
  let dw := target_width tr - w in
  (dh <= 0 -> dw <= 0 -> t_pad_size of_float tr img = Ok img) /\
  (0 < dh \/ 0 < dw -> dh <= -2 \/ dw <= -2 ->
   t_pad_size of_float tr img = Raise (ValueError NegativePad)) /\
  (0 < dh \/ 0 < dw -> -2 < dh -> -2 < dw ->
   exists r, t_pad_size of_float tr img = Ok r /\
             shape r = [l; h + 2 * half dh; w + 2 * half dw; c]) /\
  (0 < dh \/ 0 < dw -> 0 <= dh -> 0 <= dw ->
   exists r, t_pad_size of_float tr img = Ok r /\
             shape r = [l; target_height tr - dh mod 2; target_width tr - dw mod 2; c]).
Proof.
  intros Hsh dh dw.
  assert (Hgrow : 0 < dh \/ 0 < dw ->
            t_pad_size of_float tr img =
            Np.pad_hw img (half dh) (half dw) (of_float (black_val tr))).
  { intros Hg. unfold t_pad_size, Np.shape_at. rewrite Hsh.
    cbn [lookup list_lookup mbind result_bind].
    destruct (Z.ltb_spec h (target_height tr)); cbn [mbind result_bind]; [done|].
    replace (w <? target_width tr) with true by (symmetry; apply Z.ltb_lt; lia). done. }
  assert (Hok : 0 < dh \/ 0 < dw -> -2 < dh -> -2 < dw ->
            t_pad_size of_float tr img =
            Ok (mk_ndarray [l; h + 2 * half dh; w + 2 * half dw; c]
                  (data (match Np.pad_hw img (half dh) (half dw) (of_float (black_val tr)) with
                         | Ok r => r | Raise _ => img end)))).
  { intros Hg Hh Hw. rewrite (Hgrow Hg). unfold Np.pad_hw.
    replace (half dh <? 0) with false
      by (symmetry; apply Z.ltb_ge; pose proof (half_negative dh); lia).
    replace (half dw <? 0) with false
      by (symmetry; apply Z.ltb_ge; pose proof (half_negative dw); lia).
    cbn [orb]. by rewrite Hsh. }
  split; [|split; [|split]].
  - intros Hh Hw. unfold t_pad_size, Np.shape_at. rewrite Hsh.
    cbn [lookup list_lookup mbind result_bind].
    replace (h <? target_height tr) with false by (symmetry; apply Z.ltb_ge; lia).
    cbn [mbind result_bind].
    replace (w <? target_width tr) with false by (symmetry; apply Z.ltb_ge; lia). done.
  - intros Hg Hneg. rewrite (Hgrow Hg). unfold Np.pad_hw.
    replace ((half dh <? 0) || (half dw <? 0)) with true; [done|].
    symmetry. apply orb_true_iff. rewrite !Z.ltb_lt, !half_negative. done.
  - intros Hg Hh Hw. rewrite (Hok Hg Hh Hw). by eexists.
  - intros Hg Hh Hw. rewrite (Hok Hg) by lia. eexists. split; [done|].
    cbn [shape]. rewrite !half_twice by done. subst dh dw. do 2 f_equal; [lia|f_equal; lia].
Qed.

End PadSizeFacts.

(** A frame of two rows and two columns padded towards five by five
    comes out four by four. *)
Lemma t_pad_size_shape_witness :
  exists r,
    t_pad_size IntPixels.of_float
      (mk_transforms false false false false 1 false 1 false 5 5 false false false false 1)
      IntPixels.square = Ok r /\
    shape r = [1; 5 - 3 mod 2; 5 - 3 mod 2; 1].
Proof.
  apply (proj2 (proj2 (proj2
           (t_pad_size_shape IntPixels.of_float
              (mk_transforms false false false false 1 false 1 false 5 5
                 false false false false 1)
              IntPixels.square 1 2 2 1 eq_refl)))).
  - left. reflexivity.
  - discriminate.
  - discriminate.
Defined.


Section LoopContentFacts.
Context {px : Type}.
Variable uint8 : px -> px.
Variable tr : transforms.
Implicit Types (img org : ndarray px).

(** The loop after [j] whole copies of the video have been put together. *)
Lemma loop_rounds_repeats fuel org img m sh (j : nat) :
  shape org = m :: sh -> 0 < m ->
  shape img = Z.of_nat j * m :: sh ->
  data img = concat (replicate j (data org)) ->
  Z.of_nat j * m <= target_length tr ->
  (Z.to_nat (target_length tr - Z.of_nat j * m) <= fuel)%nat ->
  loop_rounds tr fuel org img =
  Ok (mk_ndarray (target_length tr :: sh)
        (concat (replicate (Z.to_nat (target_length tr / m)) (data org))
         ++ take (Z.to_nat (target_length tr mod m) * Z.to_nat (Np.size_of sh)) (data org))).
Proof.
  intros Horg Hm. revert img j.
  assert (Hdone : forall img (j : nat),
            shape img = Z.of_nat j * m :: sh ->
            data img = concat (replicate j (data org)) ->
            Z.of_nat j * m = target_length tr ->
            img = mk_ndarray (target_length tr :: sh)
                    (concat (replicate (Z.to_nat (target_length tr / m)) (data org))
                     ++ take (Z.to_nat (target_length tr mod m)
                              * Z.to_nat (Np.size_of sh)) (data org))).
  { intros [s d] j Hs Hd Hj. cbn [shape data] in *. subst s d. rewrite <- Hj.
    rewrite Z.div_mul, Z.mod_mul by lia. rewrite Nat2Z.id. cbn [Z.to_nat Nat.mul take].
    by rewrite app_nil_r. }
  induction fuel as [|fuel IH]; intros img j Himg Hdata Hle Hfuel.
  - cbn [loop_rounds]. unfold Np.len. rewrite Himg. cbn [mbind result_bind].
    replace (Z.of_nat j * m <? target_length tr) with false
      by (symmetry; apply Z.ltb_ge; lia).
    f_equal. apply (Hdone img j); (done || lia).
  - cbn [loop_rounds]. unfold Np.len. rewrite Himg, Horg. cbn [mbind result_bind].
    destruct (Z.ltb_spec (Z.of_nat j * m) (target_length tr)) as [Hlt|Hge];
      [|f_equal; apply (Hdone img j); (done || lia)].
    destruct (Z.leb_spec m (target_length tr - Z.of_nat j * m)) as [Hfit|Hcut].
    + cbn [mbind result_bind]. unfold Np.append0. rewrite Himg, Horg.
      rewrite decide_True by done. cbn [mbind result_bind].
      apply (IH _ (S j)); cbn [shape data].
      * f_equal. lia.
      * rewrite Hdata, replicate_S_end, concat_app. cbn [concat]. by rewrite app_nil_r.
      * lia.
      * lia.
    + unfold Np.slice0. rewrite Horg.
      rewrite (slice_bounds_inside m 0 (target_length tr - Z.of_nat j * m)) by lia.
      cbn [mbind result_bind]. unfold Np.append0. rewrite Himg. cbn [shape].
      rewrite decide_True by done. cbn [mbind result_bind data].
      assert (Hq : target_length tr / m = Z.of_nat j).
      { symmetry. apply (Z.div_unique _ _ _ (target_length tr - Z.of_nat j * m)); lia. }
      assert (Hr : target_length tr mod m = target_length tr - Z.of_nat j * m).
      { symmetry. apply (Z.mod_unique _ _ (Z.of_nat j)); lia. }
      assert (Hend : forall f a, shape a = target_length tr :: sh ->
                loop_rounds tr f org a = Ok a).
      { intros f a Ha. destruct f; cbn [loop_rounds]; unfold Np.len; rewrite Ha;
          cbn [mbind result_bind]; by rewrite Z.ltb_irrefl. }
      rewrite Hend by (cbn [shape]; f_equal; lia).
      f_equal. rewrite Hq, Hr, Nat2Z.id, Hdata, Z.sub_0_r.
      change (Z.to_nat 0 * Z.to_nat (Np.size_of sh))%nat with 0%nat. rewrite drop_0.
      f_equal. f_equal. lia.
Qed.

(** X8: [t_loop_length] on a video with [m >= 1] frames.  A video that
    has [target_length] frames or more comes back as it is (cast to 8-bit
    unsigned integers); a shorter one comes back with exactly
    [target_length] frames: [target_length // m] whole copies of the
    video followed by its first [target_length % m] frames. *)
Theorem t_loop_length_repeats_video img m sh :
  shape img = m :: sh -> 0 < m ->
  (target_length tr <= m -> t_loop_length uint8 tr img = Ok (Np.astype uint8 img)) /\
  (m <= target_length tr ->
   t_loop_length uint8 tr img =
   Ok (Np.astype uint8
         (mk_ndarray (target_length tr :: sh)
            (concat (replicate (Z.to_nat (target_length tr / m)) (data img))
             ++ take (Z.to_nat (target_length tr mod m) * Z.to_nat (Np.size_of sh))
                  (data img))))).
Proof.
  intros Hsh Hm. unfold t_loop_length. split.
  - intros Hle.
    assert (Hend : forall f, loop_rounds tr f img img = Ok img).
    { intros f. destruct f; cbn [loop_rounds]; unfold Np.len; rewrite Hsh;
        cbn [mbind result_bind];
        by replace (m <? target_length tr) with false by (symmetry; apply Z.ltb_ge; lia). }
    by rewrite Hend.
  - intros Hle.
    rewrite (loop_rounds_repeats _ img img m sh 1); try done.
    + rewrite Hsh. f_equal. lia.
    + cbn. by rewrite app_nil_r.
    + lia.
    + lia.
Qed.

End LoopContentFacts.

(** Three frames looped to a length of seven. *)
Lemma t_loop_length_repeats_video_witness :
  t_loop_length IntPixels.uint8 (plain_transforms 7) (IntPixels.ramp 3) =
  Ok (mk_ndarray [7; 1; 1; 1] [0; 1; 2; 0; 1; 2; 0]).
Proof.
  apply (proj2 (t_loop_length_repeats_video IntPixels.uint8 (plain_transforms 7)
                  (IntPixels.ramp 3) 3 [1; 1; 1] eq_refl eq_refl)).
  discriminate.
Defined.

(** A video without frames, a target of two frames, a thousand rounds. *)
Lemma loop_rounds_never_ends_witness :
  loop_rounds (plain_transforms 2) 1000 (mk_ndarray [0; 1; 1; 1] ([] : list Z))
    (mk_ndarray [0; 1; 1; 1] []) = Raise Hang.
Proof.
  apply (loop_rounds_never_ends (plain_transforms 2) 1000 [1; 1; 1]).
  reflexivity.
Defined.


(** ** The rectangle of [t_local_blackout] and [t_local_intensity] *)

Lemma magnitude_nonneg m e : 0 <= fst (PyFloat.magnitude m e).
Proof.
  unfold PyFloat.magnitude. destruct (0 <=? e) eqn:He; cbn [fst].
  - apply Z.leb_le in He. apply Z.mul_nonneg_nonneg; [lia|]. by apply Z.pow_nonneg.
  - apply Z.div_pos; [lia|]. apply Z.pow_pos_nonneg; [lia|]. apply Z.leb_gt in He. lia.
Qed.

Lemma int_abs_nonneg x z : int_abs x = Ok z -> 0 <= z.
Proof.
  unfold int_abs, PyFloat.to_int. rewrite abs_spec.
  destruct (Prim2SF x) as [s| s| |s m e]; cbn [SFabs]; try (by intros [= <-]); try done.
  pose proof (magnitude_nonneg m e) as Hm.
  destruct (PyFloat.magnitude m e) as [q fr]. cbn [fst] in Hm. by intros [= <-].
Qed.

Section RectangleFacts.
Context {px : Type}.
Implicit Types (video : ndarray px).

(** X10: the random rectangle drawn by [t_local_blackout] and
    [t_local_intensity].  When the draws go through, the sizes are not
    negative and the rectangle lies inside the frame without reaching
    its last row and its last column ([randint] excludes its upper
    bound); a drawn height that is not below the frame height makes
    [np.random.randint] raise [ValueError]. *)
Theorem draw_rect_inside_frame video h w std_h std_w z_h z_w u_h u_w :
  Np.shape_at video 1 = Ok h -> Np.shape_at video 2 = Ok w ->
  (forall pos_h size_h pos_w size_w,
     draw_rect video std_h std_w z_h z_w u_h u_w = Ok (pos_h, size_h, pos_w, size_w) ->
     0 <= size_h /\ 0 <= pos_h /\ pos_h + size_h < h /\
     0 <= size_w /\ 0 <= pos_w /\ pos_w + size_w < w) /\
  (forall d_h size_h d_w size_w,
     normal std_h z_h = Ok d_h -> int_abs d_h = Ok size_h ->
     normal std_w z_w = Ok d_w -> int_abs d_w = Ok size_w ->
     h <= size_h ->
     draw_rect video std_h std_w z_h z_w u_h u_w = Raise (ValueError InvalidRange)).
Proof.
  intros Hh Hw. split.
  - intros pos_h size_h pos_w size_w H. unfold draw_rect in H.
    bind_inv H. bind_inv H. bind_inv H. bind_inv H. rewrite Hh in H.
    cbn [mbind result_bind] in H. bind_inv H. rewrite Hw in H.
    cbn [mbind result_bind] in H. bind_inv H. injection H as <- <- <- <-.
    pose proof (int_abs_nonneg _ _ Ha0). pose proof (int_abs_nonneg _ _ Ha2).
    unfold randint in Ha3, Ha4.
    destruct (Z.ltb_spec 0 (h - a0)); [|discriminate].
    destruct (Z.ltb_spec 0 (w - a2)); [|discriminate].
    injection Ha3 as <-. injection Ha4 as <-.
    pose proof (Z.mod_pos_bound u_h (h - a0)). pose proof (Z.mod_pos_bound u_w (w - a2)).
    lia.
  - intros d_h size_h d_w size_w Hdh Hsh Hdw Hsw Hbig. unfold draw_rect.
    rewrite Hdh. cbn [mbind result_bind]. rewrite Hsh. cbn [mbind result_bind].
    rewrite Hdw. cbn [mbind result_bind]. rewrite Hsw. cbn [mbind result_bind].
    rewrite Hh. cbn [mbind result_bind]. unfold randint.
    by replace (0 <? h - size_h) with false by (symmetry; apply Z.ltb_ge; lia).
Qed.

(** A rectangle without rows or without columns changes nothing. *)
Lemma map_rect_empty video l h w c y0 y1 x0 x1 (f : px -> px) :
  Np.wf video -> shape video = [l; h; w; c] ->
  snd (Np.slice_bounds h y0 y1) = 0 \/ snd (Np.slice_bounds w x0 x1) = 0 ->
  Np.map_rect video y0 y1 x0 x1 f = Ok video.
Proof.
  intros Hwf Hsh Hempty.
  destruct (wf_rank4 video l h w c Hwf Hsh) as (Hl & Hk & Hlen).
  destruct Hwf as [Hnn _]. rewrite Hsh in Hnn.
  inversion Hnn as [|? ? _ Hnn1]; inversion Hnn1 as [|? ? Hh Hnn2];
    inversion Hnn2 as [|? ? Hw Hnn3]; inversion Hnn3 as [|? ? Hc _]; subst.
  unfold Np.map_rect. rewrite Hsh.
  destruct (Np.slice_bounds h y0 y1) as [ys ny] eqn:Hys.
  destruct (Np.slice_bounds w x0 x1) as [xs nx] eqn:Hxs.
  cbn [snd] in Hempty.
  pose proof (slice_bounds_range h y0 y1 ys ny Hh Hys) as (Hys0 & Hny & _).
  pose proof (slice_bounds_range w x0 x1 xs nx Hw Hxs) as (Hxs0 & Hnx & _).
  assert (Hframe : forall fd, length fd = Z.to_nat (Np.size_of [h; w; c]) ->
            Np.map_rect_data h w c (ys, ny) (xs, nx) f fd = fd).
  { intros fd Hfd. unfold Np.map_rect_data.
    rewrite (imap_ext _ (fun _ r => r)).
    - rewrite imap_same, concat_rows. apply take_ge. rewrite Hfd.
      cbn [Np.size_of foldr]. rewrite Z.mul_1_r, <- Z2Nat.inj_mul by lia. lia.
    - intros y r _. cbn beta.
      destruct Hempty as [-> | ->].
      + destruct (Nat.leb_spec (Z.to_nat ys) y), (Nat.ltb_spec y (Z.to_nat (ys + 0)));
          cbn [andb]; (done || lia).
      + destruct (_ && _); [|done].
        rewrite Z.mul_0_l, Z.add_0_r. cbn [Z.to_nat take fmap list_fmap app].
        apply take_drop. }
  f_equal. destruct video as [s d]. cbn [shape data] in *. subst s. f_equal.
  rewrite (fmap_id_on (Np.map_rect_data h w c (ys, ny) (xs, nx) f)).
  - rewrite concat_rows. apply take_ge. rewrite Hlen. lia.
  - eapply Forall_impl; [apply rows_row_length; rewrite Hlen; lia|].
    intros fd Hfd. by apply Hframe.
Qed.

End RectangleFacts.


Section EmptyRectangleFacts.
Context {px : Type}.
Variable of_float : float -> px.
Variable add_float : px -> float -> px.
Variable clip : float -> float -> px -> px.
Variable tr : transforms.
Variable au : augmentations.
Implicit Types (video : ndarray px).

Lemma slice_bounds_empty n a : snd (Np.slice_bounds n a (a + 0)) = 0.
Proof. rewrite Z.add_0_r. unfold Np.slice_bounds. cbn [snd]. lia. Qed.

(** X11: a drawn rectangle size of zero ([int(abs(...))] of a draw below
    one in magnitude) makes the local augmentations do nothing: on a
    well-formed video [t_local_blackout] then returns the video with
    every pixel as it was, and [t_local_intensity] returns it clipped
    and otherwise unchanged. *)
Theorem local_rectangle_of_size_zero video l h w c z_h z_w u_h u_w z_val :
  Np.wf video -> shape video = [l; h; w; c] ->
  (forall pos_h size_h pos_w size_w,
     draw_rect video (blackout_h_std_dev au) (blackout_w_std_dev au) z_h z_w u_h u_w
       = Ok (pos_h, size_h, pos_w, size_w) ->
     size_h = 0 \/ size_w = 0 ->
     t_local_blackout of_float tr au video z_h z_w u_h u_w = Ok video) /\
  (forall pos_h size_h pos_w size_w v,
     draw_rect video (intensity_h_std_dev au) (intensity_w_std_dev au) z_h z_w u_h u_w
       = Ok (pos_h, size_h, pos_w, size_w) ->
     normal (intensity_var au) z_val = Ok v ->
     size_h = 0 \/ size_w = 0 ->
     t_local_intensity add_float clip tr au video z_h z_w u_h u_w z_val =
     Ok (Np.astype (clip (black_val tr) (white_val tr)) video)).
Proof.
  intros Hwf Hsh. split.
  - intros pos_h size_h pos_w size_w Hdraw Hzero.
    unfold t_local_blackout. rewrite Hdraw. cbn [mbind result_bind].
    apply (map_rect_empty video l h w c); [done|done|].
    destruct Hzero as [-> | ->]; [left|right]; apply slice_bounds_empty.
  - intros pos_h size_h pos_w size_w v Hdraw Hv Hzero.
    unfold t_local_intensity, local_intensity_written. rewrite Hdraw.
    cbn [mbind result_bind]. rewrite Hv. cbn [mbind result_bind].
    rewrite (map_rect_empty video l h w c); [done|done|done|].
    destruct Hzero as [-> | ->]; [left|right]; apply slice_bounds_empty.
Qed.

End EmptyRectangleFacts.

Lemma draw_rect_inside_frame_witness :
  draw_rect IntPixels.square 1%float 1%float 5%float 0%float 0 0 =
  Raise (ValueError InvalidRange).
Proof.
  apply (proj2 (draw_rect_inside_frame IntPixels.square 2 2 1%float 1%float 5%float 0%float
                  0 0 eq_refl eq_refl) 5%float 5 0%float 0); try reflexivity.
  discriminate.
Defined.

Lemma local_rectangle_of_size_zero_witness :
  t_local_blackout IntPixels.of_float (plain_transforms 1) (blackout_augmentations 1%float)
    IntPixels.square 0%float 1%float 1 0 = Ok IntPixels.square.
Proof.
  assert (Hwf : Np.wf IntPixels.square) by (split; [repeat constructor; lia|reflexivity]).
  apply (proj1 (local_rectangle_of_size_zero IntPixels.of_float (fun x _ => x)
                  (fun _ _ x => x) (plain_transforms 1) (blackout_augmentations 1%float)
                  IntPixels.square 1 2 2 1 0%float 1%float 1 0 0%float Hwf eq_refl)
           1 0 0 1).
  - reflexivity.
  - by left.
Defined.


(** ** [transform_size]: configurations that cannot work, and one that
    always does *)

Section SizeConfigFacts.
Context {px : Type}.
Variable uint8 : px -> px.
Variable average : list px -> px.
Variable of_float : float -> px.
Variable resize : float -> ndarray px -> list Z -> result (ndarray px).
Variable tr : transforms.
Implicit Types (img r : ndarray px).

Lemma loop_rounds_rank fuel org img k r :
  length (shape org) = k -> length (shape img) = k ->
  loop_rounds tr fuel org img = Ok r -> length (shape r) = k.
Proof.
  intros Horg. revert img. induction fuel as [|fuel IH]; intros img Himg H; simpl in H.
  - bind_inv H. destruct (a <? target_length tr); [discriminate|]. by injection H as <-.
  - bind_inv H. destruct (a <? target_length tr); [|by injection H as <-].
    bind_inv H. bind_inv H. bind_inv H.
    apply (IH a2); [|done].
    unfold Np.append0 in Ha2.
    destruct (shape img) as [|n sa] eqn:Hsa; [discriminate|].
    destruct (shape a1) as [|n' sb]; [discriminate|].
    destruct (decide _); [|discriminate]. injection Ha2 as <-. done.
Qed.

Lemma length_stages_rank3 img cf rw fps rwaves r :
  length (shape img) = 3%nat ->
  length_stages uint8 of_float tr img cf rw fps rwaves = Ok r ->
  length (shape r) = 3%nat.
Proof.
  intros Hrank H. unfold length_stages in H.
  bind_inv H. bind_inv H. bind_inv H.
  assert (H0 : length (shape a) = 3%nat).
  { destruct (crop_sides tr || crop_length tr); [|by injection Ha as <-].
    unfold t_crop in Ha. bind_inv Ha. bind_inv Ha. bind_inv Ha.
    assert (Hcs : length a3 = 4%nat).
    { destruct a2; [bind_inv Ha3|]; by injection Ha3 as <-. }
    unfold crop in Ha4.
    destruct a3 as [|p1 [|p2 [|p3 [|p4 [|]]]]]; try discriminate Hcs.
    rewrite decide_False in Ha4 by (rewrite Hrank; simpl; lia). discriminate. }
  assert (H1 : length (shape a0) = 3%nat).
  { destruct (rwave_data_only tr); [|by injection Ha0 as <-].
    bind_inv Ha0. bind_inv Ha0. bind_inv Ha0.
    unfold t_crop_rwave in Ha0. bind_inv Ha0.
    destruct (a5 =? target_fphb tr); [by injection Ha0 as <-|].
    bind_inv Ha0. destruct a6 as [s e]. unfold Np.slice0 in Ha0.
    destruct (shape a) as [|n sh'] eqn:Hsa; [discriminate|].
    destruct (Np.slice_bounds n s e). by injection Ha0 as <-. }
  assert (H2 : length (shape a1) = 3%nat).
  { destruct (loop_length tr); [|by injection Ha1 as <-].
    unfold t_loop_length in Ha1. bind_inv Ha1. injection Ha1 as <-.
    cbn [Np.astype shape]. by eapply loop_rounds_rank. }
  destruct (pad_length tr); [|by injection H as <-].
  unfold t_pad_length in H. bind_inv H.
  destruct (0 <? _); [|by injection H as <-].
  unfold Np.pad0_rank4 in H.
  destruct (shape a1) as [|x1 [|x2 [|x3 [|x4 [|]]]]]; discriminate.
Qed.

(** X12: with [grayscale] enabled [transform_size] never returns a
    video.  [t_grayscale_mean] hands on a video of rank three (the
    channel axis is averaged away, not kept with extent one), every later
    stage keeps that rank or raises, and the final check reads
    [img.shape[3]].  The resize routine is taken to return a video of
    rank three when it is given one and a three-item output shape. *)
Theorem transform_size_grayscale_never_returns img l h w c fps hr rwaves :
  shape img = [l; h; w; c] -> grayscale tr = true ->
  (forall cval a osh r, resize cval a osh = Ok r -> length osh = 3%nat ->
     length (shape a) = 3%nat -> length (shape r) = 3%nat) ->
  forall v, transform_size uint8 average of_float resize tr img fps hr rwaves <> Ok v.
Proof.
  intros Hsh Hg Hres v H. unfold transform_size in H. bind_inv H.
  unfold size_stages in Ha. bind_inv Ha. destruct a0 as [[img' cf] rw]. bind_inv Ha.
  assert (Hrank : length (shape img') = 3%nat).
  { unfold rescale_stages in Ha0. rewrite Hg in Ha0. unfold t_grayscale_mean in Ha0.
    rewrite Hsh in Ha0. cbn [reverse rev_append mbind result_bind] in Ha0.
    set (g := Np.astype uint8 _) in Ha0.
    assert (Hgr : length (shape g) = 3%nat) by done. clearbody g.
    apply bind_ok in Ha0 as ([img2 cf2] & Hstage & Ha0). injection Ha0 as <- <- <-.
    destruct (rescale_fps tr || resize_frames tr || rescale_fphb tr);
      [|by injection Hstage as <- <-].
    apply bind_ok in Hstage as (_ & _ & Hstage).
    apply bind_ok in Hstage as ([nl cf3] & _ & Hstage).
    apply bind_ok in Hstage as ([nh nw] & _ & Hstage).
    apply bind_ok in Hstage as (r0 & Hr0 & Hstage). injection Hstage as <- <-.
    unfold t_resize in Hr0. apply bind_ok in Hr0 as (r1 & Hr1 & Hr0).
    injection Hr0 as <-. cbn [Np.astype shape]. by apply (Hres _ _ _ _ Hr1). }
  pose proof (length_stages_rank3 _ _ _ _ _ _ Hrank Ha) as Hr.
  unfold shape_check, Np.shape_at in H.
  destruct (shape a !! 3%nat) eqn:Hl; [|discriminate].
  apply lookup_lt_Some in Hl. rewrite Hr in Hl. lia.
Qed.

Lemma rescale_stages_unbound_fphb img fps hr rwaves img' cf rw :
  rescale_fphb tr = false ->
  rescale_stages uint8 average resize tr img fps hr rwaves = Ok (img', cf, rw) ->
  cf = None.
Proof.
  intros Hf H. unfold rescale_stages in H. rewrite Hf in H.
  apply bind_ok in H as (g & _ & H).
  apply bind_ok in H as ([img2 cf2] & Hstage & H). injection H as <- <- <-.
  destruct (rescale_fps tr || resize_frames tr || false); [|by injection Hstage as <- <-].
  apply bind_ok in Hstage as (_ & _ & Hstage).
  apply bind_ok in Hstage as ([nl cf3] & Hlen & Hstage).
  apply bind_ok in Hstage as ([nh nw] & _ & Hstage).
  apply bind_ok in Hstage as (r0 & _ & Hstage). injection Hstage as <- <-.
  destruct (rescale_fps tr && _).
  - apply bind_ok in Hlen as (n & _ & Hlen). apply bind_ok in Hlen as (q & _ & Hlen).
    apply bind_ok in Hlen as (l & _ & Hlen). by injection Hlen as <- <-.
  - apply bind_ok in Hlen as (n & _ & Hlen). by injection Hlen as <- <-.
Qed.

(** X13: [rwave_data_only] needs [rescale_fphb].  With [rwave_data_only]
    enabled and [rescale_fphb] disabled no line of [transform_size]
    assigns [curr_fphb], which the r-wave crop reads: the call never
    returns a video, whatever the input. *)
Theorem transform_size_rwave_needs_rescale_fphb img fps hr rwaves :
  rwave_data_only tr = true -> rescale_fphb tr = false ->
  forall v, transform_size uint8 average of_float resize tr img fps hr rwaves <> Ok v.
Proof.
  intros Hrw Hf v H. unfold transform_size in H. bind_inv H.
  unfold size_stages in Ha. bind_inv Ha. destruct a0 as [[img' cf] rw]. bind_inv Ha.
  apply rescale_stages_unbound_fphb in Ha0 as ->; [|done].
  unfold length_stages in Ha. rewrite Hrw in Ha.
  apply bind_ok in Ha as (c1 & _ & Ha). apply bind_ok in Ha as (c2 & Hrwave & _).
  discriminate Hrwave.
Qed.

(** X14: frames-per-heartbeat rescaling on r-waves needs two r-waves.
    With [rescale_fphb] and [rwave_data_only] enabled (and [rescale_fps]
    and [grayscale] disabled) and fewer than two r-wave timestamps,
    [calc_rwave_data] leaves the longest interval at its initial [0] and
    [calc_rwave_fphb] divides by it: [transform_size] raises
    [ZeroDivisionError], whatever the video. *)
Theorem transform_size_fphb_without_heartbeat img fps hr rwaves :
  grayscale tr = false -> rescale_fps tr = false -> rescale_fphb tr = true ->
  rwave_data_only tr = true -> (length rwaves <= 1)%nat ->
  transform_size uint8 average of_float resize tr img fps hr rwaves =
  Raise ZeroDivisionError.
Proof.
  intros Hg Hfps Hfphb Hrw Hlen.
  unfold transform_size, size_stages, rescale_stages. rewrite Hg, Hfps, Hfphb.
  rewrite orb_true_r. cbn [andb negb orb py_assert mbind result_bind].
  rewrite Hrw. cbn [local mbind result_bind].
  assert (Hdata : calc_rwave_data rwaves = (0%float, (0%nat, 0%nat))).
  { destruct rwaves as [|r [|r' rest]]; [done|done|simpl in Hlen; lia]. }
  rewrite Hdata. reflexivity.
Qed.

End SizeConfigFacts.

Lemma transform_size_grayscale_never_returns_witness :
  ~ (exists v,
       transform_size IntPixels.uint8 IntPixels.average IntPixels.of_float
         IntPixels.nearest_resize (grayscale_transforms 3) (IntPixels.ramp 3)
         10%float 60%float [] = Ok v).
Proof.
  intros [v Hv]. revert v Hv.
  apply (transform_size_grayscale_never_returns IntPixels.uint8 IntPixels.average
           IntPixels.of_float IntPixels.nearest_resize (grayscale_transforms 3)
           (IntPixels.ramp 3) 3 1 1 1 10%float 60%float [] eq_refl eq_refl).
  intros cval a osh r H Hosh Hrank. unfold IntPixels.nearest_resize in H.
  destruct (_ && _); [|discriminate]. injection H as <-. cbn [shape].
  rewrite length_app, length_drop, Hosh, Hrank. reflexivity.
Defined.

Lemma transform_size_rwave_needs_rescale_fphb_witness :
  ~ (exists v,
       transform_size IntPixels.uint8 IntPixels.average IntPixels.of_float
         IntPixels.nearest_resize (rwave_only_transforms 3) (IntPixels.ramp 5)
         10%float 60%float [0%float; 300%float] = Ok v).
Proof.
  intros [v Hv]. revert v Hv.
  apply (transform_size_rwave_needs_rescale_fphb IntPixels.uint8 IntPixels.average
           IntPixels.of_float IntPixels.nearest_resize (rwave_only_transforms 3)
           (IntPixels.ramp 5) 10%float 60%float [0%float; 300%float] eq_refl eq_refl).
Defined.

(** The call of the witness ends where [curr_fphb] is read. *)
Example transform_size_rwave_only_run :
  transform_size IntPixels.uint8 IntPixels.average IntPixels.of_float
    IntPixels.nearest_resize (rwave_only_transforms 3) (IntPixels.ramp 5)
    10%float 60%float [0%float; 300%float] = Raise (UnboundLocalError "curr_fphb").
Proof. reflexivity. Qed.

Lemma transform_size_fphb_without_heartbeat_witness :
  transform_size IntPixels.uint8 IntPixels.average IntPixels.of_float
    IntPixels.nearest_resize (rwave_crop_transforms 5 5) (IntPixels.ramp 20)
    10%float 60%float [700%float] = Raise ZeroDivisionError.
Proof.
  apply (transform_size_fphb_without_heartbeat IntPixels.uint8 IntPixels.average
           IntPixels.of_float IntPixels.nearest_resize (rwave_crop_transforms 5 5)
           (IntPixels.ramp 20) 10%float 60%float [700%float]
           eq_refl eq_refl eq_refl eq_refl).
  simpl. lia.
Defined.


Section SizePipelineWorks.
Context {px : Type}.
Variable uint8 : px -> px.
Variable average : list px -> px.
Variable of_float : float -> px.
Variable resize : float -> ndarray px -> list Z -> result (ndarray px).
Variable tr : transforms.
Implicit Types (img r : ndarray px).

Lemma astype_wf (f : px -> px) r : Np.wf r -> Np.wf (Np.astype f r).
Proof. intros [Hnn Hlen]. split; cbn [Np.astype shape data]; [done|]. by rewrite length_fmap. Qed.

(** X15: resize, crop and loop together always reach the target shape.
    With [resize_frames], [crop_length] and [loop_length] enabled and
    [grayscale], [rwave_data_only] and the two rescale options disabled,
    [transform_size] returns a video of shape [(target_length,
    target_height, target_width, C)] for every video of shape
    [(L, H, W, C)] with at least one frame, whenever the resize routine
    returns a well-formed video of the requested size. *)
Theorem transform_size_resize_crop_loop img l h w c fps hr rwaves r0 :
  shape img = [l; h; w; c] -> 0 < l -> 0 < target_length tr ->
  grayscale tr = false -> rwave_data_only tr = false ->
  rescale_fps tr = false -> rescale_fphb tr = false ->
  resize_frames tr = true -> crop_length tr = true -> loop_length tr = true ->
  resize (black_val tr) img [l; target_height tr; target_width tr] = Ok r0 ->
  shape r0 = [l; target_height tr; target_width tr; c] -> Np.wf r0 ->
  exists v,
    transform_size uint8 average of_float resize tr img fps hr rwaves = Ok v /\
    shape v = [target_length tr; target_height tr; target_width tr; c].
Proof.
  intros Hsh Hl Ht Hg Hrw Hfps Hfphb Hrs Hcl Hll Hres Hr0 Hwf0.
  set (g := Np.astype uint8 r0).
  assert (Hgsh : shape g = [l; target_height tr; target_width tr; c]) by done.
  assert (Hgwf : Np.wf g) by by apply astype_wf.
  assert (Hstage : rescale_stages uint8 average resize tr img fps hr rwaves =
                   Ok (g, None, None)).
  { unfold rescale_stages. rewrite Hg, Hrw, Hfps, Hfphb, Hrs.
    cbn [orb andb negb py_assert mbind result_bind].
    unfold Np.shape_at. rewrite Hsh.
    cbn [lookup list_lookup mbind result_bind].
    unfold t_resize.
    destruct (Z.eqb_spec h (target_height tr)) as [->|Hh]; cbn [mbind result_bind].
    - destruct (Z.eqb_spec w (target_width tr)) as [->|Hw]; cbn [mbind result_bind];
        by rewrite Hres.
    - by rewrite Hres. }
  unfold transform_size, size_stages. rewrite Hstage. cbn [mbind result_bind].
  rewrite Hll, Hcl, Hrw. cbn [andb negb py_assert mbind result_bind].
  unfold length_stages. rewrite Hcl, Hrw, Hll, orb_true_r.
  rewrite (t_crop_unfold uint8 tr g l (target_height tr) (target_width tr) c Hgwf Hgsh).
  rewrite Hcl. cbn [andb].
  set (n := if target_length tr <? l then target_length tr else l).
  assert (Hn : 0 < n <= l /\ n <= target_length tr)
    by (subst n; destruct (Z.ltb_spec (target_length tr) l); lia).
  unfold Np.slice0. rewrite Hgsh.
  rewrite (slice_bounds_inside l 0 n) by lia. cbn [mbind result_bind].
  match goal with |- context [t_loop_length uint8 tr ?a] => set (cropped := a) end.
  destruct (t_loop_length_returns uint8 tr cropped (n - 0)
              [target_height tr; target_width tr; c]) as (r & Hr & Hrsh); [done|lia|].
  rewrite Hr. cbn [mbind result_bind].
  replace (Z.max (n - 0) (target_length tr)) with (target_length tr) in Hrsh by lia.
  assert (Hpad : (if pad_length tr then t_pad_length of_float tr r else Ok r) = Ok r).
  { destruct (pad_length tr); [|done].
    unfold t_pad_length, Np.shape_at. rewrite Hrsh. cbn [lookup list_lookup mbind result_bind].
    by rewrite Z.sub_diag. }
  rewrite Hpad. cbn [mbind result_bind].
  exists r. split; [|done].
  unfold shape_check, Np.shape_at. rewrite Hrsh. cbn [lookup list_lookup mbind result_bind].
  by rewrite decide_True.
Qed.

End SizePipelineWorks.

Lemma transform_size_resize_crop_loop_witness :
  exists v,
    transform_size IntPixels.uint8 IntPixels.average IntPixels.of_float
      IntPixels.nearest_resize (resize_crop_loop_transforms 5 2 2) (IntPixels.ramp 3)
      10%float 60%float [] = Ok v /\
    shape v = [5; 2; 2; 1].
Proof.
  apply (transform_size_resize_crop_loop IntPixels.uint8 IntPixels.average
           IntPixels.of_float IntPixels.nearest_resize (resize_crop_loop_transforms 5 2 2)
           (IntPixels.ramp 3) 3 1 1 1 10%float 60%float []
           (mk_ndarray [3; 2; 2; 1] [0; 0; 0; 0; 1; 1; 1; 1; 2; 2; 2; 2]));
    try reflexivity.
  split; [repeat constructor; lia|reflexivity].
Defined.


(** ** [calc_rwave_data] *)

(** The order [<] of binary64 numbers is irreflexive and transitive. *)
Lemma SFltb_irrefl x : SFltb x x = false.
Proof.
  unfold SFltb, SFcompare. destruct x as [s|s| |s m e]; try done; try (by destruct s).
  rewrite Z.compare_refl.
  change (PosDef.Pos.compare_cont Eq m m) with (Pos.compare m m).
  rewrite Pos.compare_refl. by destruct s.
Qed.

Lemma SFltb_trans x y z : SFltb x y = true -> SFltb y z = true -> SFltb x z = true.
Proof.
  unfold SFltb, SFcompare.
  destruct x as [sx|sx| |sx mx ex], y as [sy|sy| |sy my ey], z as [sz|sz| |sz mz ez];
    try discriminate; try reflexivity;
    try (destruct sx, sy, sz; (discriminate || reflexivity)).
  all: change PosDef.Pos.compare_cont with Pos.compare_cont.
  all: change (Pos.compare_cont Eq) with Pos.compare.
  all: destruct sx, sy, sz; try discriminate; try reflexivity.
  all: destruct (Z.compare_spec ex ey), (Z.compare_spec ey ez), (Z.compare_spec ex ez);
    try discriminate; try reflexivity; try lia.
  all: subst.
  all: destruct (Pos.compare_spec mx my), (Pos.compare_spec my mz), (Pos.compare_spec mx mz);
    cbn; try discriminate; try reflexivity; try lia.
Qed.

Lemma float_ltb_irrefl (x : float) : PrimFloat.ltb x x = false.
Proof. rewrite FloatAxioms.ltb_spec. apply SFltb_irrefl. Qed.

Lemma float_ltb_trans (x y z : float) :
  PrimFloat.ltb x y = true -> PrimFloat.ltb y z = true -> PrimFloat.ltb x z = true.
Proof. rewrite !FloatAxioms.ltb_spec. apply SFltb_trans. Qed.

(** What the scan has found when it has looked at the intervals before
    [n]. *)
Lemma rwave_scan_spec (rw pre rest : list float) (prev : float)
    (best : float * (nat * nat)) :
  rw = pre ++ prev :: rest ->
  (forall k x, (k < length pre)%nat -> rwave_interval rw k = Some x ->
     PrimFloat.ltb (fst best) x = false) ->
  (best = (0%float, (0%nat, 0%nat)) \/
   exists p, snd best = (p, S p) /\ rwave_interval rw p = Some (fst best) /\
             PrimFloat.ltb 0%float (fst best) = true) ->
  let res := rwave_scan (S (length pre)) prev rest best in
  (forall k x, rwave_interval rw k = Some x -> PrimFloat.ltb (fst res) x = false) /\
  (res = (0%float, (0%nat, 0%nat)) \/
   exists p, snd res = (p, S p) /\ rwave_interval rw p = Some (fst res) /\
             PrimFloat.ltb 0%float (fst res) = true).
Proof.
  revert pre prev best. induction rest as [|r rest IH]; intros pre prev best Hrw Hmax Hbest.
  - cbn [rwave_scan]. split; [|done]. intros k x Hk. apply (Hmax k x); [|done].
    unfold rwave_interval in Hk.
    destruct (rw !! k) eqn:H0; [|done]. cbn in Hk.
    destruct (rw !! S k) eqn:H1; [|done].
    apply lookup_lt_Some in H1. rewrite Hrw, length_app in H1. simpl in H1. lia.
  - cbn [rwave_scan Nat.pred].
    set (diff := PrimFloat.div (PrimFloat.sub r prev) 1000%float).
    assert (Hdiff : rwave_interval rw (length pre) = Some diff).
    { unfold rwave_interval. rewrite Hrw.
      rewrite (list_lookup_middle pre (r :: rest) prev (length pre)) by done. cbn.
      rewrite (cons_middle prev pre), app_assoc.
      rewrite (list_lookup_middle (pre ++ [prev]) rest r (S (length pre)));
        [done|rewrite length_app; simpl; lia]. }
    assert (Hrw' : rw = (pre ++ [prev]) ++ r :: rest) by (by rewrite <- app_assoc).
    replace (S (S (length pre))) with (S (length (pre ++ [prev])))
      by (rewrite length_app; simpl; lia).
    apply IH; [done| |].
    + intros k x Hk Hx. rewrite length_app in Hk. simpl in Hk.
      destruct (PrimFloat.ltb (fst best) diff) eqn:Hlt; cbn [fst].
      * destruct (decide (k = length pre)) as [->|Hne].
        -- rewrite Hdiff in Hx. injection Hx as <-. apply float_ltb_irrefl.
        -- destruct (PrimFloat.ltb diff x) eqn:Hdx; [|done].
           pose proof (Hmax k x ltac:(lia) Hx) as Hm.
           rewrite (float_ltb_trans _ _ _ Hlt Hdx) in Hm. discriminate.
      * destruct (decide (k = length pre)) as [->|Hne].
        -- rewrite Hdiff in Hx. by injection Hx as <-.
        -- apply (Hmax k x); [lia|done].
    + destruct (PrimFloat.ltb (fst best) diff) eqn:Hlt; [|done].
      right. exists (length pre). cbn [fst snd]. split; [done|]. split; [done|].
      destruct Hbest as [->|(p & _ & _ & Hpos)]; [done|].
      by apply (float_ltb_trans _ _ _ Hpos).
Qed.

(** X16: [calc_rwave_data] returns the longest interval between
    consecutive r-wave timestamps.  No interval is longer than the
    returned one; and either no interval is positive, and the result is
    [0] with the index pair [(0, 0)], or the result is positive and is
    the interval between the two consecutive timestamps at the returned
    indexes [(i, i + 1)], both of which exist. *)
Theorem calc_rwave_data_longest_interval (rwaves : list float) :
  (forall k x, rwave_interval rwaves k = Some x ->
     PrimFloat.ltb (fst (calc_rwave_data rwaves)) x = false) /\
  (calc_rwave_data rwaves = (0%float, (0%nat, 0%nat)) \/
   exists i, snd (calc_rwave_data rwaves) = (i, S i) /\
             rwave_interval rwaves i = Some (fst (calc_rwave_data rwaves)) /\
             PrimFloat.ltb 0%float (fst (calc_rwave_data rwaves)) = true).
Proof.
  destruct rwaves as [|r rest].
  - split; [|by left]. intros k x Hk. by destruct k.
  - apply (rwave_scan_spec (r :: rest) [] rest r (0%float, (0%nat, 0%nat))); [done| |by left].
    intros k x Hk. simpl in Hk. lia.
Qed.

(** Three r-waves at 0, 250 and 1000 ms: the longest interval is the
    second, 0.75 s. *)
Example calc_rwave_data_run :
  calc_rwave_data [0%float; 250%float; 1000%float] = (0.75%float, (1%nat, 2%nat)).
Proof. reflexivity. Qed.


(** ** [NPYDataset.load_filenames] *)

Section LoadFilenamesFacts.
Import NPYDataset.
Implicit Types (walk : list (string * list string)) (files : gmap string string).

(** The two loops as one loop over the walked files. *)
Lemma load_filenames_walked walk uid_len :
  load_filenames walk uid_len =
  foldl (fun files '(d, f) => <[str_slice f 0 uid_len := OsPath.join d f]> files)
        ∅ (walked_files walk).
Proof.
  unfold load_filenames, walked_files. generalize (∅ : gmap string string).
  induction walk as [|[d fs] walk IH]; intros files; [done|].
  cbn [foldl flat_map]. rewrite foldl_app, IH. f_equal.
  clear IH. revert files. induction fs as [|f fs IHf]; intros files; [done|].
  cbn [foldl fmap list_fmap]. apply IHf.
Qed.

Lemma insert_loop_lookup (uid_len : Z) (entries : list (string * string)) (k p : string) :
  foldl (fun files '(d, f) => <[str_slice f 0 uid_len := OsPath.join d f]> files)
        ∅ entries !! k = Some p <->
  exists pre d f post,
    entries = pre ++ (d, f) :: post /\ str_slice f 0 uid_len = k /\
    p = OsPath.join d f /\
    Forall (fun e => str_slice (snd e) 0 uid_len <> k) post.
Proof.
  induction entries as [|[d f] entries IH] using rev_ind.
  - cbn. rewrite lookup_empty. split; [done|].
    intros (pre & d & f & post & H & _). by destruct pre.
  - rewrite foldl_app. cbn [foldl].
    destruct (decide (str_slice f 0 uid_len = k)) as [Hk|Hk].
    + rewrite Hk, lookup_insert_eq. split.
      * intros [= <-]. exists entries, d, f, []. by repeat split.
      * intros (pre & d' & f' & post & Heq & Hk' & -> & Hpost).
        destruct post as [|e post _] using rev_ind.
        -- apply app_inj_tail in Heq as [_ [= -> ->]]. done.
        -- rewrite app_comm_cons, app_assoc in Heq.
           apply app_inj_tail in Heq as [_ <-].
           apply Forall_app in Hpost as [_ Hlast]. inversion Hlast as [|? ? Hne _]; subst.
           by destruct Hne.
    + rewrite lookup_insert_ne by done. rewrite IH. split.
      * intros (pre & d' & f' & post & -> & Hk' & -> & Hpost).
        exists pre, d', f', (post ++ [(d, f)]). split; [by rewrite <- app_assoc|].
        split; [done|]. split; [done|]. apply Forall_app. split; [done|].
        by constructor.
      * intros (pre & d' & f' & post & Heq & Hk' & -> & Hpost).
        destruct post as [|e post _] using rev_ind.
        -- apply app_inj_tail in Heq as [_ [= -> ->]]. done.
        -- rewrite app_comm_cons, app_assoc in Heq.
           apply app_inj_tail in Heq as [-> <-].
           apply Forall_app in Hpost as [Hpost _].
           by exists pre, d', f', post.
Qed.

(** X17: [load_filenames] keeps, for every user id, the path of the last
    file in walk order whose name starts with it.  The dictionary holds
    the path [p] under the key [k] exactly when some walked file has [k]
    as its first [uid_len] characters, [p] is its directory joined with
    its name, and no file walked later has the same first [uid_len]
    characters; so of two files with the same user id only the later one
    can be loaded.  A key is absent exactly when no file name gives it. *)
Theorem load_filenames_last_file_wins walk uid_len (k : string) :
  (forall p,
     load_filenames walk uid_len !! k = Some p <->
     exists pre d f post,
       walked_files walk = pre ++ (d, f) :: post /\ str_slice f 0 uid_len = k /\
       p = OsPath.join d f /\
       Forall (fun e => str_slice (snd e) 0 uid_len <> k) post) /\
  (load_filenames walk uid_len !! k = None <->
   Forall (fun e => str_slice (snd e) 0 uid_len <> k) (walked_files walk)).
Proof.
  rewrite load_filenames_walked. split; [intros p; apply insert_loop_lookup|].
  generalize (walked_files walk). intros entries.
  induction entries as [|[d f] entries IH] using rev_ind.
  - cbn. by rewrite lookup_empty.
  - rewrite foldl_app. cbn [foldl]. rewrite Forall_app, Forall_singleton. cbn [snd].
    destruct (decide (str_slice f 0 uid_len = k)) as [Hk|Hk].
    + rewrite Hk, lookup_insert_eq. split; [done|]. by intros [_ ?].
    + rewrite lookup_insert_ne by done. rewrite IH. tauto.
Qed.

End LoadFilenamesFacts.

(** Two studies of the same user in two directories: the later file is
    the one that is kept. *)
Example load_filenames_run :
  NPYDataset.load_filenames
    [("d1", ["u1_a.npy"; "u2_b.npy"]); ("d2", ["u1_c.npy"])] 2 !! "u1" =
  Some "d2/u1_c.npy".
Proof. vm_compute. reflexivity. Qed.

(** ** [DistributedWeightedSampler.__iter__] *)

Section WeightedSamplingFacts.
Import WeightedSampling.
Variable multinomial : list float -> Z -> bool -> Z -> result (list Z).

Lemma py_item_inside {A} (l : list A) (i : Z) :
  0 <= i < Z.of_nat (length l) -> py_item l i = Np.item l (Z.to_nat i).
Proof.
  intros Hi. unfold py_item.
  replace (i <? - Z.of_nat (length l)) with false by (symmetry; apply Z.ltb_ge; lia).
  replace (Z.of_nat (length l) <=? i) with false by (symmetry; apply Z.leb_gt; lia).
  replace (i <? 0) with false by (symmetry; apply Z.ltb_ge; lia). done.
Qed.

Lemma for_each_ones (n : nat) (base_indices : list Z) :
  Forall (fun i => 0 <= i < Z.of_nat n) base_indices ->
  for_each (py_item (replicate n 1%float)) base_indices =
  Ok (replicate (length base_indices) 1%float).
Proof.
  induction 1 as [|i base Hi _ IH]; [done|].
  cbn [for_each length replicate]. rewrite py_item_inside by (by rewrite length_replicate).
  unfold Np.item. rewrite lookup_replicate_2 by lia. cbn [mbind result_bind].
  by rewrite IH.
Qed.

Lemma for_each_items (base_indices wis : list Z) :
  Forall (fun wi => 0 <= wi < Z.of_nat (length base_indices)) wis ->
  exists out,
    for_each (py_item base_indices) wis = Ok out /\
    length out = length wis /\
    Forall (fun i => i ∈ base_indices) out.
Proof.
  induction 1 as [|wi wis Hwi _ (out & Hout & Hlen & Hin)]; [by exists []|].
  cbn [for_each]. rewrite py_item_inside by done. unfold Np.item.
  destruct (lookup_lt_is_Some_2 base_indices (Z.to_nat wi) ltac:(lia)) as [x Hx].
  rewrite Hx, Hout. cbn [mbind result_bind]. exists (x :: out).
  split; [done|]. split; [simpl; lia|]. constructor; [|done].
  by eapply list_elem_of_lookup_2.
Qed.

(** X18: the weights of a [DistributedWeightedSampler] are all [1.0]
    from construction on and nothing in the class changes them, so
    [__iter__] hands [torch.multinomial] a vector of ones, one per index
    of the base sampler: it resamples the indices of this process
    uniformly.  When [torch.multinomial] returns positions into that
    vector, the iterator yields one index per position, each of them an
    index that the base sampler yielded. *)
Theorem weighted_sampler_iter_is_uniform (dist : option process_group) (n : Z)
    (s : DistributedWeightedSampler.t) (base_indices : list Z) :
  DistributedWeightedSampler.init dist n true = Ok s ->
  Forall (fun i => 0 <= i < n) base_indices ->
  iter multinomial s base_indices =
    (weight_indices ←
       multinomial (replicate (length base_indices) 1%float)
         (DistributedWeightedSampler.len s) true
         (DistributedSampler.epoch (DistributedWeightedSampler.base s));
     for_each (py_item base_indices) weight_indices) /\
  (forall wis,
     multinomial (replicate (length base_indices) 1%float)
       (DistributedWeightedSampler.len s) true
       (DistributedSampler.epoch (DistributedWeightedSampler.base s)) = Ok wis ->
     Forall (fun wi => 0 <= wi < Z.of_nat (length base_indices)) wis ->
     exists out,
       iter multinomial s base_indices = Ok out /\
       length out = length wis /\
       Forall (fun i => i ∈ base_indices) out).
Proof.
  intros Hinit Hbase. unfold DistributedWeightedSampler.init in Hinit.
  apply bind_ok in Hinit as (b & _ & Hinit). cbn in Hinit. injection Hinit as <-.
  assert (Hiter : iter multinomial
                    (DistributedWeightedSampler.mk b true (replicate (Z.to_nat n) 1%float))
                    base_indices =
                  (weight_indices ←
                     multinomial (replicate (length base_indices) 1%float)
                       (DistributedSampler.num_samples b) true (DistributedSampler.epoch b);
                   for_each (py_item base_indices) weight_indices)).
  { unfold iter. cbn [DistributedWeightedSampler.weights DistributedWeightedSampler.base
                      DistributedWeightedSampler.replacement].
    rewrite for_each_ones; [done|].
    eapply Forall_impl; [exact Hbase|]. cbn. intros i Hi. lia. }
  split; [exact Hiter|].
  intros wis Hwis Hrange. rewrite Hiter.
  unfold DistributedWeightedSampler.len in Hwis.
  cbn [DistributedWeightedSampler.base] in Hwis. rewrite Hwis. cbn [mbind result_bind].
  by apply for_each_items.
Qed.

End WeightedSamplingFacts.

(** A group of four processes, ten samples, the three indices of the
    process of rank one, and a draw that picks the last index three
    times. *)
Lemma weighted_sampler_iter_is_uniform_witness :
  exists out,
    WeightedSampling.iter (fun _ k _ _ => Ok (replicate (Z.to_nat k) 2))
      (DistributedWeightedSampler.mk (DistributedSampler.mk 10 4 1 0 3 12) true
         (replicate 10 1%float))
      [1; 5; 9] = Ok out /\
    length out = 3%nat /\
    Forall (fun i => i ∈ [1; 5; 9]) out.
Proof.
  refine (proj2 (weighted_sampler_iter_is_uniform
                   (fun _ k _ _ => Ok (replicate (Z.to_nat k) 2))
                   (Some (mk_process_group 4 1 (fun v => v))) 10
                   (DistributedWeightedSampler.mk (DistributedSampler.mk 10 4 1 0 3 12) true
                      (replicate 10 1%float))
                   [1; 5; 9] eq_refl _) [2; 2; 2] eq_refl _).
  - repeat constructor; lia.
  - repeat constructor; simpl; lia.
Defined.


(** ** Which array [transform_size] returns *)

Section ReturnedArrayFacts.
Context {px : Type}.
Variable uint8 : px -> px.
Variable average : list px -> px.
Variable of_float : float -> px.
Variable resize : float -> ndarray px -> list Z -> result (ndarray px).
Variable tr : transforms.
Implicit Types (σ : gmap nat (array_obj px)) (a : ndarray px).

(** X19: [transform_size] makes no copy of its own.  With every stage
    but [pad_length] disabled, a video that already has the target shape
    comes back as the very array object that the caller passed, and no
    array is made or changed; what the caller does to the result, it
    does to its own video. *)
Theorem transform_size_hands_back_the_array σ r a c fps hr rwaves :
  grayscale tr = false -> rwave_data_only tr = false ->
  rescale_fps tr = false -> rescale_fphb tr = false -> resize_frames tr = false ->
  crop_sides tr = false -> crop_length tr = false -> loop_length tr = false ->
  Mem.read σ r = Ok a ->
  shape a = [target_length tr; target_height tr; target_width tr; c] ->
  Aug.transform_size uint8 average of_float resize tr r fps hr rwaves σ = (σ, Ok r).
Proof.
  intros Hg Hrw Hfps Hfphb Hrs Hcs Hcl Hll Hread Hsh.
  unfold Aug.transform_size.
  rewrite hm_bind_load, Hread, hm_bind_lift.
  unfold rescale_stages. rewrite Hg, Hrw, Hfps, Hfphb, Hrs, Hcs, Hcl, Hll.
  cbn [orb andb negb py_assert mbind result_bind].
  rewrite hm_bind_ret, hm_bind_lift, !hm_bind_ret.
  assert (Hpad : forall (k : nat -> hm px nat),
            ((if pad_length tr then Aug.t_pad_length of_float tr r else mret r) ≫= k) σ
            = k r σ).
  { intros k. destruct (pad_length tr); [|by rewrite hm_bind_ret].
    unfold Aug.t_pad_length. unfold mbind at 1. unfold hm_bind at 1.
    rewrite hm_bind_load, Hread, hm_bind_lift. unfold Np.shape_at. rewrite Hsh.
    cbn [lookup list_lookup]. rewrite Z.sub_diag. cbn [Z.ltb Z.compare]. done. }
  rewrite Hpad, hm_bind_load, Hread, hm_bind_lift.
  unfold shape_check, Np.shape_at. rewrite Hsh.
  cbn [lookup list_lookup mbind result_bind]. rewrite decide_True by done. done.
Qed.

End ReturnedArrayFacts.

Lemma transform_size_hands_back_the_array_witness :
  Aug.transform_size IntPixels.uint8 IntPixels.average IntPixels.of_float
    IntPixels.nearest_resize
    (mk_transforms false false false false 1 false 1 false 2 2 false false false true 1)
    0%nat 10%float 60%float [] (callers_store IntPixels.square) =
  (callers_store IntPixels.square, Ok 0%nat).
Proof.
  apply (transform_size_hands_back_the_array IntPixels.uint8 IntPixels.average
           IntPixels.of_float IntPixels.nearest_resize
           (mk_transforms false false false false 1 false 1 false 2 2
              false false false true 1)
           (callers_store IntPixels.square) 0%nat IntPixels.square 1 10%float 60%float []);
    reflexivity.
Defined.

(** The part of C8 that the code keeps, on a video of one frame: a
    negative zoom factor is replaced by one and the video comes back. *)
Lemma t_zoom_returns_input_witness :
  t_zoom IntPixels.of_float IntPixels.nearest_rescale (plain_transforms 1)
    (plain_augmentations 1%float) IntPixels.square (-3)%float = Ok IntPixels.square.
Proof.
  apply (t_zoom_returns_input IntPixels.of_float IntPixels.nearest_rescale
           (plain_transforms 1) (plain_augmentations 1%float) IntPixels.square
           (-3)%float (-3)%float 1 2 2 [1]
           (mk_ndarray [2; 2; 1] [1; 2; 3; 4]) (mk_ndarray [2; 2; 1] [1; 2; 3; 4])
           2 2 [1]); try reflexivity.
  by left.
Defined.


(** ** [transform_values] keeps the shape *)

Section ValueShapeFacts.
Context {px rng : Type}.
Variable float32 : px -> px.
Variable signed_unit : px -> px.
Variable of_float : float -> px.
Variable add_float : px -> float -> px.
Variable clip : float -> float -> px -> px.
Variable random_noise : noise_mode -> float -> rng -> ndarray px -> result (ndarray px).
Variable rotate_frame : float -> float -> ndarray px -> result (ndarray px).
Variable rescale : float -> float -> ndarray px -> result (ndarray px).
Variable tr : transforms.
Variable au : augmentations.
Implicit Types (img video r : ndarray px).

Lemma per_plane_shape f video r : per_plane f video = Ok r -> shape r = shape video.
Proof.
  unfold per_plane. intros H.
  destruct (shape video) as [|l [|h [|w [|c [|]]]]]; try discriminate.
  apply bind_ok in H as (chs & _ & H). by injection H as <-.
Qed.

Lemma map_rect_shape video y0 y1 x0 x1 (f : px -> px) r :
  Np.map_rect video y0 y1 x0 x1 f = Ok r -> shape r = shape video.
Proof.
  unfold Np.map_rect. intros H.
  destruct (shape video) as [|l [|h [|w [|c [|]]]]]; try discriminate.
  by injection H as <-.
Qed.

Lemma set_frame_shape (a value r : ndarray px) i :
  Np.set_frame a i value = Ok r -> shape r = shape a.
Proof.
  unfold Np.set_frame. intros H. destruct (shape a) as [|n sh']; [discriminate|].
  destruct (Z.of_nat i <? n); [|discriminate].
  apply bind_ok in H as (d & _ & H). by injection H as <-.
Qed.

Lemma set_frame_rect_shape (a value r : ndarray px) i y0 y1 x0 x1 :
  Np.set_frame_rect a i y0 y1 x0 x1 value = Ok r -> shape r = shape a.
Proof.
  unfold Np.set_frame_rect. intros H.
  destruct (shape a) as [|l [|h [|w [|c [|]]]]]; try discriminate.
  destruct (Z.of_nat i <? l); [|discriminate].
  apply bind_ok in H as (d & _ & H). by injection H as <-.
Qed.

Lemma zoom_rounds_shape img new_img zoom_factor diffs offsets i n r :
  zoom_rounds rescale tr img new_img zoom_factor diffs offsets i n = Ok (Some r) ->
  shape r = shape new_img.
Proof.
  revert new_img diffs offsets i. induction n as [|n IH]; intros new_img diffs offsets i H.
  - cbn [zoom_rounds] in H. by injection H as <-.
  - cbn [zoom_rounds] in H.
    apply bind_ok in H as (frame & _ & H). apply bind_ok in H as (zoom_frame & _ & H).
    apply bind_ok in H as (first & _ & H).
    destruct first as [[dd offs]|]; [|discriminate].
    apply bind_ok in H as (new_img' & Hset & H).
    rewrite (IH _ _ _ _ H).
    destruct (PrimFloat.ltb 1 zoom_factor).
    + apply bind_ok in Hset as ([[[hs he] ws] we] & _ & Hset).
      apply bind_ok in Hset as (c & _ & Hset). apply bind_ok in Hset as (part & _ & Hset).
      by eapply set_frame_shape.
    + destruct (PrimFloat.ltb zoom_factor 1).
      * apply bind_ok in Hset as ([[[hs he] ws] we] & _ & Hset).
        by eapply set_frame_rect_shape.
      * by injection Hset as <-.
Qed.

Lemma t_zoom_shape img z r :
  t_zoom of_float rescale tr au img z = Ok r -> shape r = shape img.
Proof.
  unfold t_zoom, zoom_loop, zoom_with. intros H.
  apply bind_ok in H as (o & Ho & H). injection H as <-.
  apply bind_ok in Ho as (d & _ & Ho). apply bind_ok in Ho as (l & _ & Ho).
  destruct o as [new_img|]; [|done].
  exact (zoom_rounds_shape _ _ _ _ _ _ _ _ Ho).
Qed.

(** X21: [transform_values] never changes the shape of the video.
    Whenever it returns, whatever the configuration and whatever the
    random draws, the video it returns has the shape of the video it was
    given (the noise routine of the library is taken to keep the shape
    of its input). *)
Theorem transform_values_keeps_shape img (d : draws rng) v :
  (forall mode p g a r, random_noise mode p g a = Ok r -> shape r = shape a) ->
  transform_values float32 signed_unit of_float add_float clip random_noise
    rotate_frame rescale tr au img d = Ok v ->
  shape v = shape img.
Proof.
  intros Hnoise H. unfold transform_values in H.
  set (img0 := if normalize_input tr then _ else _) in H.
  assert (H0 : shape img0 = shape img) by (subst img0; by destruct (normalize_input tr)).
  clearbody img0.
  apply bind_ok in H as (img1 & H1 & H).
  apply bind_ok in H as (img2 & H2 & H).
  apply bind_ok in H as (img3 & H3 & H).
  apply bind_ok in H as (img4 & H4 & H).
  apply bind_ok in H as (img5 & H5 & H).
  apply bind_ok in H as (img6 & H6 & H).
  apply bind_ok in H as (img7 & H7 & H).
  apply bind_ok in H as (img8 & H8 & H).
  apply bind_ok in H as (img9 & H9 & H).
  injection H as <-. cbn [Np.astype shape].
  assert (S1 : shape img1 = shape img0).
  { destruct (gaussian_noise au); [by eapply Hnoise|by injection H1 as <-]. }
  assert (S2 : shape img2 = shape img1).
  { destruct (speckle au); [by eapply Hnoise|by injection H2 as <-]. }
  assert (S3 : shape img3 = shape img2).
  { destruct (salt_and_pepper au); [by eapply Hnoise|by injection H3 as <-]. }
  assert (S4 : shape img4 = shape img3).
  { destruct (translate_h au); [|by injection H4 as <-].
    unfold t_translate_h in H4. apply bind_ok in H4 as (x & _ & H4).
    apply bind_ok in H4 as (t & _ & H4). by eapply per_plane_shape. }
  assert (S5 : shape img5 = shape img4).
  { destruct (translate_v au); [|by injection H5 as <-].
    unfold t_translate_v in H5. apply bind_ok in H5 as (x & _ & H5).
    apply bind_ok in H5 as (t & _ & H5). by eapply per_plane_shape. }
  assert (S6 : shape img6 = shape img5).
  { destruct (rotate au); [|by injection H6 as <-].
    unfold t_rotate in H6. apply bind_ok in H6 as (x & _ & H6).
    by eapply per_plane_shape. }
  assert (S7 : shape img7 = shape img6).
  { destruct (zoom au); [by eapply t_zoom_shape|by injection H7 as <-]. }
  assert (S8 : shape img8 = shape img7).
  { destruct (local_blackout au); [|by injection H8 as <-].
    unfold t_local_blackout in H8. apply bind_ok in H8 as ([[[ph sh] pw] sw] & _ & H8).
    by eapply map_rect_shape. }
  assert (S9 : shape img9 = shape img8).
  { destruct (local_intensity au); [|by injection H9 as <-].
    unfold t_local_intensity, local_intensity_written in H9.
    apply bind_ok in H9 as (written & Hw & H9). injection H9 as <-.
    apply bind_ok in Hw as ([[[ph sh] pw] sw] & _ & Hw).
    apply bind_ok in Hw as (val & _ & Hw). cbn [Np.astype shape].
    by eapply map_rect_shape. }
  congruence.
Qed.

End ValueShapeFacts.


(** A run with both translations, the zoom and the blackout on: one
    frame of two rows and two columns moved by one pixel to the right
    and one pixel down. *)
Lemma transform_values_keeps_shape_witness :
  shape (mk_ndarray [1; 2; 2; 1] [0; 0; 0; 1] : ndarray Z) = shape IntPixels.square.
Proof.
  apply (transform_values_keeps_shape (rng := unit) (fun x => x) (fun x => x)
           IntPixels.of_float (fun x _ => x) (fun _ _ x => x)
           (fun _ _ _ a => Ok a) (fun _ _ a => Ok a) IntPixels.nearest_rescale
           (plain_transforms 1) (geometric_augmentations 1%float) IntPixels.square
           (mk_draws tt tt tt 1%float 1%float 0%float 0%float 1%float 1%float 0 1
              0%float 0%float 0 0 0%float)).
  - intros mode p g a r H. by injection H as <-.
  - vm_compute. reflexivity.
Defined.


(** ** The r-wave crop returns a view *)

Section ViewFacts.
Context {px : Type}.
Variable of_float : float -> px.
Variable tr : transforms.
Variable au : augmentations.
Implicit Types (σ : gmap nat (array_obj px)) (video : ndarray px).

Lemma concat_length_uniform {A} (k : nat) (l : list (list A)) :
  Forall (fun r => length r = k) l -> length (concat l) = (length l * k)%nat.
Proof. induction 1 as [|r l Hr _ IH]; [done|]. cbn. rewrite length_app, Hr, IH. lia. Qed.

Lemma Forall_imap_keeps {A} (P : A -> Prop) (g : nat -> A -> A) (l : list A) :
  (forall i x, P x -> P (g i x)) -> Forall P l -> Forall P (imap g l).
Proof.
  intros Hg Hl. revert g Hg. induction Hl as [|x l Hx _ IH]; intros g Hg; [constructor|].
  cbn. constructor; [by apply Hg|]. apply IH. intros i y. apply Hg.
Qed.

(** Writing into a rectangle keeps the number of items. *)
Lemma map_rect_wf video y0 y1 x0 x1 (f : px -> px) r :
  Np.wf video -> Np.map_rect video y0 y1 x0 x1 f = Ok r -> Np.wf r.
Proof.
  intros [Hnn Hlen] H. unfold Np.map_rect in H.
  destruct (shape video) as [|l [|h [|w [|c [|]]]]] eqn:Hsh; try discriminate.
  injection H as <-. split; cbn [shape data]; [done|].
  inversion Hnn as [|? ? Hl Hnn1]; inversion Hnn1 as [|? ? Hh Hnn2];
    inversion Hnn2 as [|? ? Hw Hnn3]; inversion Hnn3 as [|? ? Hc _]; subst.
  destruct (Np.slice_bounds h y0 y1) as [ys ny] eqn:Hys.
  destruct (Np.slice_bounds w x0 x1) as [xs nx] eqn:Hxs.
  pose proof (slice_bounds_range w x0 x1 xs nx Hw Hxs) as (Hxs0 & Hnx & Hxw).
  set (K := Z.to_nat (Np.size_of [h; w; c])).
  assert (HK : K = (Z.to_nat h * Z.to_nat (w * c))%nat).
  { subst K. cbn [Np.size_of foldr]. rewrite Z.mul_1_r. apply Z2Nat.inj_mul; lia. }
  assert (Hdata : length (data video) = (Z.to_nat l * K)%nat).
  { rewrite Hlen. change (Np.size_of [l; h; w; c]) with (l * Np.size_of [h; w; c]).
    subst K. apply Z2Nat.inj_mul; [lia|]. cbn [Np.size_of foldr]. nia. }
  rewrite (concat_length_uniform K).
  - rewrite length_fmap, rows_length.
    transitivity (length (data video)); [symmetry; exact Hdata|exact Hlen].
  - apply Forall_fmap.
    eapply Forall_impl; [apply (rows_row_length K); rewrite Hdata; lia|].
    intros fd Hfd. unfold Np.map_rect_data, compose. cbn beta iota zeta in Hfd |- *.
    rewrite (concat_length_uniform (Z.to_nat (w * c))).
    + rewrite length_imap, rows_length. lia.
    + apply Forall_imap_keeps; [|apply rows_row_length; lia].
      intros y row Hrow. destruct (_ && _); [|done].
      rewrite !length_app, length_fmap, !length_take, !length_drop, Hrow.
      assert (Z.to_nat (xs * c) + Z.to_nat (nx * c) = Z.to_nat ((xs + nx) * c))%nat
        by (rewrite <- Z2Nat.inj_add by nia; f_equal; lia).
      assert (Z.to_nat ((xs + nx) * c) <= Z.to_nat (w * c))%nat
        by (apply Z2Nat.inj_le; nia).
      lia.
Qed.

(** The frames of a video in which the frames [lo, lo + cnt) have been
    replaced. *)
Lemma frames_after_store (d dw : list px) (n lo cnt k : nat) (i : nat) :
  length d = (n * k)%nat -> length dw = (cnt * k)%nat -> (lo + cnt <= n)%nat ->
  (i < n)%nat ->
  take k (drop (i * k) (take (lo * k) d ++ dw ++ drop ((lo + cnt) * k) d)) =
  if decide (lo <= i < lo + cnt)%nat then take k (drop ((i - lo) * k) dw)
  else take k (drop (i * k) d).
Proof.
  intros Hd Hdw Hle Hi.
  assert (HA : length (take (lo * k) d) = (lo * k)%nat) by (rewrite length_take; nia).
  destruct (decide (lo <= i < lo + cnt)%nat) as [Hin|Hout].
  - rewrite drop_app_ge by (rewrite HA; nia). rewrite HA.
    replace (i * k - lo * k)%nat with ((i - lo) * k)%nat by nia.
    rewrite drop_app_le by (rewrite Hdw; nia).
    rewrite take_app_le; [done|]. rewrite length_drop, Hdw.
    assert (S (i - lo) <= cnt)%nat by lia. nia.
  - destruct (decide (i < lo)%nat) as [Hlt|Hge].
    + rewrite drop_app_le by (rewrite HA; nia).
      rewrite take_app_le by (rewrite length_drop, HA; assert (S i <= lo)%nat by lia; nia).
      rewrite !take_drop_commute, take_take. do 2 f_equal.
      assert (S i <= lo)%nat by lia. nia.
    + rewrite drop_app_ge by (rewrite HA; nia). rewrite HA.
      rewrite drop_app_ge by (rewrite Hdw; nia). rewrite Hdw, drop_drop. do 2 f_equal.
      nia.
Qed.

(** X22: the video that [t_crop_rwave] returns is a view of the video it
    was given, so an in-place augmentation of the result changes the
    caller's video.  When the r-wave window selects the frames
    [lo, lo + cnt) of the caller's well-formed video, [t_crop_rwave]
    followed by [t_local_blackout] on its result leaves the blacked-out
    frames in the caller's array in place of the frames [lo, lo + cnt),
    and the other frames of the caller's array as they were. *)
Theorem rwave_crop_view_is_written_through σ r video n h w c rwaves idx fps
    s e lo cnt z_h z_w u_h u_w written :
  σ !! r = Some (Buffer video) -> Np.wf video -> shape video = [n; h; w; c] ->
  n <> target_fphb tr ->
  rwave_window tr n rwaves idx fps = Ok (s, e) ->
  Np.slice_bounds n s e = (lo, cnt) ->
  (forall clip, Np.slice0 video s e = Ok clip ->
     t_local_blackout of_float tr au clip z_h z_w u_h u_w = Ok written) ->
  exists r' σ' video',
    (r' ← Aug.t_crop_rwave tr r rwaves idx fps;
     Aug.t_local_blackout of_float tr au r' z_h z_w u_h u_w) σ = (σ', Ok r') /\
    r' <> r /\
    σ' !! r = Some (Buffer video') /\
    shape video' = shape video /\
    forall i : nat, Z.of_nat i < n ->
      Np.frame video' i =
      if decide (lo <= Z.of_nat i < lo + cnt)
      then Np.frame written (i - Z.to_nat lo) else Np.frame video i.
Proof.
  intros Hr Hwf Hsh Hn Hwin Hb Hblack.
  destruct (wf_rank4 video n h w c Hwf Hsh) as (Hn0 & Hk & Hlen).
  pose proof (slice_bounds_range n s e lo cnt Hn0 Hb) as (Hlo & Hcnt & Hin).
  set (k := Z.to_nat (Np.size_of [h; w; c])) in *.
  set (clip := mk_ndarray (cnt :: [h; w; c])
                 (take (Z.to_nat cnt * k) (drop (Z.to_nat lo * k) (data video)))).
  assert (Hclip : Np.slice0 video s e = Ok clip).
  { unfold Np.slice0. by rewrite Hsh, Hb. }
  specialize (Hblack clip Hclip).
  assert (Hwfclip : Np.wf clip).
  { destruct Hwf as [Hnn _]. rewrite Hsh in Hnn. inversion Hnn as [|? ? _ Hrest]; subst.
    split; unfold clip; cbn [shape data].
    - by constructor.
    - rewrite length_take, length_drop, Hlen.
      change (Np.size_of (cnt :: [h; w; c])) with (cnt * Np.size_of [h; w; c]).
      rewrite Z2Nat.inj_mul by lia. fold k.
      assert (Z.to_nat lo + Z.to_nat cnt <= Z.to_nat n)%nat by lia. nia. }
  assert (Hwsh : shape written = cnt :: [h; w; c]).
  { unfold t_local_blackout in Hblack.
    apply bind_ok in Hblack as ([[[ph sh] pw] sw] & _ & Hblack).
    unfold Np.map_rect in Hblack. cbn [clip shape] in Hblack. by injection Hblack as <-. }
  assert (Hwlen : length (data written) = (Z.to_nat cnt * k)%nat).
  { unfold t_local_blackout in Hblack.
    apply bind_ok in Hblack as ([[[ph sh] pw] sw] & _ & Hblack).
    destruct (map_rect_wf _ _ _ _ _ _ _ Hwfclip Hblack) as [_ Hl].
    rewrite Hl, Hwsh. change (Np.size_of (cnt :: [h; w; c])) with (cnt * Np.size_of [h; w; c]).
    rewrite Z2Nat.inj_mul by lia. done. }
  set (r' := fresh (dom σ)).
  assert (Hfresh : r' <> r) by (symmetry; by eapply fresh_not_in).
  set (σ1 := <[r' := View r lo cnt]> σ).
  assert (Hview : Aug.t_crop_rwave (px := px) tr r rwaves idx fps σ = (σ1, Ok r')).
  { unfold Aug.t_crop_rwave. rewrite hm_bind_load. unfold Mem.read. rewrite Hr.
    rewrite hm_bind_lift. unfold Np.shape_at. rewrite Hsh. cbn [lookup list_lookup].
    replace (n =? target_fphb tr) with false by (symmetry; by apply Z.eqb_neq).
    rewrite hm_bind_lift, Hwin. unfold Mem.view_of. by rewrite Hr, Hsh, Hb. }
  assert (Hagain : Np.slice_bounds n lo (lo + cnt) = (lo, cnt)).
  { rewrite slice_bounds_inside by lia. f_equal. lia. }
  set (video' := mk_ndarray (shape video)
                   (take (Z.to_nat lo * k) (data video) ++ data written
                    ++ drop (Z.to_nat (lo + cnt) * k) (data video))).
  exists r', (<[r := Buffer video']> σ1), video'.
  split; [|split; [done|split; [by rewrite lookup_insert_eq|split; [done|]]]].
  - unfold mbind at 1. unfold hm_bind at 1. rewrite Hview.
    unfold Aug.t_local_blackout. rewrite hm_bind_load.
    assert (Hread : Mem.read σ1 r' = Ok clip).
    { unfold Mem.read, σ1. rewrite lookup_insert_eq, lookup_insert_ne by done.
      rewrite Hr. unfold Np.slice0. by rewrite Hsh, Hagain. }
    rewrite Hread, hm_bind_lift, Hblack.
    unfold mbind, hm_bind, Mem.store, σ1.
    rewrite lookup_insert_eq, lookup_insert_ne by done. rewrite Hr, Hsh. cbn [tail].
    unfold video'. rewrite Hsh. reflexivity.
  - intros i Hi. unfold Np.frame, video'. cbn [shape data]. rewrite Hsh, Hwsh.
    replace (Z.of_nat i <? n) with true by (symmetry; apply Z.ltb_lt; lia).
    fold k. rewrite (Z2Nat.inj_add lo cnt) by lia.
    rewrite (frames_after_store (data video) (data written) (Z.to_nat n) (Z.to_nat lo)
               (Z.to_nat cnt) k i); [|done|done|lia|lia].
    destruct (decide (lo <= Z.of_nat i < lo + cnt)) as [Hw|Hw].
    + rewrite decide_True by lia.
      replace (Z.of_nat (i - Z.to_nat lo) <? cnt) with true
        by (symmetry; apply Z.ltb_lt; lia).
      done.
    + rewrite decide_False by lia. done.
Qed.

End ViewFacts.


(** The caller's video of three frames, an r-wave window that selects the
    frame in the middle, and a blackout of its first pixel: the caller's
    video has the black pixel in its middle frame. *)
Lemma rwave_crop_view_is_written_through_witness :
  exists r' σ' video',
    (r' ← Aug.t_crop_rwave (fphb_transforms 1 3) 0%nat [100%float; 200%float]
            (0%nat, 1%nat) 10%float;
     Aug.t_local_blackout IntPixels.of_float (fphb_transforms 1 3)
       (blackout_augmentations 1%float) r' 1%float 1%float 0 0)
      (callers_store three_squares) = (σ', Ok r') /\
    r' <> 0%nat /\
    σ' !! 0%nat = Some (Buffer video') /\
    shape video' = shape three_squares /\
    forall i : nat, Z.of_nat i < 3 ->
      Np.frame video' i =
      if decide (1 <= Z.of_nat i < 1 + 1)
      then Np.frame (mk_ndarray [1; 2; 2; 1] [0; 6; 7; 8]) (i - Z.to_nat 1)
      else Np.frame three_squares i.
Proof.
  apply (rwave_crop_view_is_written_through IntPixels.of_float (fphb_transforms 1 3)
           (blackout_augmentations 1%float) (callers_store three_squares) 0%nat
           three_squares 3 2 2 1 [100%float; 200%float] (0%nat, 1%nat) 10%float
           1 2 1 1 1%float 1%float 0 0 (mk_ndarray [1; 2; 2; 1] [0; 6; 7; 8])).
  - reflexivity.
  - split; [repeat constructor; lia|reflexivity].
  - reflexivity.
  - discriminate.
  - reflexivity.
  - reflexivity.
  - intros clip H. vm_compute in H. injection H as <-. reflexivity.
Defined.


(** ** The translations *)

Section PlaneFacts.
Context {A : Type}.
Implicit Types (d p : list A) (c n : nat).

Lemma mapM_same (f : list A -> option (list A)) (l : list (list A)) :
  Forall (fun x => f x = Some x) l -> mapM f l = Some l.
Proof.
  intros H. apply mapM_Some. induction H; constructor; done.
Qed.

(** A value of the shape of the target is stored as it is. *)
Lemma broadcast_same (sh : list Z) d :
  Forall (fun z => 0 <= z) sh -> length d = Z.to_nat (Np.size_of sh) ->
  Np.broadcast sh sh d = Some d.
Proof.
  intros Hsh. revert d. induction Hsh as [|m sh Hm Hsh IH]; intros d Hd; [done|].
  cbn [Np.broadcast]. rewrite Z.eqb_refl.
  pose proof (size_of_nonneg _ Hsh) as Hk.
  change (Np.size_of (m :: sh)) with (m * Np.size_of sh) in Hd.
  rewrite Z2Nat.inj_mul in Hd by lia.
  rewrite mapM_same.
  - cbn. f_equal. rewrite concat_rows. apply take_ge. lia.
  - eapply Forall_impl; [apply rows_row_length; lia|]. intros r Hr. by apply IH.
Qed.

Lemma broadcast_to_same (a : ndarray A) :
  Np.wf a -> Np.broadcast_to a (shape a) = Ok (data a).
Proof.
  intros [Hnn Hlen]. unfold Np.broadcast_to, Np.align. rewrite Nat.sub_diag.
  assert (Hs : Np.strip_ones 0 (shape a) = shape a) by (by destruct (shape a)).
  rewrite Hs, Nat.sub_diag. cbn [replicate app]. by rewrite broadcast_same.
Qed.

Lemma flat_map_singletons p c :
  length p = c -> flat_map (fun i => take 1 (drop i p)) (seq 0 c) = p.
Proof.
  revert c. induction p as [|x p IH]; intros c Hc; subst c; [done|].
  cbn [length seq flat_map drop take app]. f_equal.
  rewrite <- seq_shift, flat_map_concat_map, map_map, <- flat_map_concat_map.
  by apply IH.
Qed.

Lemma channels_cons c n d :
  (0 < c)%nat -> length d = (S n * c)%nat ->
  Np.channels c d =
  zip_with (fun i ch => take 1 (drop i (take c d)) ++ ch) (seq 0 c)
    (Np.channels c (drop c d)).
Proof.
  intros Hc Hd. unfold Np.channels.
  rewrite Hd, Nat.div_mul by lia. rewrite length_drop, Hd.
  replace (S n * c - c)%nat with (n * c)%nat by lia. rewrite Nat.div_mul by lia.
  cbn [Np.rows flat_map].
  rewrite zip_with_fmap_r. rewrite zip_with_diag. done.
Qed.

Lemma interleave_step n (ss chs : list (list A)) :
  Forall (fun s => length s = 1%nat) ss -> length ss = length chs ->
  Np.interleave (S n) (zip_with app ss chs) = concat ss ++ Np.interleave n chs.
Proof.
  intros Hss Hlen. cbn [Np.interleave]. f_equal.
  - revert chs Hlen. induction Hss as [|s ss Hs _ IH]; intros [|ch chs] Hlen;
      try discriminate; [done|].
    cbn [zip_with flat_map concat]. rewrite IH by (simpl in Hlen; lia). f_equal.
    destruct s as [|x [|]]; try discriminate. done.
  - f_equal. revert chs Hlen. induction Hss as [|s ss Hs _ IH]; intros [|ch chs] Hlen;
      try discriminate; [done|].
    cbn [zip_with fmap list_fmap]. rewrite IH by (simpl in Hlen; lia). f_equal.
    destruct s as [|x [|]]; try discriminate. done.
Qed.

Lemma channels_length c d : length (Np.channels c d) = c.
Proof. unfold Np.channels. by rewrite length_fmap, length_seq. Qed.

(** Putting the channels of a video together again gives the video. *)
Lemma interleave_channels c n d :
  (0 < c)%nat -> length d = (n * c)%nat -> Np.interleave n (Np.channels c d) = d.
Proof.
  intros Hc. revert d. induction n as [|n IH]; intros d Hd.
  - by destruct d.
  - rewrite (channels_cons c n d Hc Hd).
    rewrite <- (zip_with_fmap_l app (fun i => take 1 (drop i (take c d)))).
    rewrite interleave_step.
    + rewrite IH by (rewrite length_drop; lia).
      rewrite <- flat_map_concat_map, flat_map_singletons by (rewrite length_take; lia).
      apply take_drop.
    + apply Forall_fmap, Forall_forall. intros i Hi%elem_of_seq. cbn.
      rewrite length_take, length_drop, length_take. lia.
    + by rewrite length_fmap, length_seq, channels_length.
Qed.

(** Every channel of a video of [n] pixels holds [n] items. *)
Lemma channels_uniform c n d :
  (0 < c)%nat -> length d = (n * c)%nat ->
  Forall (fun ch => length ch = n) (Np.channels c d).
Proof.
  intros Hc. revert d. induction n as [|n IH]; intros d Hd.
  - destruct d; [|done]. unfold Np.channels. apply Forall_fmap, Forall_forall.
    intros i _. cbn. rewrite Nat.Div0.div_0_l. done.
  - rewrite (channels_cons c n d Hc Hd).
    specialize (IH (drop c d) ltac:(rewrite length_drop; lia)).
    pose proof (channels_length c (drop c d)) as Hl.
    revert IH Hl. generalize (Np.channels c (drop c d)). intros chs IH Hl.
    apply Forall_forall. intros x Hx.
    apply elem_of_lookup_zip_with in Hx as (j & i & ch & -> & Hi & Hch).
    apply lookup_seq in Hi as [-> Hj].
    rewrite length_app, length_take, length_drop, length_take.
    rewrite Forall_forall in IH. rewrite (IH ch) by (by eapply list_elem_of_lookup_2). lia.
Qed.

(** The interleaving of [c] channels that hold the same item [n] times. *)
Lemma interleave_replicate c n (b : A) :
  Np.interleave n (replicate c (replicate n b)) = replicate (n * c) b.
Proof.
  induction n as [|n IH]; [done|].
  change (Np.interleave (S n) ?l)
    with (flat_map (take 1) l ++ Np.interleave n (drop 1 <$> l)).
  rewrite fmap_replicate. change (drop 1 (replicate (S n) b)) with (replicate n b).
  rewrite IH.
  replace (S n * c)%nat with (c + n * c)%nat by lia. rewrite replicate_add. f_equal.
  clear IH. induction c as [|c IHc]; [done|].
  change (replicate (S c) (replicate (S n) b))
    with (replicate (S n) b :: replicate c (replicate (S n) b)).
  change (flat_map (take 1) (?x :: ?l)) with (take 1 x ++ flat_map (take 1) l).
  by rewrite IHc.
Qed.

End PlaneFacts.


Section TranslateFacts.
Context {px : Type}.
Variable of_float : float -> px.
Variable tr : transforms.
Variable au : augmentations.
Implicit Types (video : ndarray px) (p ch : list px).

Lemma for_each_map {X Y} (f : X -> result Y) (g : X -> Y) (xs : list X) :
  Forall (fun x => f x = Ok (g x)) xs -> for_each f xs = Ok (g <$> xs).
Proof. induction 1 as [|x xs Hx _ IH]; [done|]. simpl. by rewrite Hx, IH. Qed.

(** A frame operation that keeps the frame size, applied to every frame of
    every channel. *)
Lemma per_plane_frames (f : ndarray px -> result (ndarray px)) (g : list px -> list px)
    video l h w c :
  Np.wf video -> shape video = [l; h; w; c] ->
  (forall p, length p = Z.to_nat (h * w) ->
     f (mk_ndarray [h; w] p) = Ok (mk_ndarray [h; w] (g p)) /\
     length (g p) = Z.to_nat (h * w)) ->
  per_plane f video =
  Ok (mk_ndarray [l; h; w; c]
        (Np.interleave (Z.to_nat (l * (h * w)))
           ((fun ch => concat (g <$> Np.rows (Z.to_nat (h * w)) (Z.to_nat l) ch))
              <$> Np.channels (Z.to_nat c) (data video)))).
Proof.
  intros [Hnn Hlen] Hsh Hf. unfold per_plane. rewrite Hsh in *.
  apply Forall_cons in Hnn as [Hl Hnn]. apply Forall_cons in Hnn as [Hh Hnn].
  apply Forall_cons in Hnn as [Hw Hnn]. apply Forall_cons in Hnn as [Hc _].
  assert (Hd : length (data video) = (Z.to_nat (l * (h * w)) * Z.to_nat c)%nat).
  { rewrite Hlen. unfold Np.size_of. cbn [foldr]. rewrite <- Z2Nat.inj_mul by nia.
    f_equal. lia. }
  rewrite (for_each_map _
             (fun ch => concat (g <$> Np.rows (Z.to_nat (h * w)) (Z.to_nat l) ch))); [done|].
  destruct (decide (0 < Z.to_nat c)%nat) as [Hpos|Hzero].
  2: { replace (Z.to_nat c) with 0%nat by lia. constructor. }
  eapply Forall_impl; [apply (channels_uniform _ _ _ Hpos Hd)|].
  intros ch Hch. cbn beta.
  rewrite (for_each_map _ g); [done|].
  eapply Forall_impl; [apply (rows_row_length (Z.to_nat (h * w)) (Z.to_nat l) ch)|].
  - rewrite Hch, <- Z2Nat.inj_mul by nia. lia.
  - intros p Hp. cbn beta. destruct (Hf p Hp) as [-> Hg]. cbn [mbind result_bind].
    change [h; w] with (shape (mk_ndarray [h; w] (g p))) at 2.
    rewrite broadcast_to_same; [done|]. split; cbn [shape data].
    + by repeat constructor.
    + rewrite Hg. unfold Np.size_of. cbn [foldr]. f_equal. lia.
Qed.

(** A frame operation that hands every frame back leaves the video as it
    is. *)
Lemma per_plane_id (f : ndarray px -> result (ndarray px)) video l h w c :
  Np.wf video -> shape video = [l; h; w; c] ->
  (forall p, length p = Z.to_nat (h * w) -> f (mk_ndarray [h; w] p) = Ok (mk_ndarray [h; w] p)) ->
  per_plane f video = Ok video.
Proof.
  intros Hwf Hsh Hf.
  rewrite (per_plane_frames f (fun p => p) video l h w c Hwf Hsh) by (intros p Hp; by rewrite Hf).
  destruct Hwf as [Hnn Hlen]. rewrite Hsh in *.
  apply Forall_cons in Hnn as [Hl Hnn]. apply Forall_cons in Hnn as [Hh Hnn].
  apply Forall_cons in Hnn as [Hw Hnn]. apply Forall_cons in Hnn as [Hc _].
  assert (Hd : length (data video) = (Z.to_nat (l * (h * w)) * Z.to_nat c)%nat).
  { rewrite Hlen. unfold Np.size_of. cbn [foldr]. rewrite <- Z2Nat.inj_mul by nia.
    f_equal. lia. }
  destruct video as [sh d]. cbn [shape data] in *. subst sh. do 2 f_equal.
  destruct (decide (0 < Z.to_nat c)%nat) as [Hpos|Hzero].
  - rewrite fmap_id_on; [by apply interleave_channels|].
    eapply Forall_impl; [apply (channels_uniform _ _ _ Hpos Hd)|].
    intros ch Hch. cbn beta. rewrite list_fmap_id, concat_rows.
    apply take_ge. rewrite Hch, <- Z2Nat.inj_mul by nia. lia.
  - replace (Z.to_nat c) with 0%nat in * by lia.
    destruct d; [|simpl in Hd; lia]. cbn.
    generalize (Z.to_nat (l * (h * w))). intros n. by induction n.
Qed.

(** A frame operation that blanks every frame gives a video of the blank
    value alone. *)
Lemma per_plane_const (f : ndarray px -> result (ndarray px)) (b : px) video l h w c :
  Np.wf video -> shape video = [l; h; w; c] ->
  (forall p, length p = Z.to_nat (h * w) ->
     f (mk_ndarray [h; w] p) = Ok (mk_ndarray [h; w] (replicate (Z.to_nat (h * w)) b))) ->
  per_plane f video = Ok (Np.full_like video b).
Proof.
  intros Hwf Hsh Hf.
  rewrite (per_plane_frames f (fun _ => replicate (Z.to_nat (h * w)) b) video l h w c Hwf Hsh)
    by (intros p Hp; rewrite Hf by done; by rewrite length_replicate).
  destruct Hwf as [Hnn Hlen]. rewrite Hsh in *.
  apply Forall_cons in Hnn as [Hl Hnn]. apply Forall_cons in Hnn as [Hh Hnn].
  apply Forall_cons in Hnn as [Hw Hnn]. apply Forall_cons in Hnn as [Hc _].
  assert (Hd : length (data video) = (Z.to_nat (l * (h * w)) * Z.to_nat c)%nat).
  { rewrite Hlen. unfold Np.size_of. cbn [foldr]. rewrite <- Z2Nat.inj_mul by nia.
    f_equal. lia. }
  unfold Np.full_like. rewrite Hsh, Hd. do 2 f_equal.
  rewrite <- interleave_replicate. f_equal.
  assert (Hall : forall ch,
            concat ((fun _ => replicate (Z.to_nat (h * w)) b)
                      <$> Np.rows (Z.to_nat (h * w)) (Z.to_nat l) ch)
            = replicate (Z.to_nat (l * (h * w))) b).
  { intros ch. rewrite (const_fmap _ _ (replicate (Z.to_nat (h * w)) b)) by done.
    rewrite rows_length, (Z2Nat.inj_mul l (h * w)) by lia.
    generalize (Z.to_nat l) (Z.to_nat (h * w)). intros n k.
    induction n as [|n IH]; [done|]. cbn [replicate concat]. rewrite IH.
    by rewrite <- replicate_add. }
  rewrite (const_fmap _ _ (replicate (Z.to_nat (l * (h * w))) b)) by (intros; apply Hall).
  by rewrite channels_length.
Qed.

(** X23 (t_translate_v, t_translate_h): on a video of shape (L, H, W, C), a
    draw that [int] truncates to 0 makes both translations return the
    video as it was given, pixel for pixel. *)
Theorem t_translate_zero_draw video (zv zh : float) l h w c :
  Np.wf video -> shape video = [l; h; w; c] ->
  normal (translate_v_std_dev_pxl au) zv ≫= PyFloat.to_int = Ok 0 ->
  normal (translate_h_std_dev_pxl au) zh ≫= PyFloat.to_int = Ok 0 ->
  t_translate_v of_float tr au video zv = Ok video /\
  t_translate_h of_float tr au video zh = Ok video.
Proof.
  intros Hwf Hsh Hv Hh.
  apply bind_ok in Hv as (dv & Hdv & Hv). apply bind_ok in Hh as (dh & Hdh & Hh).
  destruct Hwf as [Hnn Hlen]. pose proof Hnn as Hnn'. rewrite Hsh in Hnn'.
  apply Forall_cons in Hnn' as [Hl Hnn']. apply Forall_cons in Hnn' as [Hh0 Hnn'].
  apply Forall_cons in Hnn' as [Hw Hnn']. clear Hnn'.
  split.
  - unfold t_translate_v. rewrite Hdv. cbn [mbind result_bind]. rewrite Hv.
    cbn [mbind result_bind].
    apply (per_plane_id _ video l h w c (conj Hnn Hlen) Hsh). intros p Hp. by cbn.
  - unfold t_translate_h. rewrite Hdh. cbn [mbind result_bind]. rewrite Hh.
    cbn [mbind result_bind].
    apply (per_plane_id _ video l h w c (conj Hnn Hlen) Hsh). intros p Hp.
    cbn [shape data]. do 2 f_equal.
    rewrite fmap_id_on by (apply Forall_forall; intros r _; by cbn).
    rewrite concat_rows. apply take_ge. rewrite Hp, <- Z2Nat.inj_mul by lia. lia.
Qed.

(** X24 (t_translate_v, t_translate_h): a vertical draw of at least the
    frame height in magnitude, or a horizontal one of at least the frame
    width, pushes every pixel out of the frame: the result is the video's
    shape filled with the black value. *)
Theorem t_translate_out_of_frame video (zv zh : float) (tv th : Z) l h w c :
  Np.wf video -> shape video = [l; h; w; c] ->
  normal (translate_v_std_dev_pxl au) zv ≫= PyFloat.to_int = Ok tv -> h <= Z.abs tv ->
  normal (translate_h_std_dev_pxl au) zh ≫= PyFloat.to_int = Ok th -> w <= Z.abs th ->
  t_translate_v of_float tr au video zv = Ok (Np.full_like video (of_float (black_val tr))) /\
  t_translate_h of_float tr au video zh = Ok (Np.full_like video (of_float (black_val tr))).
Proof.
  intros Hwf Hsh Hv Htv Hh Hth.
  apply bind_ok in Hv as (dv & Hdv & Hv). apply bind_ok in Hh as (dh & Hdh & Hh).
  destruct Hwf as [Hnn Hlen]. pose proof Hnn as Hnn'. rewrite Hsh in Hnn'.
  apply Forall_cons in Hnn' as [Hl Hnn']. apply Forall_cons in Hnn' as [Hh0 Hnn'].
  apply Forall_cons in Hnn' as [Hw Hnn']. clear Hnn'.
  split.
  - unfold t_translate_v. rewrite Hdv. cbn [mbind result_bind]. rewrite Hv.
    cbn [mbind result_bind].
    apply (per_plane_const _ _ video l h w c (conj Hnn Hlen) Hsh). intros p Hp.
    cbn [shape data]. do 2 f_equal. unfold Np.shift.
    rewrite Z.min_r by lia. rewrite (Z2Nat.inj_mul h w) in * by lia.
    destruct (Z.ltb_spec tv 0); [|destruct (Z.ltb_spec 0 tv)].
    + rewrite drop_ge by lia. done.
    + rewrite Nat.sub_diag. cbn [Nat.mul take]. by rewrite app_nil_r.
    + assert (h = 0) as -> by lia. destruct p; [done|]. simpl in Hp; lia.
  - unfold t_translate_h. rewrite Hdh. cbn [mbind result_bind]. rewrite Hh.
    cbn [mbind result_bind].
    apply (per_plane_const _ _ video l h w c (conj Hnn Hlen) Hsh). intros p Hp.
    cbn [shape data]. do 2 f_equal.
    assert (Hrow : Forall (fun r => Np.shift th 1 w (of_float (black_val tr)) r
                                    = replicate (Z.to_nat w) (of_float (black_val tr)))
                     (Np.rows (Z.to_nat w) (Z.to_nat h) p)).
    { eapply Forall_impl; [apply rows_row_length; rewrite Hp, <- Z2Nat.inj_mul by lia; lia|].
      intros r Hr. cbn beta in Hr |- *. unfold Np.shift. rewrite Z.min_r, !Nat.mul_1_r by lia.
      destruct (Z.ltb_spec th 0); [|destruct (Z.ltb_spec 0 th)].
      - rewrite drop_ge by lia. done.
      - rewrite Nat.sub_diag. cbn [Nat.mul take]. by rewrite app_nil_r.
      - assert (w = 0) as -> by lia. destruct r; [done|]. simpl in Hr; lia. }
    revert Hrow. pose proof (rows_length (Z.to_nat w) (Z.to_nat h) p) as Hn. revert Hn.
    generalize (Np.rows (Z.to_nat w) (Z.to_nat h) p). intros rs Hn Hrow.
    rewrite Z2Nat.inj_mul by lia. rewrite <- Hn. clear Hn.
    induction Hrow as [|r rs Hr _ IH]; [done|].
    cbn [fmap list_fmap concat length Nat.mul]. rewrite Hr. change (list_fmap _ _ ?f ?l) with (f <$> l).
    rewrite IH. by rewrite <- replicate_add.
Qed.

End TranslateFacts.


(** The one-frame video of two rows and two columns, translated by a draw
    of a quarter of a pixel. *)
Lemma t_translate_zero_draw_witness :
  t_translate_v IntPixels.of_float (plain_transforms 1) (geometric_augmentations 1%float)
    IntPixels.square 0.25%float = Ok IntPixels.square /\
  t_translate_h IntPixels.of_float (plain_transforms 1) (geometric_augmentations 1%float)
    IntPixels.square 0.25%float = Ok IntPixels.square.
Proof.
  apply (t_translate_zero_draw IntPixels.of_float (plain_transforms 1)
           (geometric_augmentations 1%float) IntPixels.square 0.25%float 0.25%float 1 2 2 1).
  - split; [repeat constructor; lia | reflexivity].
  - reflexivity.
  - vm_compute. reflexivity.
  - vm_compute. reflexivity.
Defined.

(** The same video translated by a draw of three pixels one way and of
    minus two the other. *)
Lemma t_translate_out_of_frame_witness :
  t_translate_v IntPixels.of_float (plain_transforms 1) (geometric_augmentations 1%float)
    IntPixels.square 3%float = Ok (mk_ndarray [1; 2; 2; 1] [0; 0; 0; 0]) /\
  t_translate_h IntPixels.of_float (plain_transforms 1) (geometric_augmentations 1%float)
    IntPixels.square (-2)%float = Ok (mk_ndarray [1; 2; 2; 1] [0; 0; 0; 0]).
Proof.
  apply (t_translate_out_of_frame IntPixels.of_float (plain_transforms 1)
           (geometric_augmentations 1%float) IntPixels.square 3%float (-2)%float 3 (-2) 1 2 2 1).
  - split; [repeat constructor; lia | reflexivity].
  - reflexivity.
  - vm_compute. reflexivity.
  - lia.
  - vm_compute. reflexivity.
  - lia.
Defined.
